(** * orchestron MIDI timing tools: [midi_pulse.c] and [midi_stats.c]

    A shallow embedding of the transmitter ([midi_pulse.c]) and the receiver
    ([midi_stats.c]) and the properties of their scheduler, statistics
    accumulators, series tracker and byte-stream classifier.

    Conventions.
    - [uint64_t], [uint8_t], [__uint128_t] values are [Z] with the wrap-around
      of every operation written out ([wrap64], [wrap8], [wrap128]);
      [int64_t] is [Z] with the two's-complement conversion [sint64].
    - [double] and [long double] values are [spec_float] of the Standard
      Library, with the rounding of every operation done by [SpecFloat]'s
      round-to-nearest-even at the precision of the format.  [double] is
      binary64; [long double] is a parameter [ld] of the development, since
      the two macOS targets differ: x87 extended on x86-64, binary64 on arm64.
    - the clock, the signal flag and the transport are an environment of
      oracles ([Env]); what the program does to the outside world is a trace
      of events. *)

From Stdlib Require Import ZArith List Bool Lia String.
From Stdlib Require Import Floats.SpecFloat.
Import ListNotations.
Local Open Scope Z_scope.

(** ** Machine integers *)

Definition wrap8 (z : Z) : Z := z mod 2 ^ 8.
Definition wrap64 (z : Z) : Z := z mod 2 ^ 64.
Definition wrap128 (z : Z) : Z := z mod 2 ^ 128.

Definition INT64_MAX : Z := 2 ^ 63 - 1.
Definition INT64_MIN : Z := - 2 ^ 63.

(** Conversion to [int64_t] (two's complement), also the result of an
    [int64_t] operation as the targets compute it. *)
Definition sint64 (z : Z) : Z := (z + 2 ^ 63) mod 2 ^ 64 - 2 ^ 63.

Definition is_u64 (z : Z) : Prop := 0 <= z < 2 ^ 64.
Definition is_i64 (z : Z) : Prop := INT64_MIN <= z <= INT64_MAX.

(** ** Floating point formats *)

Record float_format := { fprec : Z; femax : Z }.

Definition binary64 : float_format := {| fprec := 53; femax := 1024 |}.
Definition x87_extended : float_format := {| fprec := 64; femax := 16384 |}.

Module Float.

(** Integer to floating conversion, [(long double)n] or a literal [n.0]. *)
Definition of_Z (fmt : float_format) (z : Z) : spec_float :=
  binary_normalize (fprec fmt) (femax fmt) z 0 false.

(** Conversion between formats, rounding when the target is narrower. *)
Definition convert (fmt : float_format) (x : spec_float) : spec_float :=
  match x with
  | S754_finite s m e => binary_round (fprec fmt) (femax fmt) s m e
  | _ => x
  end.

Definition add (fmt : float_format) := SFadd (fprec fmt) (femax fmt).
Definition sub (fmt : float_format) := SFsub (fprec fmt) (femax fmt).
Definition mul (fmt : float_format) := SFmul (fprec fmt) (femax fmt).
Definition div (fmt : float_format) := SFdiv (fprec fmt) (femax fmt).
Definition sqrt (fmt : float_format) := SFsqrt (fprec fmt) (femax fmt).
Definition abs : spec_float -> spec_float := SFabs.
Definition ltb : spec_float -> spec_float -> bool := SFltb.

Definition zero : spec_float := S754_zero false.

(** [llround] of [<math.h>]: nearest integer, halfway cases away from
    zero.  For a NaN, an infinity or a value outside [long long] the C
    library leaves the result unspecified: [None]. *)
Definition round_half_away (m : positive) (e : Z) : Z :=
  match e with
  | Z0 => Zpos m
  | Zpos _ => Z.shiftl (Zpos m) e
  | Zneg p =>
      let q := Z.shiftr (Zpos m) (Zpos p) in
      if Z.testbit (Zpos m) (Zpos p - 1) then q + 1 else q
  end.

Definition llround (x : spec_float) : option Z :=
  match x with
  | S754_zero _ => Some 0
  | S754_finite s m e =>
      let r := round_half_away m e in
      let v := if s then - r else r in
      if (INT64_MIN <=? v) && (v <=? INT64_MAX) then Some v else None
  | _ => None
  end.

(** The exact order between a float and an integer. *)
Definition compare_Z (x : spec_float) (z : Z) : option comparison :=
  match x with
  | S754_nan => None
  | S754_infinity s => Some (if s then Lt else Gt)
  | S754_zero _ => Some (0 ?= z)
  | S754_finite s m e =>
      let v := cond_Zopp s (Zpos m) in
      Some (match e with
            | Zneg p => v ?= z * 2 ^ Zpos p
            | _ => v * 2 ^ e ?= z
            end)
  end.

(** The number of binary digits of a mantissa; the mantissa of the
    normalised float that holds the integer [c] in a format of [prec] digits;
    a shift record with nothing lost. *)
Definition dig (m : positive) : Z := Zpos (digits2_pos m).

Definition canon (prec : Z) (c : positive) : positive :=
  Z.to_pos (Zpos c * 2 ^ (prec - dig c)).

Definition exact_record (m : Z) : shr_record :=
  {| shr_m := m; shr_r := false; shr_s := false |}.

End Float.

(** ** Clock abstraction (the same text in both tools) *)

Record mach_timebase_info_data_t := { numer : Z; denom : Z }.

(** What [mach_timebase_info] can return and [main] accepts: two [uint32_t],
    the denominator checked against zero. *)
Definition timebase_ok (tb : mach_timebase_info_data_t) : Prop :=
  0 <= numer tb < 2 ^ 32 /\ 0 < denom tb < 2 ^ 32.

Section Clock.
Variable g_timebase : mach_timebase_info_data_t.

Definition host_to_ns (host_ticks : Z) : Z :=
  wrap64 (wrap128 (host_ticks * numer g_timebase) / denom g_timebase).

Definition ns_to_host (ns : Z) : Z :=
  wrap64 (wrap128 (ns * denom g_timebase) / numer g_timebase).

(** [-(int64_t)x] overflows for [x = INT64_MIN]; the model gives what the
    targets compute, the wrapped value. *)
Definition delta_ns_from_host (newer older : Z) : Z :=
  if older <=? newer
  then sint64 (host_to_ns (wrap64 (newer - older)))
  else sint64 (- sint64 (host_to_ns (wrap64 (older - newer)))).

(** The exact conversion of a tick count, before any truncation; used to
    state what [host_to_ns] computes. *)
Definition ticks_to_ns_exact (t : Z) : Z :=
  t * numer g_timebase / denom g_timebase.

End Clock.

(** The two timebases of the macOS targets. *)
Definition timebase_arm64 : mach_timebase_info_data_t :=
  {| numer := 125; denom := 3 |}.
Definition timebase_x86 : mach_timebase_info_data_t :=
  {| numer := 1; denom := 1 |}.

(** ** The receiver, [tools/midi_stats.c] *)

Module MidiStats.

Module Config.
Record t := {
  destination_spec : option string;
  channel : Z;          (* int *)
  count : Z;            (* long long *)
  report_every : Z;     (* int *)
  list_only : bool
}.
End Config.

Module IntervalStats.
Record t := {
  min_ns : Z;               (* int64_t *)
  max_ns : Z;               (* int64_t *)
  sum_ns : spec_float;      (* long double *)
  sum_sq_ns : spec_float;   (* long double *)
  count : Z                 (* uint64_t *)
}.
End IntervalStats.

Module JitterStats.
Record t := {
  min_ns : Z;
  max_ns : Z;
  sum_ns : spec_float;
  sum_abs_ns : spec_float;
  sum_sq_ns : spec_float;
  count : Z
}.
End JitterStats.

Module SeriesStats.
Record t := {
  have_previous : bool;
  previous_timestamp : Z;        (* MIDITimeStamp, a UInt64 *)
  have_reference_interval : bool;
  reference_interval_ns : Z;     (* int64_t *)
  events_seen : Z;               (* uint64_t *)
  intervals_seen : Z;            (* uint64_t *)
  interval : IntervalStats.t;
  jitter : JitterStats.t
}.
End SeriesStats.

Module RuntimeState.
Record t := {
  cfg : Config.t;
  events_seen : Z;
  timestamped_events : Z;
  untimestamped_events : Z;
  effective_series : SeriesStats.t;
  timestamped_series : SeriesStats.t;
  arrival_vs_timestamp : JitterStats.t
}.
End RuntimeState.

(** One [printf] of the report, with the values it formats. *)
Inductive Line :=
| report_line (final_report : bool)
    (events timestamped untimestamped : Z) (ts_ratio : spec_float)
| series_insufficient (label : string)
| series_line (label : string) (intervals : Z)
    (interval_mean_ms interval_std_ms interval_min_ms interval_max_ms
     reference_ms jitter_mean_ms jitter_abs_mean_ms jitter_std_ms
     jitter_min_ms jitter_max_ms : spec_float)
| lateness_none
| lateness_line (mean_ms abs_mean_ms std_ms min_ms max_ms : spec_float)
    (samples : Z).

(** The receiver's mutable world: the [RuntimeState] the callback owns, the
    stop flag and what has been written to standard output. *)
Record Process := {
  state : RuntimeState.t;
  g_keep_running : bool;
  stdout : list Line
}.

Section WithPlatform.
Variable ld : float_format.                       (* long double *)
Variable g_timebase : mach_timebase_info_data_t.

Let ldZ := Float.of_Z ld.
Let delta := delta_ns_from_host g_timebase.

Definition interval_init : IntervalStats.t :=
  {| IntervalStats.min_ns := INT64_MAX;
     IntervalStats.max_ns := INT64_MIN;
     IntervalStats.sum_ns := Float.zero;
     IntervalStats.sum_sq_ns := Float.zero;
     IntervalStats.count := 0 |}.

Definition interval_add (stats : IntervalStats.t) (value_ns : Z)
  : IntervalStats.t :=
  let value := ldZ value_ns in
  {| IntervalStats.min_ns :=
       if value_ns <? IntervalStats.min_ns stats
       then value_ns else IntervalStats.min_ns stats;
     IntervalStats.max_ns :=
       if IntervalStats.max_ns stats <? value_ns
       then value_ns else IntervalStats.max_ns stats;
     IntervalStats.sum_ns := Float.add ld (IntervalStats.sum_ns stats) value;
     IntervalStats.sum_sq_ns :=
       Float.add ld (IntervalStats.sum_sq_ns stats) (Float.mul ld value value);
     IntervalStats.count := wrap64 (IntervalStats.count stats + 1) |}.

Definition jitter_init : JitterStats.t :=
  {| JitterStats.min_ns := INT64_MAX;
     JitterStats.max_ns := INT64_MIN;
     JitterStats.sum_ns := Float.zero;
     JitterStats.sum_abs_ns := Float.zero;
     JitterStats.sum_sq_ns := Float.zero;
     JitterStats.count := 0 |}.

Definition jitter_add (stats : JitterStats.t) (value_ns : Z)
  : JitterStats.t :=
  let value := ldZ value_ns in
  {| JitterStats.min_ns :=
       if value_ns <? JitterStats.min_ns stats
       then value_ns else JitterStats.min_ns stats;
     JitterStats.max_ns :=
       if JitterStats.max_ns stats <? value_ns
       then value_ns else JitterStats.max_ns stats;
     JitterStats.sum_ns := Float.add ld (JitterStats.sum_ns stats) value;
     JitterStats.sum_abs_ns :=
       Float.add ld (JitterStats.sum_abs_ns stats) (Float.abs value);
     JitterStats.sum_sq_ns :=
       Float.add ld (JitterStats.sum_sq_ns stats) (Float.mul ld value value);
     JitterStats.count := wrap64 (JitterStats.count stats + 1) |}.

Definition series_init : SeriesStats.t :=
  {| SeriesStats.have_previous := false;
     SeriesStats.previous_timestamp := 0;
     SeriesStats.have_reference_interval := false;
     SeriesStats.reference_interval_ns := 0;
     SeriesStats.events_seen := 0;
     SeriesStats.intervals_seen := 0;
     SeriesStats.interval := interval_init;
     SeriesStats.jitter := jitter_init |}.

(** The [int64_t] subtraction [interval_ns - reference_interval_ns] is given
    its wrapped value where it overflows. *)
Definition series_add_event (series : SeriesStats.t) (timestamp : Z)
  : SeriesStats.t :=
  if negb (SeriesStats.have_previous series) then
    {| SeriesStats.have_previous := true;
       SeriesStats.previous_timestamp := timestamp;
       SeriesStats.have_reference_interval :=
         SeriesStats.have_reference_interval series;
       SeriesStats.reference_interval_ns :=
         SeriesStats.reference_interval_ns series;
       SeriesStats.events_seen := 1;
       SeriesStats.intervals_seen := SeriesStats.intervals_seen series;
       SeriesStats.interval := SeriesStats.interval series;
       SeriesStats.jitter := SeriesStats.jitter series |}
  else
    let interval_ns :=
      delta timestamp (SeriesStats.previous_timestamp series) in
    let reference_interval_ns :=
      if negb (SeriesStats.have_reference_interval series)
      then interval_ns else SeriesStats.reference_interval_ns series in
    let jitter_ns := sint64 (interval_ns - reference_interval_ns) in
    {| SeriesStats.have_previous := true;
       SeriesStats.previous_timestamp := timestamp;
       SeriesStats.have_reference_interval := true;
       SeriesStats.reference_interval_ns := reference_interval_ns;
       SeriesStats.events_seen := wrap64 (SeriesStats.events_seen series + 1);
       SeriesStats.intervals_seen :=
         wrap64 (SeriesStats.intervals_seen series + 1);
       SeriesStats.interval :=
         interval_add (SeriesStats.interval series) interval_ns;
       SeriesStats.jitter :=
         jitter_add (SeriesStats.jitter series) jitter_ns |}.

Definition stats_stddev (sum sum_sq : spec_float) (count : Z) : spec_float :=
  if count =? 0 then Float.zero
  else
    let mean := Float.div ld sum (ldZ count) in
    let variance :=
      Float.sub ld (Float.div ld sum_sq (ldZ count)) (Float.mul ld mean mean) in
    let variance :=
      if Float.ltb variance Float.zero then Float.zero else variance in
    Float.sqrt ld variance.

Let million := ldZ 1000000.

Definition print_series_report (label : string) (series : SeriesStats.t)
  : list Line :=
  let interval := SeriesStats.interval series in
  let jitter := SeriesStats.jitter series in
  if (IntervalStats.count interval =? 0) || (JitterStats.count jitter =? 0)
  then [series_insufficient label]
  else
    let interval_mean_ms :=
      Float.div ld
        (Float.div ld (IntervalStats.sum_ns interval)
                      (ldZ (IntervalStats.count interval)))
        million in
    let interval_std_ms :=
      Float.div ld
        (stats_stddev (IntervalStats.sum_ns interval)
                      (IntervalStats.sum_sq_ns interval)
                      (IntervalStats.count interval))
        million in
    let interval_min_ms :=
      Float.div ld (ldZ (IntervalStats.min_ns interval)) million in
    let interval_max_ms :=
      Float.div ld (ldZ (IntervalStats.max_ns interval)) million in
    let jitter_mean_ms :=
      Float.div ld
        (Float.div ld (JitterStats.sum_ns jitter)
                      (ldZ (JitterStats.count jitter)))
        million in
    let jitter_abs_mean_ms :=
      Float.div ld
        (Float.div ld (JitterStats.sum_abs_ns jitter)
                      (ldZ (JitterStats.count jitter)))
        million in
    let jitter_std_ms :=
      Float.div ld
        (stats_stddev (JitterStats.sum_ns jitter)
                      (JitterStats.sum_sq_ns jitter)
                      (JitterStats.count jitter))
        million in
    let jitter_min_ms :=
      Float.div ld (ldZ (JitterStats.min_ns jitter)) million in
    let jitter_max_ms :=
      Float.div ld (ldZ (JitterStats.max_ns jitter)) million in
    let reference_ms :=
      Float.div ld (ldZ (SeriesStats.reference_interval_ns series)) million in
    [series_line label (SeriesStats.intervals_seen series)
       interval_mean_ms interval_std_ms interval_min_ms interval_max_ms
       reference_ms jitter_mean_ms jitter_abs_mean_ms jitter_std_ms
       jitter_min_ms jitter_max_ms].

Definition print_lateness_report (stats : JitterStats.t) : list Line :=
  if JitterStats.count stats =? 0 then [lateness_none]
  else
    let mean_ms :=
      Float.div ld
        (Float.div ld (JitterStats.sum_ns stats) (ldZ (JitterStats.count stats)))
        million in
    let abs_mean_ms :=
      Float.div ld
        (Float.div ld (JitterStats.sum_abs_ns stats)
                      (ldZ (JitterStats.count stats)))
        million in
    let std_ms :=
      Float.div ld
        (stats_stddev (JitterStats.sum_ns stats) (JitterStats.sum_sq_ns stats)
                      (JitterStats.count stats))
        million in
    let min_ms := Float.div ld (ldZ (JitterStats.min_ns stats)) million in
    let max_ms := Float.div ld (ldZ (JitterStats.max_ns stats)) million in
    [lateness_line mean_ms abs_mean_ms std_ms min_ms max_ms
       (JitterStats.count stats)].

(** What [print_report] writes; it takes the state by pointer to [const]. *)
Definition report_lines (st : RuntimeState.t) (final_report : bool)
  : list Line :=
  let timestamp_ratio :=
    if 0 <? RuntimeState.events_seen st
    then Float.mul ld
           (Float.div ld (ldZ (RuntimeState.timestamped_events st))
                         (ldZ (RuntimeState.events_seen st)))
           (ldZ 100)
    else Float.zero in
  report_line final_report
    (RuntimeState.events_seen st)
    (RuntimeState.timestamped_events st)
    (RuntimeState.untimestamped_events st)
    timestamp_ratio
  :: print_series_report "effective_event_time" (RuntimeState.effective_series st)
  ++ print_series_report "timestamp_only" (RuntimeState.timestamped_series st)
  ++ print_lateness_report (RuntimeState.arrival_vs_timestamp st).

Definition print_report (p : Process) (final_report : bool) : Process :=
  {| state := state p;
     g_keep_running := g_keep_running p;
     stdout := stdout p ++ report_lines (state p) final_report |}.

Definition on_matching_event (p : Process)
    (packet_timestamp arrival_timestamp : Z) : Process :=
  let st := state p in
  let has_packet_timestamp := negb (packet_timestamp =? 0) in
  let effective_timestamp :=
    if has_packet_timestamp then packet_timestamp else arrival_timestamp in
  let events_seen := wrap64 (RuntimeState.events_seen st + 1) in
  let st :=
    if has_packet_timestamp then
      let arrival_lateness_ns := delta arrival_timestamp packet_timestamp in
      {| RuntimeState.cfg := RuntimeState.cfg st;
         RuntimeState.events_seen := events_seen;
         RuntimeState.timestamped_events :=
           wrap64 (RuntimeState.timestamped_events st + 1);
         RuntimeState.untimestamped_events :=
           RuntimeState.untimestamped_events st;
         RuntimeState.effective_series := RuntimeState.effective_series st;
         RuntimeState.timestamped_series :=
           series_add_event (RuntimeState.timestamped_series st)
                            packet_timestamp;
         RuntimeState.arrival_vs_timestamp :=
           jitter_add (RuntimeState.arrival_vs_timestamp st)
                      arrival_lateness_ns |}
    else
      {| RuntimeState.cfg := RuntimeState.cfg st;
         RuntimeState.events_seen := events_seen;
         RuntimeState.timestamped_events := RuntimeState.timestamped_events st;
         RuntimeState.untimestamped_events :=
           wrap64 (RuntimeState.untimestamped_events st + 1);
         RuntimeState.effective_series := RuntimeState.effective_series st;
         RuntimeState.timestamped_series := RuntimeState.timestamped_series st;
         RuntimeState.arrival_vs_timestamp :=
           RuntimeState.arrival_vs_timestamp st |} in
  let st :=
    {| RuntimeState.cfg := RuntimeState.cfg st;
       RuntimeState.events_seen := RuntimeState.events_seen st;
       RuntimeState.timestamped_events := RuntimeState.timestamped_events st;
       RuntimeState.untimestamped_events :=
         RuntimeState.untimestamped_events st;
       RuntimeState.effective_series :=
         series_add_event (RuntimeState.effective_series st)
                          effective_timestamp;
       RuntimeState.timestamped_series := RuntimeState.timestamped_series st;
       RuntimeState.arrival_vs_timestamp :=
         RuntimeState.arrival_vs_timestamp st |} in
  let p := {| state := st; g_keep_running := g_keep_running p;
              stdout := stdout p |} in
  let report_every := Config.report_every (RuntimeState.cfg st) in
  let p :=
    if (0 <? report_every)
       && (RuntimeState.events_seen st mod wrap64 report_every =? 0)
    then print_report p false else p in
  let count := Config.count (RuntimeState.cfg st) in
  if (0 <? count) && (count <=? sint64 (RuntimeState.events_seen st))
  then {| state := state p; g_keep_running := false; stdout := stdout p |}
  else p.

Definition midi_channel_message_length (status : Z) : Z :=
  let hi := Z.land status 0xF0 in
  if (hi =? 0xC0) || (hi =? 0xD0) then 2 else 3.

Definition midi_system_message_length (status : Z) : Z :=
  match status with
  | 0xF1 | 0xF3 => 2
  | 0xF2 => 3
  | 0xF6 | 0xF8 | 0xFA | 0xFB | 0xFC | 0xFE | 0xFF => 1
  | _ => 0
  end.

Section Packet.
Variables packet_timestamp arrival_timestamp : Z.
Variable data : list Z.     (* const Byte *data, [length] bytes *)

Let byte_at (i : nat) : Z := nth i data 0.

(** The inner loop that looks for the end of a system-exclusive
    message, [while (i < length && data[i] != 0xF7) i += 1], run for at
    most [fuel] passes. *)
Fixpoint sysex_scan (fuel i : nat) : nat :=
  match fuel with
  | O => i
  | S fuel' =>
      if (i <? List.length data)%nat && negb (byte_at i =? 0xF7)
      then sysex_scan fuel' (i + 1)
      else i
  end.

(** How one pass of the outer loop ends: at the loop test again with a
    new index ([continue] or the end of the body), or by [break]. *)
Inductive pass :=
| next_pass (i : nat) (p : Process)
| break_loop (p : Process).

Definition scan_pass (i : nat) (p : Process) : pass :=
  let status := byte_at i in
  if Z.land status 0x80 =? 0 then next_pass (i + 1) p
  else if 0xF0 <=? status then
    if status =? 0xF0 then
      let i := sysex_scan (List.length data - (i + 1)) (i + 1) in
      next_pass (if (i <? List.length data)%nat then i + 1 else i)%nat p
    else
      let system_len := midi_system_message_length status in
      if system_len =? 0 then next_pass (i + 1) p
      else if (List.length data <? i + Z.to_nat system_len)%nat
      then break_loop p
      else next_pass (i + Z.to_nat system_len) p
  else
    let msg_len := midi_channel_message_length status in
    if (List.length data <? i + Z.to_nat msg_len)%nat then break_loop p
    else
      let channel := Z.land status 0x0F + 1 in
      let hi := Z.land status 0xF0 in
      let p :=
        if (channel =? Config.channel (RuntimeState.cfg (state p)))
           && (hi =? 0x90) && (msg_len =? 3)
        then
          let velocity := byte_at (i + 2) in
          if 0 <? velocity
          then on_matching_event p packet_timestamp arrival_timestamp
          else p
        else p in
      next_pass (i + Z.to_nat msg_len) p.

(** [while (i < length) { ... }], at most [fuel] passes; the number of
    passes made is returned with the final state.  [None]: the fuel ran
    out with the loop still running. *)
Fixpoint scan_loop (fuel i : nat) (p : Process) (passes : nat)
  : option (Process * nat) :=
  if (i <? List.length data)%nat then
    match fuel with
    | O => None
    | S fuel' =>
        match scan_pass i p with
        | next_pass i' p' => scan_loop fuel' i' p' (S passes)
        | break_loop p' => Some (p', S passes)
        end
    end
  else Some (p, passes).

Definition process_packet_bytes (fuel : nat) (p : Process)
  : option (Process * nat) :=
  scan_loop fuel 0 p 0.

End Packet.

(** [main]: [RuntimeState state = {0}], the configuration, the three
    initialisers. *)
Definition initial_state (cfg : Config.t) : RuntimeState.t :=
  {| RuntimeState.cfg := cfg;
     RuntimeState.events_seen := 0;
     RuntimeState.timestamped_events := 0;
     RuntimeState.untimestamped_events := 0;
     RuntimeState.effective_series := series_init;
     RuntimeState.timestamped_series := series_init;
     RuntimeState.arrival_vs_timestamp := jitter_init |}.

Definition initial_process (cfg : Config.t) : Process :=
  {| state := initial_state cfg; g_keep_running := true; stdout := [] |}.

(** The state after the handler, whatever it printed and whether it cleared
    the stop flag. *)
Definition handled (st : RuntimeState.t) (packet_timestamp arrival_timestamp : Z)
  : RuntimeState.t :=
  {| RuntimeState.cfg := RuntimeState.cfg st;
     RuntimeState.events_seen := wrap64 (RuntimeState.events_seen st + 1);
     RuntimeState.timestamped_events :=
       if packet_timestamp =? 0 then RuntimeState.timestamped_events st
       else wrap64 (RuntimeState.timestamped_events st + 1);
     RuntimeState.untimestamped_events :=
       if packet_timestamp =? 0
       then wrap64 (RuntimeState.untimestamped_events st + 1)
       else RuntimeState.untimestamped_events st;
     RuntimeState.effective_series :=
       series_add_event (RuntimeState.effective_series st)
         (if packet_timestamp =? 0 then arrival_timestamp else packet_timestamp);
     RuntimeState.timestamped_series :=
       if packet_timestamp =? 0 then RuntimeState.timestamped_series st
       else series_add_event (RuntimeState.timestamped_series st)
              packet_timestamp;
     RuntimeState.arrival_vs_timestamp :=
       if packet_timestamp =? 0 then RuntimeState.arrival_vs_timestamp st
       else jitter_add (RuntimeState.arrival_vs_timestamp st)
              (delta arrival_timestamp packet_timestamp) |}.

(** A run of the handler over the qualifying events of a stream, each with
    its packet timestamp and its arrival timestamp. *)
Definition feed_events (p : Process) (events : list (Z * Z)) : Process :=
  fold_left (fun p e => on_matching_event p (fst e) (snd e)) events p.

(** A series fed the timestamps of successive events. *)
Definition series_feed (series : SeriesStats.t) (timestamps : list Z)
  : SeriesStats.t :=
  fold_left series_add_event timestamps series.

(** The interval samples of a list of timestamps: each event against the one
    before it. *)
Fixpoint intervals_of (previous : Z) (timestamps : list Z) : list Z :=
  match timestamps with
  | [] => []
  | t :: rest => delta t previous :: intervals_of t rest
  end.

End WithPlatform.

(** The counter-consistency invariant of the receiver. *)
Definition series_consistent (s : SeriesStats.t) : Prop :=
  SeriesStats.intervals_seen s = IntervalStats.count (SeriesStats.interval s)
  /\ SeriesStats.intervals_seen s = JitterStats.count (SeriesStats.jitter s)
  /\ (SeriesStats.have_previous s = true ->
      SeriesStats.events_seen s = SeriesStats.intervals_seen s + 1).

Definition counters_consistent (st : RuntimeState.t) : Prop :=
  RuntimeState.events_seen st
  = RuntimeState.timestamped_events st + RuntimeState.untimestamped_events st
  /\ series_consistent (RuntimeState.effective_series st)
  /\ series_consistent (RuntimeState.timestamped_series st).

(** Its inductive strengthening, for a state that has handled [k] events:
    a series without a previous timestamp has no interval yet, and no series
    has seen more events than the receiver. *)
Definition series_inv (s : SeriesStats.t) (k : Z) : Prop :=
  0 <= SeriesStats.intervals_seen s
  /\ SeriesStats.intervals_seen s = IntervalStats.count (SeriesStats.interval s)
  /\ SeriesStats.intervals_seen s = JitterStats.count (SeriesStats.jitter s)
  /\ (if SeriesStats.have_previous s
      then SeriesStats.events_seen s = SeriesStats.intervals_seen s + 1
           /\ SeriesStats.events_seen s <= k
      else SeriesStats.intervals_seen s = 0).

Definition state_inv (st : RuntimeState.t) (k : Z) : Prop :=
  RuntimeState.events_seen st = k
  /\ 0 <= RuntimeState.timestamped_events st
  /\ 0 <= RuntimeState.untimestamped_events st
  /\ RuntimeState.timestamped_events st + RuntimeState.untimestamped_events st = k
  /\ series_inv (RuntimeState.effective_series st) k
  /\ series_inv (RuntimeState.timestamped_series st) k.

End MidiStats.

(** ** The transmitter, [tools/midi_pulse.c] *)

Module MidiPulse.

Module Config.
Record t := {
  destination_spec : option string;
  channel : Z;              (* int *)
  note : Z;                 (* int *)
  velocity : Z;             (* int *)
  interval_ms : spec_float; (* double *)
  gate : spec_float;        (* double *)
  count : Z;                (* long long *)
  report_every : Z;         (* int *)
  list_only : bool;
  verbose : bool
}.
End Config.

Module JitterStats.
Record t := {
  min_late_ns : Z;              (* int64_t *)
  max_late_ns : Z;              (* int64_t *)
  sum_late_ns : spec_float;     (* long double *)
  sum_abs_late_ns : spec_float; (* long double *)
  count : Z                     (* uint64_t *)
}.
End JitterStats.

(** What the program does to the outside world. *)
Inductive Event :=
| nanosleep (tv_sec tv_nsec : Z)
| MIDISend (timestamp status data1 data2 : Z) (result : Z)
| printf_on (sent_notes : Z) (late_ms : spec_float)
| printf_stats (note_count : Z) (mean_ms abs_mean_ms min_ms max_ms : spec_float)
| fprintf_failed_note_on (status : Z)
| fprintf_failed_note_off (status : Z).

(** The outside world as oracles: what the k-th call of
    [mach_absolute_time] returns, what the k-th read of [g_keep_running]
    sees (the signal handler clears the flag at any moment), and the
    [OSStatus] of the k-th [MIDISend]. *)
Record Env := {
  mach_absolute_time : nat -> Z;
  g_keep_running : nat -> bool;
  MIDISend_status : nat -> Z
}.

Record World := {
  clock_reads : nat;
  flag_reads : nat;
  sends : nat;
  trace : list Event
}.

Definition boot : World :=
  {| clock_reads := 0; flag_reads := 0; sends := 0; trace := [] |}.

Definition emit (e : Event) (w : World) : World :=
  {| clock_reads := clock_reads w; flag_reads := flag_reads w;
     sends := sends w; trace := trace w ++ [e] |}.

(** The constants [main] computes before the loop. *)
Record Schedule := {
  channel_zero_based : Z;   (* uint8_t *)
  note : Z;                 (* uint8_t *)
  velocity : Z;             (* uint8_t *)
  interval_ns : Z;          (* uint64_t, as all below *)
  gate_ns : Z;
  interval_host : Z;
  gate_host : Z;
  schedule_lead_ns : Z;
  schedule_lead_host : Z
}.

Record Loop := {
  world : World;
  note_is_on : bool;
  sent_notes : Z;           (* uint64_t *)
  stats : JitterStats.t
}.

(** How the [for] loop ends. *)
Inductive Exit :=
| count_reached      (* [i < cfg.count] is false *)
| interrupted        (* [g_keep_running] read as 0 *)
| send_failed        (* [break] after a failed send *)
| out_of_fuel.       (* the model's bound on passes was reached *)

Section WithPlatform.
Variable ld : float_format.                       (* long double *)
Variable g_timebase : mach_timebase_info_data_t.
Variable env : Env.

Let ldZ := Float.of_Z ld.

Definition now_host (w : World) : Z * World :=
  (wrap64 (mach_absolute_time env (clock_reads w)),
   {| clock_reads := S (clock_reads w); flag_reads := flag_reads w;
      sends := sends w; trace := trace w |}).

Definition read_g_keep_running (w : World) : bool * World :=
  (g_keep_running env (flag_reads w),
   {| clock_reads := clock_reads w; flag_reads := S (flag_reads w);
      sends := sends w; trace := trace w |}).

(** [send_short_at]: a three-byte packet always fits the 256-byte list,
    so the result is that of [MIDISend]. *)
Definition send_short_at (w : World) (timestamp status data1 data2 : Z)
  : Z * World :=
  let result := MIDISend_status env (sends w) in
  (result,
   {| clock_reads := clock_reads w; flag_reads := flag_reads w;
      sends := S (sends w);
      trace := trace w ++ [MIDISend timestamp status data1 data2 result] |}).

(** [sleep_until_host], at most [fuel] passes of its loop.  The flag
    tells whether the function returned within them. *)
Fixpoint sleep_until_host (fuel : nat) (target_host : Z) (w : World)
  : World * bool :=
  match fuel with
  | O => (w, false)
  | S fuel' =>
      let (running, w) := read_g_keep_running w in
      if negb running then (w, true)
      else
        let (current, w) := now_host w in
        if target_host <=? current then (w, true)
        else
          let remaining_ns :=
            host_to_ns g_timebase (wrap64 (target_host - current)) in
          let w :=
            if 2000000 <? remaining_ns then
              let sleep_ns := wrap64 (remaining_ns - 500000) in
              emit (nanosleep (sleep_ns / 1000000000)
                              (sleep_ns mod 1000000000)) w
            else if 100000 <? remaining_ns then
              emit (nanosleep 0 (remaining_ns / 2)) w
            else w in
          sleep_until_host fuel' target_host w
  end.

Definition stats_init : JitterStats.t :=
  {| JitterStats.min_late_ns := INT64_MAX;
     JitterStats.max_late_ns := INT64_MIN;
     JitterStats.sum_late_ns := Float.zero;
     JitterStats.sum_abs_late_ns := Float.zero;
     JitterStats.count := 0 |}.

Definition stats_add (stats : JitterStats.t) (late_ns : Z) : JitterStats.t :=
  {| JitterStats.min_late_ns :=
       if late_ns <? JitterStats.min_late_ns stats
       then late_ns else JitterStats.min_late_ns stats;
     JitterStats.max_late_ns :=
       if JitterStats.max_late_ns stats <? late_ns
       then late_ns else JitterStats.max_late_ns stats;
     JitterStats.sum_late_ns :=
       Float.add ld (JitterStats.sum_late_ns stats) (ldZ late_ns);
     JitterStats.sum_abs_late_ns :=
       Float.add ld (JitterStats.sum_abs_late_ns stats)
                    (Float.abs (ldZ late_ns));
     JitterStats.count := wrap64 (JitterStats.count stats + 1) |}.

(** What [stats_print] writes; it takes the statistics by pointer to
    [const]. *)
Definition stats_lines (stats : JitterStats.t) (note_count : Z)
  : list Event :=
  if JitterStats.count stats =? 0 then []
  else
    let million := ldZ 1000000 in
    let n := ldZ (JitterStats.count stats) in
    let mean_ms :=
      Float.div ld (Float.div ld (JitterStats.sum_late_ns stats) n) million in
    let abs_mean_ms :=
      Float.div ld (Float.div ld (JitterStats.sum_abs_late_ns stats) n)
                   million in
    let min_ms := Float.div ld (ldZ (JitterStats.min_late_ns stats)) million in
    let max_ms := Float.div ld (ldZ (JitterStats.max_late_ns stats)) million in
    [printf_stats note_count mean_ms abs_mean_ms min_ms max_ms].

Definition stats_print (l : Loop) (note_count : Z) : Loop :=
  let w := world l in
  {| world :=
       {| clock_reads := clock_reads w; flag_reads := flag_reads w;
          sends := sends w;
          trace := trace w ++ stats_lines (stats l) note_count |};
     note_is_on := note_is_on l;
     sent_notes := sent_notes l;
     stats := stats l |}.

Definition with_world (l : Loop) (w : World) : Loop :=
  {| world := w; note_is_on := note_is_on l;
     sent_notes := sent_notes l; stats := stats l |}.

(** [llround] takes a [double]: the [long double] product is converted
    on the call. *)
Definition schedule (cfg : Config.t) : option Schedule :=
  match Float.llround
          (Float.mul binary64 (Config.interval_ms cfg)
                              (Float.of_Z binary64 1000000)) with
  | None => None
  | Some r =>
      let interval_ns := wrap64 r in
      match Float.llround
              (Float.convert binary64
                 (Float.mul ld (ldZ interval_ns)
                               (Float.convert ld (Config.gate cfg)))) with
      | None => None
      | Some g =>
          let gate_ns := wrap64 g in
          let schedule_lead_ns :=
            if 2000000 <? interval_ns / 2 then 2000000 else interval_ns / 2 in
          Some {| channel_zero_based := wrap8 (Config.channel cfg - 1);
                  note := wrap8 (Config.note cfg);
                  velocity := wrap8 (Config.velocity cfg);
                  interval_ns := interval_ns;
                  gate_ns := gate_ns;
                  interval_host := ns_to_host g_timebase interval_ns;
                  gate_host := ns_to_host g_timebase gate_ns;
                  schedule_lead_ns := schedule_lead_ns;
                  schedule_lead_host :=
                    ns_to_host g_timebase schedule_lead_ns |}
      end
  end.

Section Dispatch.
Variable cfg : Config.t.
Variable sched : Schedule.
Variable start_host : Z.
Variable sleep_fuel : nat.

Definition on_target_of (i : Z) : Z :=
  wrap64 (start_host + wrap64 (wrap64 i * interval_host sched)).

Definition off_target_of (on_target : Z) : Z :=
  wrap64 (on_target + gate_host sched).

(** The body of the [for] loop: the state after it and, when the loop ends
    there, how. *)
Definition loop_body (i : Z) (l : Loop) : Loop * option Exit :=
  let on_target := on_target_of i in
  let dispatch_target :=
    if schedule_lead_host sched <? on_target
    then wrap64 (on_target - schedule_lead_host sched)
    else on_target in
  let (w, returned) :=
    sleep_until_host sleep_fuel dispatch_target (world l) in
  if negb returned then (with_world l w, Some out_of_fuel)
  else
    let (running, w) := read_g_keep_running w in
    if negb running then (with_world l w, Some interrupted)
    else
      let (dispatch_now, w) := now_host w in
      let late_ns := delta_ns_from_host g_timebase dispatch_now on_target in
      let (status, w) :=
        send_short_at w on_target
          (wrap8 (Z.lor 0x90 (channel_zero_based sched)))
          (note sched) (velocity sched) in
      if negb (status =? 0)
      then (with_world l (emit (fprintf_failed_note_on status) w),
            Some send_failed)
      else
        let sent := wrap64 (sent_notes l + 1) in
        let l :=
          {| world := w; note_is_on := true; sent_notes := sent;
             stats := stats_add (stats l) late_ns |} in
        let l :=
          if Config.verbose cfg
          then with_world l
                 (emit (printf_on sent
                          (Float.div ld (ldZ late_ns) (ldZ 1000000)))
                       (world l))
          else l in
        let l :=
          if (0 <? Config.report_every cfg)
             && (sent mod wrap64 (Config.report_every cfg) =? 0)
          then stats_print l sent else l in
        let off_target := off_target_of on_target in
        let (status, w) :=
          send_short_at (world l) off_target
            (wrap8 (Z.lor 0x80 (channel_zero_based sched)))
            (note sched) 0 in
        if negb (status =? 0)
        then (with_world l (emit (fprintf_failed_note_off status) w),
              Some send_failed)
        else
          ({| world := w; note_is_on := false;
              sent_notes := sent_notes l; stats := stats l |}, None).

(** One pass of the [for] loop: its test, then its body. *)
Definition iteration (i : Z) (l : Loop) : Loop * option Exit :=
  let (running, w) := read_g_keep_running (world l) in
  if negb running then (with_world l w, Some interrupted)
  else if negb ((Config.count cfg =? 0) || (i <? Config.count cfg))
  then (with_world l w, Some count_reached)
  else loop_body i (with_world l w).

Fixpoint dispatch_loop (fuel : nat) (i : Z) (l : Loop) : Loop * Exit :=
  match fuel with
  | O => (l, out_of_fuel)
  | S fuel' =>
      match iteration i l with
      | (l', Some e) => (l', e)
      | (l', None) => dispatch_loop fuel' (i + 1) l'
      end
  end.

End Dispatch.

(** After the loop: the note still held is released, the two controller
    resets are sent, the final statistics are printed. *)
Definition shutdown (sched : Schedule) (l : Loop) : Loop :=
  let ch := channel_zero_based sched in
  let w := world l in
  let w :=
    if note_is_on l then
      let (t, w) := now_host w in
      snd (send_short_at w t (wrap8 (Z.lor 0x80 ch)) (note sched) 0)
    else w in
  let (t, w) := now_host w in
  let w := snd (send_short_at w t (wrap8 (Z.lor 0xB0 ch)) 123 0) in
  let (t, w) := now_host w in
  let w := snd (send_short_at w t (wrap8 (Z.lor 0xB0 ch)) 120 0) in
  stats_print (with_world l w) (sent_notes l).

(** [main] from [stats_init] to the end of the loop. *)
Definition dispatch (cfg : Config.t) (sched : Schedule)
    (fuel sleep_fuel : nat) (w : World) : Loop * Exit :=
  let (t, w) := now_host w in
  let start_host := wrap64 (t + ns_to_host g_timebase 500000000) in
  dispatch_loop cfg sched start_host sleep_fuel fuel 0
    {| world := w; note_is_on := false; sent_notes := 0;
       stats := stats_init |}.

Definition start_host_of (w : World) : Z :=
  wrap64 (fst (now_host w) + ns_to_host g_timebase 500000000).

(** [main] once the port is open. *)
Definition run (cfg : Config.t) (fuel sleep_fuel : nat) (w : World)
  : option (Loop * Exit) :=
  match schedule cfg with
  | None => None
  | Some sched =>
      let (l, e) := dispatch cfg sched fuel sleep_fuel w in
      Some (shutdown sched l, e)
  end.

End WithPlatform.

(** *** Reading a trace *)

(** A short message as handed to the transport, with its timestamp. *)
Record Msg := {
  msg_timestamp : Z;
  msg_status : Z;
  msg_data1 : Z;
  msg_data2 : Z
}.

Definition sends_of (tr : list Event) : list Msg :=
  flat_map
    (fun e =>
       match e with
       | MIDISend t s d1 d2 _ =>
           [{| msg_timestamp := t; msg_status := s;
               msg_data1 := d1; msg_data2 := d2 |}]
       | _ => []
       end) tr.

Definition is_note_on (m : Msg) : bool := Z.land (msg_status m) 0xF0 =? 0x90.
Definition is_note_off (m : Msg) : bool := Z.land (msg_status m) 0xF0 =? 0x80.

(** The timestamps of the note-on (note-off) messages of a trace, in the
    order they were sent. *)
Definition note_on_targets (tr : list Event) : list Z :=
  map msg_timestamp (filter is_note_on (sends_of tr)).

(** The two messages of iteration [i] of the loop. *)
Definition note_on_msg (sched : Schedule) (start_host i : Z) : Msg :=
  {| msg_timestamp := on_target_of sched start_host i;
     msg_status := wrap8 (Z.lor 0x90 (channel_zero_based sched));
     msg_data1 := note sched;
     msg_data2 := velocity sched |}.

Definition note_off_msg (sched : Schedule) (start_host i : Z) : Msg :=
  {| msg_timestamp :=
       off_target_of sched (on_target_of sched start_host i);
     msg_status := wrap8 (Z.lor 0x80 (channel_zero_based sched));
     msg_data1 := note sched;
     msg_data2 := 0 |}.

(** The messages of [k] complete iterations from iteration [i] on. *)
Fixpoint full_pairs (sched : Schedule) (start_host i : Z) (k : nat)
  : list Msg :=
  match k with
  | O => []
  | S k' =>
      note_on_msg sched start_host i :: note_off_msg sched start_host i
      :: full_pairs sched start_host (i + 1) k'
  end.

(** A double that holds an integer, and the gate values of the examples. *)
Definition double_of_Z (z : Z) : spec_float := Float.of_Z binary64 z.
Definition gate_quarter : spec_float := S754_finite false (2 ^ 52) (-54).


(** *** A run to try the loop on *)

(** A clock that is 7,000,000 ticks further at every reading (every sleep
    returns late), no signal, a transport that accepts everything. *)
Definition late_env : Env :=
  {| mach_absolute_time := fun k => 1000 + Z.of_nat k * 7000000;
     g_keep_running := fun _ => true;
     MIDISend_status := fun _ => 0 |}.

Definition example_config (interval_ms gate : spec_float) (count : Z)
  : Config.t :=
  {| Config.destination_spec := None;
     Config.channel := 1; Config.note := 60; Config.velocity := 100;
     Config.interval_ms := interval_ms; Config.gate := gate;
     Config.count := count; Config.report_every := 100;
     Config.list_only := false; Config.verbose := false |}.

(** [schedule] of [--interval-ms 500 --gate 0.25] and of
    [--interval-ms 200 --gate 0.25] on the 125/3 timebase. *)
Definition schedule_500ms : Schedule :=
  {| channel_zero_based := 0; note := 60; velocity := 100;
     interval_ns := 500000000; gate_ns := 125000000;
     interval_host := 12000000; gate_host := 3000000;
     schedule_lead_ns := 2000000; schedule_lead_host := 48000 |}.



End MidiPulse.

(** ** Vocabulary of the range properties *)

Module Validated.




End Validated.

(** ** Vocabulary of the statistics properties *)

Definition sum_Z (samples : list Z) : Z := fold_right Z.add 0 samples.

Definition sum_abs (samples : list Z) : Z :=
  fold_right (fun x acc => Z.abs x + acc) 0 samples.

(** What an accumulator state [s], read through its fields, says about the
    samples that were added: their number, bounds on each of them, the exact
    mean [sum_Z samples / n] between the bounds (written without the
    division), and the sum itself as long as the long double holds it
    exactly. *)
Definition summarises {A : Type} (ld : float_format)
    (amin amax acount : A -> Z) (asum : A -> spec_float)
    (s : A) (samples : list Z) : Prop :=
  let n := Z.of_nat (List.length samples) in
  acount s = n
  /\ Forall (fun x => amin s <= x <= amax s) samples
  /\ amin s * n <= sum_Z samples <= amax s * n
  /\ (0 < fprec ld < femax ld ->
      sum_abs samples < 2 ^ fprec ld ->
      asum s = Float.of_Z ld (sum_Z samples)).

(** The mean as the reports compute it, [sum / (long double)count]. *)
Definition reported_mean (ld : float_format) (sum : spec_float) (count : Z)
  : spec_float :=
  Float.div ld sum (Float.of_Z ld count).

(** ** The receiver's callback and the vocabulary of its runs *)

Module Receiver.
Import MidiStats.

(** A qualifying event is a pair: packet timestamp, arrival timestamp. *)
Definition has_packet_timestamp (e : Z * Z) : bool := negb (fst e =? 0).

Definition effective_timestamp (e : Z * Z) : Z :=
  if fst e =? 0 then snd e else fst e.

Definition is_report_line (l : Line) : bool :=
  match l with
  | report_line _ _ _ _ _ => true
  | _ => false
  end.

(** The number of reports in what was printed: each starts with its
    [report_line]. *)
Definition reports_printed (out : list Line) : Z :=
  Z.of_nat (List.length (filter is_report_line out)).

(** A configuration to try runs on: channel 1, the given count and report
    period. *)
Definition run_cfg (count report_every : Z) : Config.t :=
  {| Config.destination_spec := None; Config.channel := 1;
     Config.count := count; Config.report_every := report_every;
     Config.list_only := false |}.

(** [MIDIPacket]: its [timeStamp] and its [length] bytes of [data]. *)
Record MIDIPacket := { timeStamp : Z; data : list Z }.

Section WithPlatform.
Variable ld : float_format.
Variable g_timebase : mach_timebase_info_data_t.

(** [process_packet_bytes] with the fuel its buffer needs.  The [None] branch
    is never taken ([classify_returns] below): the loop returns within
    [length] passes. *)
Definition classify (packet_timestamp arrival_timestamp : Z) (data : list Z)
    (p : Process) : Process :=
  match process_packet_bytes ld g_timebase packet_timestamp arrival_timestamp
          data (List.length data) p with
  | Some (p', _) => p'
  | None => p
  end.

(** The end of a pass, seen from [k] bytes earlier in the buffer. *)
Definition shift_pass (k : nat) (r : pass) : pass :=
  match r with
  | next_pass i p => next_pass (k + i) p
  | break_loop p => break_loop p
  end.

Section Callback.
(** What the k-th call of [mach_absolute_time] returns. *)
Variable mach_absolute_time : nat -> Z.

(** The packet loop of [midi_read_proc],
    [for (i = 0; i < numPackets && g_keep_running; ++i)]; [reads] counts the
    clock readings made so far. *)
Fixpoint read_packets (packets : list MIDIPacket) (reads : nat) (p : Process)
  : Process * nat :=
  match packets with
  | [] => (p, reads)
  | packet :: rest =>
      if negb (g_keep_running p) then (p, reads)
      else
        let arrival_timestamp := wrap64 (mach_absolute_time reads) in
        read_packets rest (S reads)
          (classify (timeStamp packet) arrival_timestamp (data packet) p)
  end.

(** [midi_read_proc]: the state pointer and the packet list may be null
    ([None]); then, or when the stop flag is down, nothing is done. *)
Definition midi_read_proc (pktlist : option (list MIDIPacket))
    (read_proc_refcon : option Process) (reads : nat)
  : option Process * nat :=
  match read_proc_refcon, pktlist with
  | Some p, Some packets =>
      if negb (g_keep_running p) then (Some p, reads)
      else let (p', reads') := read_packets packets reads p in
           (Some p', reads')
  | _, _ => (read_proc_refcon, reads)
  end.

End Callback.
End WithPlatform.

End Receiver.

(** ** Vocabulary of the transmitter's further properties *)

Module Transmitter.
Import MidiPulse.

(** A request [nanosleep] accepts, and that the casts to [time_t] and [long]
    leave as computed: [0 <= tv_sec <= INT64_MAX], [0 <= tv_nsec < 10^9]. *)
Definition valid_request (e : Event) : Prop :=
  match e with
  | nanosleep tv_sec tv_nsec =>
      0 <= tv_sec <= INT64_MAX /\ 0 <= tv_nsec < 1000000000
  | _ => False
  end.

(** A send of the given kind (the high nibble of the status byte) that the
    transport accepted ([noErr]). *)
Definition accepted (kind : Z) (e : Event) : bool :=
  match e with
  | MIDISend _ status _ _ result =>
      (Z.land status 0xF0 =? kind) && (result =? 0)
  | _ => false
  end.

Definition accepted_note_ons (tr : list Event) : nat :=
  List.length (filter (accepted 0x90) tr).

Definition accepted_note_offs (tr : list Event) : nat :=
  List.length (filter (accepted 0x80) tr).

(** The note-off messages handed to the transport, accepted or not. *)
Definition note_off_sends (tr : list Event) : nat :=
  List.length (filter is_note_off (sends_of tr)).

(** The sends of a trace with what the transport answered. *)
Definition send_results (tr : list Event) : list (Msg * Z) :=
  flat_map
    (fun e =>
       match e with
       | MIDISend t s d1 d2 r =>
           [({| msg_timestamp := t; msg_status := s;
                msg_data1 := d1; msg_data2 := d2 |}, r)]
       | _ => []
       end) tr.

End Transmitter.

(** ** Strings, and the choice of the endpoint (the same text in both tools) *)

Module CString.

(** [tolower], [isdigit] and [isspace] on [unsigned char] values, in the
    [C] locale: the tools never call [setlocale]. *)
Definition tolower (c : Ascii.ascii) : Ascii.ascii :=
  let n := Ascii.nat_of_ascii c in
  if (65 <=? n)%nat && (n <=? 90)%nat then Ascii.ascii_of_nat (n + 32) else c.

Definition isdigit (c : Ascii.ascii) : bool :=
  let n := Ascii.nat_of_ascii c in (48 <=? n)%nat && (n <=? 57)%nat.

Definition isspace (c : Ascii.ascii) : bool :=
  let n := Ascii.nat_of_ascii c in
  (n =? 32)%nat || ((9 <=? n)%nat && (n <=? 13)%nat).

(** [strcasecmp(a, b) == 0]. *)
Fixpoint strcasecmp_eq (a b : string) : bool :=
  match a, b with
  | EmptyString, EmptyString => true
  | String x a', String y b' =>
      if Ascii.eqb (tolower x) (tolower y) then strcasecmp_eq a' b' else false
  | _, _ => false
  end.

(** The inner loop of [contains_case_insensitive],
    [while (j < needle_len && h[j] != 0 && tolower(h[j]) == tolower(needle[j])) ++j],
    gives the [j] it ends with: the characters of [needle] matched at the
    head of [h]. *)
Fixpoint match_run (h needle : string) {struct needle} : nat :=
  match needle, h with
  | String n needle', String c h' =>
      if Ascii.eqb (tolower c) (tolower n) then S (match_run h' needle')
      else 0%nat
  | _, _ => 0%nat
  end.

(** The outer loop, [for (h = haystack; *h != 0; ++h)]. *)
Fixpoint contains_from (haystack needle : string) : bool :=
  match haystack with
  | EmptyString => false
  | String _ rest =>
      if (match_run haystack needle =? String.length needle)%nat then true
      else contains_from rest needle
  end.

Definition contains_case_insensitive (haystack needle : string) : bool :=
  match needle with
  | EmptyString => true
  | _ => contains_from haystack needle
  end.

(** [is_unsigned_integer]; [None] is the null pointer. *)
Fixpoint all_digits (s : string) : bool :=
  match s with
  | EmptyString => true
  | String c s' => if isdigit c then all_digits s' else false
  end.

Definition is_unsigned_integer (s : option string) : bool :=
  match s with
  | None | Some EmptyString => false
  | Some s => all_digits s
  end.

(** The number scanner of [strtol], [strtoll] and [strtoul] in base 10:
    white space, an optional sign, digits.  It gives the sign, the value of
    the digits, whether there was a digit at all, and the text [*end] points
    to (the whole text when nothing was converted). *)
Fixpoint skip_spaces (s : string) : string :=
  match s with
  | String c s' => if isspace c then skip_spaces s' else s
  | EmptyString => s
  end.

Fixpoint scan_digits (s : string) (acc : Z) : Z * string :=
  match s with
  | String c s' =>
      if isdigit c
      then scan_digits s' (10 * acc + (Z.of_nat (Ascii.nat_of_ascii c) - 48))
      else (acc, s)
  | EmptyString => (acc, s)
  end.

Record Scan := {
  negative : bool;
  magnitude : Z;
  converted : bool;   (* [end != value] *)
  rest : string       (* the text at [end] *)
}.

Definition scan_number (value : string) : Scan :=
  let s := skip_spaces value in
  let (neg, s) :=
    match s with
    | String c s' =>
        if (Ascii.nat_of_ascii c =? 45)%nat then (true, s')        (* - *)
        else if (Ascii.nat_of_ascii c =? 43)%nat then (false, s')  (* + *)
        else (false, s)
    | EmptyString => (false, s)
    end in
  match s with
  | String c _ =>
      if isdigit c then
        let (m, r) := scan_digits s 0 in
        {| negative := neg; magnitude := m; converted := true; rest := r |}
      else
        {| negative := false; magnitude := 0; converted := false;
           rest := value |}
  | EmptyString =>
      {| negative := false; magnitude := 0; converted := false;
         rest := value |}
  end.

(** A signed conversion of [bits] bits: the value, clamped with [ERANGE]
    (the flag) when it does not fit. *)
Definition strto_signed (bits : Z) (value : string) : Z * bool * Scan :=
  let sc := scan_number value in
  let v := if negative sc then - magnitude sc else magnitude sc in
  let lo := - 2 ^ (bits - 1) in
  let hi := 2 ^ (bits - 1) - 1 in
  if v <? lo then (lo, true, sc)
  else if hi <? v then (hi, true, sc)
  else (v, false, sc).

(** [strtoul]: [ULONG_MAX] with [ERANGE] when the digits do not fit, else
    the value, negated in [unsigned long] after a minus sign. *)
Definition strtoul (value : string) : Z * bool * Scan :=
  let sc := scan_number value in
  if 2 ^ 64 - 1 <? magnitude sc then (2 ^ 64 - 1, true, sc)
  else ((if negative sc then wrap64 (- magnitude sc) else magnitude sc),
        false, sc).

(** [parse_int] and [parse_long_long]: [long] and [long long] have 64 bits
    on the targets; the bounds given are within [int] for [parse_int], so
    its cast to [int] changes nothing. *)
Definition parse_bounded (value : string) (min_value max_value : Z)
  : option Z :=
  let '(parsed, erange, sc) := strto_signed 64 value in
  if erange || negb (converted sc)
     || negb (match rest sc with EmptyString => true | _ => false end)
  then None
  else if (parsed <? min_value) || (max_value <? parsed) then None
  else Some parsed.

Definition parse_int := parse_bounded.
Definition parse_long_long := parse_bounded.

(** Spelled in lower case; the decimal value of a text of digits. *)
Fixpoint lower (s : string) : string :=
  match s with
  | EmptyString => EmptyString
  | String c s' => String (tolower c) (lower s')
  end.

Definition decimal (s : string) : Z := fst (scan_digits s 0).

End CString.

Module Device.
Import CString.

(** How [resolve_source] and [resolve_destination] end: with the index and
    the name of the endpoint, or with one of their five complaints. *)
Inductive Resolution :=
| resolved (index : nat) (name : string)
| no_endpoints
| index_out_of_range
| index_unavailable (index : nat)
| ambiguous
| no_match.

(** The endpoints as CoreMIDI shows them during the call: for each index
    [None] when [MIDIGetSource] ([MIDIGetDestination]) returns 0, else the
    name that [endpoint_name] writes for it. *)
Definition Endpoints := list (option string).

Definition endpoint_name_at (endpoints : Endpoints) (i : nat) : string :=
  match nth i endpoints None with
  | Some name => name
  | None => "<unknown>"%string
  end.

Record Search := {
  exact_found : bool;
  exact_index : nat;
  partial_found : bool;
  partial_index : nat;
  partial_count : Z       (* int; one increment for an endpoint at most *)
}.

Definition search_init : Search :=
  {| exact_found := false; exact_index := 0; partial_found := false;
     partial_index := 0; partial_count := 0 |}.

(** The search loop, from index [i] on. *)
Fixpoint search (spec : string) (endpoints : Endpoints) (i : nat)
    (st : Search) : Search :=
  match endpoints with
  | [] => st
  | None :: others => search spec others (S i) st
  | Some name :: others =>
      if strcasecmp_eq name spec then
        {| exact_found := true; exact_index := i;
           partial_found := partial_found st;
           partial_index := partial_index st;
           partial_count := partial_count st |}
      else if contains_case_insensitive name spec then
        search spec others (S i)
          {| exact_found := exact_found st; exact_index := exact_index st;
             partial_found := true; partial_index := i;
             partial_count := partial_count st + 1 |}
      else search spec others (S i) st
  end.

Definition resolve (spec : string) (endpoints : Endpoints) : Resolution :=
  let count := Z.of_nat (List.length endpoints) in
  if count =? 0 then no_endpoints
  else if is_unsigned_integer (Some spec) then
    let '(idx, _, sc) := strtoul spec in
    if negb (converted sc)
       || negb (match rest sc with EmptyString => true | _ => false end)
       || (count <=? idx)
    then index_out_of_range
    else
      match nth (Z.to_nat idx) endpoints None with
      | None => index_unavailable (Z.to_nat idx)
      | Some name => resolved (Z.to_nat idx) name
      end
  else
    let st := search spec endpoints 0 search_init in
    if exact_found st
    then resolved (exact_index st) (endpoint_name_at endpoints (exact_index st))
    else if partial_found st && (partial_count st =? 1)
    then resolved (partial_index st)
           (endpoint_name_at endpoints (partial_index st))
    else if 1 <? partial_count st then ambiguous
    else no_match.

(** The available endpoints whose name contains [spec], with their indices
    from [i] on. *)
Fixpoint partial_matches (spec : string) (endpoints : Endpoints) (i : nat)
  : list (nat * string) :=
  match endpoints with
  | [] => []
  | Some name :: others =>
      if contains_case_insensitive name spec
      then (i, name) :: partial_matches spec others (S i)
      else partial_matches spec others (S i)
  | None :: others => partial_matches spec others (S i)
  end.

(** No available endpoint has the name [spec], the case of letters apart. *)
Definition no_exact_match (spec : string) (endpoints : Endpoints) : Prop :=
  forall name, In (Some name) endpoints -> strcasecmp_eq name spec = false.

End Device.

(** ** The command line of the receiver *)

Module StatsArgs.
Import CString MidiStats.

(** How [parse_args] ends: [true] with the configuration, [false] after one
    of its complaints, or in [exit(0)] after the usage text. *)
Inductive Complaint :=
| missing_value (option : string)
| invalid_channel (value : string)
| invalid_count (value : string)
| invalid_report_interval (value : string)
| unknown_option (option : string).

Inductive Parsed :=
| parsed (cfg : Config.t)
| rejected (why : Complaint)
| usage_exit.

Definition INT_MAX : Z := 2 ^ 31 - 1.
Definition LLONG_MAX : Z := 2 ^ 63 - 1.

Definition defaults : Config.t :=
  {| Config.destination_spec := None; Config.channel := 1;
     Config.count := 0; Config.report_every := 100;
     Config.list_only := false |}.

(** The loop over [argv[1]], [argv[2]], ...: [args] is what is left of
    them. *)
Fixpoint parse_loop (args : list string) (cfg : Config.t) : Parsed :=
  match args with
  | [] => parsed cfg
  | arg :: after =>
      if String.eqb arg "--list" then
        parse_loop after
          {| Config.destination_spec := Config.destination_spec cfg;
             Config.channel := Config.channel cfg;
             Config.count := Config.count cfg;
             Config.report_every := Config.report_every cfg;
             Config.list_only := true |}
      else if String.eqb arg "-h" || String.eqb arg "--help" then usage_exit
      else
        match after with
        | [] => rejected (missing_value arg)
        | value :: others =>
            if String.eqb arg "-d" || String.eqb arg "--dest" then
              parse_loop others
                {| Config.destination_spec := Some value;
                   Config.channel := Config.channel cfg;
                   Config.count := Config.count cfg;
                   Config.report_every := Config.report_every cfg;
                   Config.list_only := Config.list_only cfg |}
            else if String.eqb arg "-c" || String.eqb arg "--channel" then
              match parse_int value 1 16 with
              | None => rejected (invalid_channel value)
              | Some channel =>
                  parse_loop others
                    {| Config.destination_spec := Config.destination_spec cfg;
                       Config.channel := channel;
                       Config.count := Config.count cfg;
                       Config.report_every := Config.report_every cfg;
                       Config.list_only := Config.list_only cfg |}
              end
            else if String.eqb arg "-k" || String.eqb arg "--count" then
              match parse_long_long value 0 LLONG_MAX with
              | None => rejected (invalid_count value)
              | Some count =>
                  parse_loop others
                    {| Config.destination_spec := Config.destination_spec cfg;
                       Config.channel := Config.channel cfg;
                       Config.count := count;
                       Config.report_every := Config.report_every cfg;
                       Config.list_only := Config.list_only cfg |}
              end
            else if String.eqb arg "--report-every" then
              match parse_int value 1 INT_MAX with
              | None => rejected (invalid_report_interval value)
              | Some report_every =>
                  parse_loop others
                    {| Config.destination_spec := Config.destination_spec cfg;
                       Config.channel := Config.channel cfg;
                       Config.count := Config.count cfg;
                       Config.report_every := report_every;
                       Config.list_only := Config.list_only cfg |}
              end
            else rejected (unknown_option arg)
        end
  end.

(** [argv] with the program name at its head. *)
Definition parse_args (argv : list string) : Parsed :=
  parse_loop (tl argv) defaults.

(** The ranges [parse_args] lets through. *)
Definition in_range (cfg : Config.t) : Prop :=
  1 <= Config.channel cfg <= 16
  /\ 0 <= Config.count cfg <= LLONG_MAX
  /\ 1 <= Config.report_every cfg <= INT_MAX.

(** An option that takes a value. *)
Definition takes_value (arg : string) : bool :=
  negb (String.eqb arg "--list" || String.eqb arg "-h"
        || String.eqb arg "--help").

(** A text of white space only. *)
Fixpoint all_spaces (s : string) : bool :=
  match s with
  | EmptyString => true
  | String c s' => if isspace c then all_spaces s' else false
  end.

(** The sign characters as texts. *)
Definition minus_sign : string := String (Ascii.ascii_of_nat 45) EmptyString.
Definition plus_sign : string := String (Ascii.ascii_of_nat 43) EmptyString.

End StatsArgs.

(** * Properties *)

(** ** Machine integers *)

Lemma wrap64_range z : is_u64 (wrap64 z).
Proof. unfold is_u64, wrap64. apply Z.mod_pos_bound. lia. Qed.

Lemma wrap64_small z : is_u64 z -> wrap64 z = z.
Proof. unfold is_u64, wrap64. intros H. apply Z.mod_small. exact H. Qed.

Lemma wrap64_add_l a b : wrap64 (wrap64 a + b) = wrap64 (a + b).
Proof. unfold wrap64. apply Zplus_mod_idemp_l. Qed.

Lemma wrap64_add_r a b : wrap64 (a + wrap64 b) = wrap64 (a + b).
Proof. unfold wrap64. apply Zplus_mod_idemp_r. Qed.

Lemma wrap64_mul_l a b : wrap64 (wrap64 a * b) = wrap64 (a * b).
Proof. unfold wrap64. apply Zmult_mod_idemp_l. Qed.

Lemma sint64_small z : is_i64 z -> sint64 z = z.
Proof.
  unfold is_i64, sint64, INT64_MIN, INT64_MAX. intros H.
  rewrite Z.mod_small; lia.
Qed.

Lemma sint64_of_u63 z : 0 <= z <= INT64_MAX -> sint64 (wrap64 z) = z.
Proof.
  unfold INT64_MAX. intros H.
  rewrite wrap64_small by (unfold is_u64; lia).
  apply sint64_small. unfold is_i64, INT64_MIN, INT64_MAX. lia.
Qed.



(** ** Floating point: sums of integers that the format holds *)

Module FloatProperties.

Local Abbreviation dig := Float.dig.
Local Abbreviation exact_record := Float.exact_record.

Lemma dig_bounds m : 2 ^ (dig m - 1) <= Zpos m < 2 ^ dig m.
Proof.
  unfold Float.dig. induction m as [m IH|m IH|]; cbn [digits2_pos].
  - rewrite Pos2Z.inj_succ.
    replace (Z.succ (Zpos (digits2_pos m)) - 1)
      with (Z.succ (Zpos (digits2_pos m) - 1)) by lia.
    rewrite !Z.pow_succ_r by lia. lia.
  - rewrite Pos2Z.inj_succ.
    replace (Z.succ (Zpos (digits2_pos m)) - 1)
      with (Z.succ (Zpos (digits2_pos m) - 1)) by lia.
    rewrite !Z.pow_succ_r by lia. lia.
  - cbn. lia.
Qed.

Lemma dig_pos m : 0 < dig m.
Proof. unfold Float.dig. lia. Qed.

Lemma dig_unique m d : 2 ^ (d - 1) <= Zpos m < 2 ^ d -> dig m = d.
Proof.
  intros [Hlo Hhi]. pose proof (dig_bounds m) as [Blo Bhi].
  pose proof (dig_pos m) as Hp.
  assert (Hd : 0 < d).
  { destruct (Z.ltb_spec 0 d) as [|Hn]; [assumption|].
    exfalso. destruct (Z.eq_dec d 0) as [->|].
    - cbn in Hhi. lia.
    - rewrite Z.pow_neg_r in Hhi by lia. lia. }
  destruct (Z.lt_trichotomy (dig m) d) as [Hlt|[Heq|Hgt]]; [|exact Heq|].
  - exfalso.
    assert (2 ^ dig m <= 2 ^ (d - 1)) by (apply Z.pow_le_mono_r; lia). lia.
  - exfalso.
    assert (2 ^ d <= 2 ^ (dig m - 1)) by (apply Z.pow_le_mono_r; lia). lia.
Qed.

Lemma dig_shift m c k :
  0 <= k -> Zpos m = Zpos c * 2 ^ k -> dig m = dig c + k.
Proof.
  intros Hk Hm. apply dig_unique. rewrite Hm.
  pose proof (dig_bounds c) as [Blo Bhi]. pose proof (dig_pos c).
  replace (dig c + k - 1) with ((dig c - 1) + k) by lia.
  rewrite !Z.pow_add_r by lia.
  assert (0 < 2 ^ k) by (apply Z.pow_pos_nonneg; lia).
  split; nia.
Qed.

Lemma dig_le m p : 0 <= p -> Zpos m < 2 ^ p -> dig m <= p.
Proof.
  intros Hp Hm. pose proof (dig_bounds m) as [Blo _].
  destruct (Z.le_gt_cases (dig m) p) as [|Hgt]; [assumption|].
  exfalso.
  assert (2 ^ p <= 2 ^ (dig m - 1)) by (apply Z.pow_le_mono_r; lia). lia.
Qed.

Lemma iter_xO_value d m : Zpos (Pos.iter xO m d) = Zpos m * 2 ^ Zpos d.
Proof.
  induction d as [|d IH] using Pos.peano_ind.
  - cbn. lia.
  - rewrite Pos.iter_succ, Pos2Z.inj_succ, Z.pow_succ_r by lia.
    rewrite Pos2Z.inj_xO, IH. ring.
Qed.

Lemma iter_pos_nat {A} (f : A -> A) p : forall x,
  iter_pos f p x = Nat.iter (Pos.to_nat p) f x.
Proof.
  induction p as [p IH|p IH|]; intros x; cbn [iter_pos].
  - rewrite !IH, Pos2Nat.inj_xI. 
    replace (S (2 * Pos.to_nat p))
      with (S (Pos.to_nat p + Pos.to_nat p))%nat by lia.
    rewrite Nat.iter_succ_r, Nat.iter_add. reflexivity.
  - rewrite !IH, Pos2Nat.inj_xO.
    replace (2 * Pos.to_nat p)%nat
      with (Pos.to_nat p + Pos.to_nat p)%nat by lia.
    rewrite Nat.iter_add. reflexivity.
  - reflexivity.
Qed.

Lemma shr_1_exact n : forall m m',
  Zpos m = Zpos m' * 2 ^ Z.of_nat n ->
  Nat.iter n shr_1 (exact_record (Zpos m)) = exact_record (Zpos m').
Proof.
  induction n as [|n IH]; intros m m' Hm.
  - cbn in *. f_equal. lia.
  - rewrite Nat.iter_succ_r.
    rewrite Nat2Z.inj_succ, Z.pow_succ_r in Hm by lia.
    destruct m as [m|m|]; try lia.
    cbn [exact_record shr_1 orb]. apply IH. lia.
Qed.


Section Format.
Variables prec emax : Z.
Hypothesis format_ok : 0 < prec < emax.

Let canon := Float.canon prec.

Lemma canon_value c :
  dig c <= prec -> Zpos (canon c) = Zpos c * 2 ^ (prec - dig c).
Proof.
  intros Hc. unfold canon, Float.canon. rewrite Z2Pos.id; [reflexivity|].
  assert (0 < 2 ^ (prec - dig c)) by (apply Z.pow_pos_nonneg; lia). nia.
Qed.

Lemma fexp_dig c : dig c <= prec -> fexp prec emax (dig c) = dig c - prec.
Proof.
  intros Hc. pose proof (dig_pos c). unfold fexp, emin. lia.
Qed.

Lemma binary_round_aux_exact s m e c :
  dig c <= prec -> e <= dig c - prec -> Zpos m = Zpos c * 2 ^ (- e) ->
  binary_round_aux prec emax s (Zpos m) e loc_Exact
  = S754_finite s (canon c) (dig c - prec).
Proof.
  intros Hc He Hm. pose proof (dig_pos c) as Hpos.
  pose proof (canon_value c Hc) as Hcv.
  assert (Hdm : dig m = dig c + - e) by (apply dig_shift; [lia|exact Hm]).
  assert (Hdc : dig (canon c) = dig c + (prec - dig c))
    by (apply dig_shift; [lia|exact Hcv]).
  unfold binary_round_aux.
  assert (H1 : shr_fexp prec emax (Zpos m) e loc_Exact
               = (exact_record (Zpos (canon c)), dig c - prec)).
  { unfold shr_fexp. cbn [Zdigits2 shr_record_of_loc]. fold (dig m).
    rewrite Hdm. replace (dig c + - e + e) with (dig c) by lia.
    rewrite fexp_dig by exact Hc.
    unfold shr. destruct (dig c - prec - e) as [|p|p] eqn:Hsh; [| |lia].
    - assert (e = dig c - prec) by lia. subst e.
      assert (m = canon c).
      { apply Pos2Z.inj. rewrite Hm, Hcv. f_equal. f_equal. lia. }
      subst m. reflexivity.
    - rewrite iter_pos_nat.
      change {| shr_m := Zpos m; shr_r := false; shr_s := false |}
        with (exact_record (Zpos m)).
      rewrite (shr_1_exact _ m (canon c)).
      + f_equal. lia.
      + rewrite positive_nat_Z, Hm, Hcv, <- Z.mul_assoc, <- Z.pow_add_r by lia.
        f_equal. f_equal. lia. }
  rewrite H1. cbn [exact_record shr_m loc_of_shr_record round_nearest_even].
  unfold shr_fexp. cbn [Zdigits2 shr_record_of_loc]. fold (dig (canon c)).
  rewrite Hdc.
  replace (dig c + (prec - dig c) + (dig c - prec)) with (dig c) by lia.
  rewrite fexp_dig by exact Hc. rewrite Z.sub_diag. cbn [shr shr_m].
  destruct (Z.leb_spec (dig c - prec) (emax - prec)); [reflexivity|lia].
Qed.

Lemma binary_round_exact s m c K :
  0 <= K -> Zpos m = Zpos c * 2 ^ K -> dig c <= prec ->
  binary_round prec emax s m (- K) = S754_finite s (canon c) (dig c - prec).
Proof.
  intros HK Hm Hc. pose proof (dig_pos c) as Hpos.
  unfold binary_round. fold (dig m).
  rewrite (dig_shift m c K HK Hm).
  replace (dig c + K + - K) with (dig c) by lia.
  rewrite fexp_dig by exact Hc.
  unfold shl_align. destruct (dig c - prec - - K) as [|p|p] eqn:Hsh.
  - apply binary_round_aux_exact; [exact Hc|lia|].
    rewrite Hm. f_equal. f_equal. lia.
  - apply binary_round_aux_exact; [exact Hc|lia|].
    rewrite Hm. f_equal. f_equal. lia.
  - apply binary_round_aux_exact; [exact Hc|lia|].
    rewrite iter_xO_value, Hm, <- Z.mul_assoc, <- Z.pow_add_r by lia.
    f_equal. f_equal. lia.
Qed.

Lemma shl_align_value m e e' :
  e' <= e -> Zpos (fst (shl_align m e e')) = Zpos m * 2 ^ (e - e').
Proof.
  intros He. unfold shl_align.
  destruct (e' - e) as [|p|p] eqn:Hd; cbn [fst]; [| lia |].
  - replace (e - e') with 0 by lia. lia.
  - rewrite iter_xO_value. f_equal. f_equal. lia.
Qed.

Let fmt := {| fprec := prec; femax := emax |}.

Lemma of_Z_nonzero z :
  z <> 0 -> Z.abs z < 2 ^ prec ->
  Float.of_Z fmt z
  = S754_finite (z <? 0) (canon (Z.to_pos (Z.abs z)))
      (dig (Z.to_pos (Z.abs z)) - prec).
Proof.
  intros Hz Hb. unfold Float.of_Z. cbn [fprec femax fmt].
  destruct z as [|m|m]; [lia| |];
    cbn [binary_normalize Z.abs Z.to_pos Z.ltb Z.compare];
    change 0 with (- 0); apply binary_round_exact; try lia;
    apply dig_le; lia.
Qed.

Lemma normalize_exact z K :
  0 <= K -> Z.abs z < 2 ^ prec ->
  binary_normalize prec emax (z * 2 ^ K) (- K) false = Float.of_Z fmt z.
Proof.
  intros HK Hb.
  assert (Hp : 0 < 2 ^ K) by (apply Z.pow_pos_nonneg; lia).
  destruct (Z.eq_dec z 0) as [->|Hz]; [reflexivity|].
  rewrite of_Z_nonzero by assumption.
  destruct z as [|c|c]; [lia| |]; cbn [Z.abs Z.to_pos Z.ltb Z.compare].
  - destruct (Zpos c * 2 ^ K) as [|m|m] eqn:Hm; [nia| |nia].
    cbn [binary_normalize]. apply binary_round_exact; [lia|lia|].
    apply dig_le; lia.
  - destruct (Zneg c * 2 ^ K) as [|m|m] eqn:Hm; [nia|nia|].
    cbn [binary_normalize]. apply binary_round_exact; [lia|lia|].
    apply dig_le; lia.
Qed.

(** Adding two integers whose sum the format holds exactly. *)
Lemma add_exact a b :
  Z.abs a < 2 ^ prec -> Z.abs b < 2 ^ prec -> Z.abs (a + b) < 2 ^ prec ->
  Float.add fmt (Float.of_Z fmt a) (Float.of_Z fmt b) = Float.of_Z fmt (a + b).
Proof.
  intros Ha Hb Hab.
  destruct (Z.eq_dec a 0) as [->|Ha0].
  { cbn [Z.add]. destruct (Z.eq_dec b 0) as [->|Hb0]; [reflexivity|].
    rewrite (of_Z_nonzero b) by assumption. reflexivity. }
  destruct (Z.eq_dec b 0) as [->|Hb0].
  { rewrite Z.add_0_r. rewrite (of_Z_nonzero a) by assumption. reflexivity. }
  rewrite (of_Z_nonzero a), (of_Z_nonzero b) by assumption.
  set (ca := Z.to_pos (Z.abs a)). set (cb := Z.to_pos (Z.abs b)).
  assert (Hca : Zpos ca = Z.abs a) by (unfold ca; rewrite Z2Pos.id; lia).
  assert (Hcb : Zpos cb = Z.abs b) by (unfold cb; rewrite Z2Pos.id; lia).
  assert (Hda : dig ca <= prec) by (apply dig_le; lia).
  assert (Hdb : dig cb <= prec) by (apply dig_le; lia).
  pose proof (dig_pos ca). pose proof (dig_pos cb).
  unfold Float.add. cbn [fprec femax fmt SFadd].
  set (ez := Z.min (dig ca - prec) (dig cb - prec)).
  rewrite !shl_align_value by (unfold ez; lia).
  rewrite !canon_value by assumption.
  rewrite <- !Z.mul_assoc, <- !Z.pow_add_r by (unfold ez; lia).
  replace (prec - dig ca + (dig ca - prec - ez)) with (- ez) by lia.
  replace (prec - dig cb + (dig cb - prec - ez)) with (- ez) by lia.
  rewrite Hca, Hcb.
  assert (Hsa : cond_Zopp (a <? 0) (Z.abs a * 2 ^ (- ez)) = a * 2 ^ (- ez)).
  { destruct (Z.ltb_spec a 0); cbn [cond_Zopp]; nia. }
  assert (Hsb : cond_Zopp (b <? 0) (Z.abs b * 2 ^ (- ez)) = b * 2 ^ (- ez)).
  { destruct (Z.ltb_spec b 0); cbn [cond_Zopp]; nia. }
  rewrite Hsa, Hsb, <- Z.mul_add_distr_r.
  replace ez with (- - ez) at 2 by lia.
  apply normalize_exact; [unfold ez; lia|exact Hab].
Qed.

End Format.

End FloatProperties.

(** ** Rounding between two integers *)

(** The products of [main] are rounded, first to the format and then by
    [llround]; neither rounding crosses an integer that the format holds, so a
    product between two such integers stays between them. *)
Module RoundingProperties.
Import Validated FloatProperties.

Local Abbreviation dig := Float.dig.







Section Format.
Variables prec emax : Z.
Hypothesis prec_pos : 0 < prec.
Hypothesis emax_wide : 2 * prec <= emax.





Let fmt := {| fprec := prec; femax := emax |}.





End Format.




End RoundingProperties.

(** ** Clock abstraction *)

Section ClockProperties.
Variable tb : mach_timebase_info_data_t.
Hypothesis tb_ok : timebase_ok tb.

Lemma product_fits_128 t : is_u64 t -> 0 <= t * numer tb < 2 ^ 128.
Proof.
  destruct tb_ok as [Hn _]. unfold is_u64. intros Ht. split; [nia|].
  assert (t * numer tb < 2 ^ 64 * 2 ^ 32) by nia.
  change (2 ^ 128) with (2 ^ 64 * 2 ^ 32 * 2 ^ 32). nia.
Qed.

Lemma host_to_ns_exact t :
  is_u64 t -> host_to_ns tb t = wrap64 (ticks_to_ns_exact tb t).
Proof.
  intros Ht. unfold host_to_ns, ticks_to_ns_exact, wrap128.
  rewrite Z.mod_small by (apply product_fits_128; exact Ht).
  reflexivity.
Qed.

Lemma ticks_to_ns_exact_nonneg t : 0 <= t -> 0 <= ticks_to_ns_exact tb t.
Proof.
  destruct tb_ok as [Hn Hd]. intros Ht. unfold ticks_to_ns_exact.
  apply Z.div_pos; nia.
Qed.

Lemma delta_newer a b :
  is_u64 a -> is_u64 b -> b <= a ->
  delta_ns_from_host tb a b = sint64 (wrap64 (ticks_to_ns_exact tb (a - b))).
Proof.
  intros Ha Hb Hle. unfold delta_ns_from_host.
  destruct (Z.leb_spec b a) as [_|Hlt]; [|lia].
  assert (Hd : is_u64 (a - b)) by (unfold is_u64 in *; lia).
  rewrite (wrap64_small _ Hd), host_to_ns_exact by exact Hd.
  reflexivity.
Qed.

Lemma delta_older a b :
  is_u64 a -> is_u64 b -> a < b ->
  delta_ns_from_host tb a b
  = sint64 (- sint64 (wrap64 (ticks_to_ns_exact tb (b - a)))).
Proof.
  intros Ha Hb Hlt. unfold delta_ns_from_host.
  destruct (Z.leb_spec b a) as [Hle|_]; [lia|].
  assert (Hd : is_u64 (b - a)) by (unfold is_u64 in *; lia).
  rewrite (wrap64_small _ Hd), host_to_ns_exact by exact Hd.
  reflexivity.
Qed.

(** C7. Whenever the exact [ticks * numer / denom] of the difference fits
    [int64_t], [delta_ns_from_host a b] is that value of [a - b] when
    [a >= b] and minus that value of [b - a] when [a < b]; beyond, it is the
    [uint64_t] result of [host_to_ns] read as [int64_t].  For every pair the
    unsigned subtraction is the larger minus the smaller and so stays in
    [uint64_t], and the product with the numerator stays below [2^128], so
    the widened multiplication loses nothing. *)
Theorem delta_ns_from_host_spec (a b : Z) :
  is_u64 a -> is_u64 b ->
  (b <= a ->
     is_u64 (a - b)
     /\ delta_ns_from_host tb a b = sint64 (host_to_ns tb (a - b))
     /\ (ticks_to_ns_exact tb (a - b) <= INT64_MAX ->
         delta_ns_from_host tb a b = ticks_to_ns_exact tb (a - b)))
  /\ (a < b ->
     is_u64 (b - a)
     /\ delta_ns_from_host tb a b = sint64 (- sint64 (host_to_ns tb (b - a)))
     /\ (ticks_to_ns_exact tb (b - a) <= INT64_MAX ->
         delta_ns_from_host tb a b = - ticks_to_ns_exact tb (b - a)))
  /\ (forall t, is_u64 t ->
        wrap128 (t * numer tb) = t * numer tb
        /\ host_to_ns tb t = wrap64 (t * numer tb / denom tb)).
Proof.
  intros Ha Hb. split; [|split].
  - intros Hle.
    assert (Hd : is_u64 (a - b)) by (unfold is_u64 in *; lia).
    split; [exact Hd|]. split.
    + rewrite delta_newer, host_to_ns_exact by assumption.
      reflexivity.
    + intros Hfit. rewrite delta_newer by assumption.
      apply sint64_of_u63. split; [|exact Hfit].
      apply ticks_to_ns_exact_nonneg. lia.
  - intros Hlt.
    assert (Hd : is_u64 (b - a)) by (unfold is_u64 in *; lia).
    split; [exact Hd|]. split.
    + rewrite delta_older, host_to_ns_exact by assumption.
      reflexivity.
    + intros Hfit. rewrite delta_older by assumption.
      assert (H0 : 0 <= ticks_to_ns_exact tb (b - a))
        by (apply ticks_to_ns_exact_nonneg; lia).
      rewrite sint64_of_u63 by lia.
      apply sint64_small. unfold is_i64, INT64_MIN, INT64_MAX in *. lia.
  - intros t Ht. split.
    + unfold wrap128. apply Z.mod_small, product_fits_128, Ht.
    + apply host_to_ns_exact, Ht.
Qed.

End ClockProperties.

Lemma delta_ns_from_host_spec_witness :
  delta_ns_from_host timebase_arm64 2400 4800 = - 100000
  /\ delta_ns_from_host timebase_arm64 4800 2400 = 100000.
Proof.
  assert (Htb : timebase_ok timebase_arm64)
    by (unfold timebase_ok, timebase_arm64; cbn; lia).
  assert (U1 : is_u64 2400) by (unfold is_u64; lia).
  assert (U2 : is_u64 4800) by (unfold is_u64; lia).
  pose proof (delta_ns_from_host_spec timebase_arm64 Htb 2400 4800 U1 U2)
    as (_ & H1 & _).
  pose proof (delta_ns_from_host_spec timebase_arm64 Htb 4800 2400 U2 U1)
    as (H2 & _).
  split.
  - destruct H1 as (_ & _ & H1); [lia|]. rewrite H1; [reflexivity|].
    vm_compute. discriminate.
  - destruct H2 as (_ & _ & H2); [lia|]. rewrite H2; [reflexivity|].
    vm_compute. discriminate.
Defined.

(** Beyond [int64_t] the sign is lost: for [a = 2^63] and [b = 0] on the 1/1
    timebase, [a >= b] and the difference is 2^63 ns, one more than
    [INT64_MAX]; the conversion to [int64_t] returns [-2^63]. *)
Lemma delta_sign_wraps_beyond_int64 :
  is_u64 (2 ^ 63) /\ is_u64 0 /\ 0 <= 2 ^ 63
  /\ ticks_to_ns_exact timebase_x86 (2 ^ 63 - 0) = 2 ^ 63
  /\ INT64_MAX < ticks_to_ns_exact timebase_x86 (2 ^ 63 - 0)
  /\ delta_ns_from_host timebase_x86 (2 ^ 63) 0 = - 2 ^ 63.
Proof.
  unfold is_u64, INT64_MAX. repeat split; try lia; vm_compute; reflexivity.
Qed.

(** ** The classifier *)

Module ClassifierProperties.
Import MidiStats.

Section Scan.
Variable ld : float_format.
Variable tb : mach_timebase_info_data_t.
Variables packet_timestamp arrival_timestamp : Z.
Variable data : list Z.

Let pass_of := scan_pass ld tb packet_timestamp arrival_timestamp data.
Let loop := scan_loop ld tb packet_timestamp arrival_timestamp data.

Lemma sysex_scan_bounds fuel i :
  (i <= List.length data -> i <= sysex_scan data fuel i <= List.length data)%nat.
Proof.
  revert i. induction fuel as [|fuel IH]; intros i Hi; simpl; [lia|].
  destruct (Nat.ltb_spec i (List.length data)) as [Hlt|Hge]; simpl; [|lia].
  destruct (negb (nth i data 0 =? 0xF7)); [|lia].
  specialize (IH (i + 1)%nat). lia.
Qed.

(** The inner loop, given the fuel [scan_pass] gives it, stops because its
    own test fails, not because the fuel ran out. *)
Lemma sysex_scan_exit fuel i :
  (List.length data - i <= fuel)%nat ->
  let r := sysex_scan data fuel i in
  (List.length data <= r)%nat \/ nth r data 0 = 0xF7.
Proof.
  revert i. induction fuel as [|fuel IH]; intros i Hf; simpl.
  - left. lia.
  - destruct (Nat.ltb_spec i (List.length data)) as [Hlt|Hge]; simpl.
    + destruct (Z.eqb_spec (nth i data 0) 0xF7) as [Heq|Hne]; simpl.
      * right. exact Heq.
      * apply IH. lia.
    + left. exact Hge.
Qed.

Lemma midi_channel_message_length_pos status :
  0 < midi_channel_message_length status.
Proof.
  unfold midi_channel_message_length.
  destruct (_ || _); lia.
Qed.

(** A pass that does not leave the loop moves the index forward and keeps
    it within the buffer. *)
Lemma scan_pass_advances i p i' p' :
  (i < List.length data)%nat ->
  pass_of i p = next_pass i' p' ->
  (i < i' <= List.length data)%nat.
Proof.
  intros Hi. unfold pass_of, scan_pass.
  destruct (Z.land (nth i data 0) 128 =? 0).
  { intros E; inversion E; subst. lia. }
  destruct (240 <=? nth i data 0).
  - destruct (nth i data 0 =? 240).
    + pose proof (sysex_scan_bounds (List.length data - (i + 1)) (i + 1)) as Hb.
      destruct (Nat.ltb_spec
                  (sysex_scan data (List.length data - (i + 1)) (i + 1))
                  (List.length data)) as [Hl|Hl];
        intros E; inversion E; subst; lia.
    + destruct (midi_system_message_length (nth i data 0) =? 0) eqn:Hz.
      { intros E; inversion E; subst. lia. }
      apply Z.eqb_neq in Hz.
      assert (Hpos : 0 < midi_system_message_length (nth i data 0)).
      { revert Hz. unfold midi_system_message_length.
        repeat match goal with
               | |- context [match ?x with _ => _ end] => destruct x
               end; lia. }
      destruct (Nat.ltb_spec (List.length data)
                  (i + Z.to_nat (midi_system_message_length (nth i data 0))))
        as [Hl|Hl]; intros E; inversion E; subst. lia.
  - pose proof (midi_channel_message_length_pos (nth i data 0)) as Hpos.
    destruct (Nat.ltb_spec (List.length data)
                (i + Z.to_nat (midi_channel_message_length (nth i data 0))))
      as [Hl|Hl]; intros E; inversion E; subst. lia.
Qed.

(** With fuel for the bytes that remain the loop returns, after at most that
    many passes. *)
Lemma scan_loop_terminates fuel : forall i p passes,
  (i <= List.length data)%nat ->
  (List.length data - i <= fuel)%nat ->
  exists p' passes',
    loop fuel i p passes = Some (p', passes')
    /\ (passes <= passes' <= passes + (List.length data - i))%nat.
Proof.
  induction fuel as [|fuel IH]; intros i p passes Hi Hf.
  - exists p, passes. unfold loop; simpl.
    destruct (Nat.ltb_spec i (List.length data)); [lia|].
    split; [reflexivity|lia].
  - unfold loop; simpl.
    destruct (Nat.ltb_spec i (List.length data)) as [Hlt|Hge].
    + destruct (scan_pass ld tb packet_timestamp arrival_timestamp data i p)
        as [i' p'|p'] eqn:Hp.
      * pose proof (scan_pass_advances i p i' p' Hlt Hp) as Hadv.
        destruct (IH i' p' (S passes)) as (q & n & Hq & Hn); [lia|lia|].
        exists q, n. split; [exact Hq|lia].
      * exists p', (S passes). split; [reflexivity|lia].
    + exists p, passes. split; [reflexivity|lia].
Qed.

(** More fuel does not change a result. *)
Lemma scan_loop_fuel_mono fuel : forall fuel' i p passes r,
  (fuel <= fuel')%nat ->
  loop fuel i p passes = Some r -> loop fuel' i p passes = Some r.
Proof.
  induction fuel as [|fuel IH]; intros fuel' i p passes r Hle; unfold loop.
  - simpl. destruct (Nat.ltb_spec i (List.length data)) as [Hlt|Hge];
      [discriminate|].
    intros H. destruct fuel'; simpl;
      destruct (Nat.ltb_spec i (List.length data)); try lia; exact H.
  - destruct fuel' as [|fuel']; [lia|]. simpl.
    destruct (i <? List.length data)%nat; [|trivial].
    destruct (scan_pass ld tb packet_timestamp arrival_timestamp data i p);
      [|trivial].
    apply IH. lia.
Qed.

End Scan.

(** C10. The scan loop of [process_packet_bytes] terminates on every
    buffer: a pass that stays in the loop moves the index forward by at
    least one byte and not beyond the buffer, any other pass leaves the loop,
    and so a buffer of [n] bytes is processed in at most [n] passes (fuel
    [n] is enough, and more fuel gives the same result). *)
Theorem process_packet_bytes_terminates
    (ld : float_format) (tb : mach_timebase_info_data_t)
    (packet_timestamp arrival_timestamp : Z) (data : list Z) (p : Process) :
  (forall i q, (i < List.length data)%nat ->
     match scan_pass ld tb packet_timestamp arrival_timestamp data i q with
     | next_pass i' _ => (i < i' <= List.length data)%nat
     | break_loop _ => True
     end)
  /\ exists p' passes,
       (passes <= List.length data)%nat
       /\ forall fuel, (List.length data <= fuel)%nat ->
            process_packet_bytes ld tb packet_timestamp arrival_timestamp
              data fuel p = Some (p', passes).
Proof.
  split.
  - intros i q Hi.
    destruct (scan_pass ld tb packet_timestamp arrival_timestamp data i q)
      as [i' q'|q'] eqn:Hp; [|exact I].
    exact (scan_pass_advances ld tb _ _ data i q i' q' Hi Hp).
  - destruct (scan_loop_terminates ld tb packet_timestamp arrival_timestamp
                data (List.length data) 0%nat p 0%nat) as (p' & n & Hr & Hn);
      [lia|lia|].
    exists p', n. split; [lia|].
    intros fuel Hfuel. unfold process_packet_bytes.
    exact (scan_loop_fuel_mono ld tb _ _ data _ fuel _ _ _ _ Hfuel Hr).
Qed.

End ClassifierProperties.

(** ** The qualifying-event handler *)

Module HandlerProperties.
Import MidiStats.

Section Handler.
Variable ld : float_format.
Variable tb : mach_timebase_info_data_t.

Lemma on_matching_event_state p packet_timestamp arrival_timestamp :
  state (on_matching_event ld tb p packet_timestamp arrival_timestamp)
  = handled ld tb (state p) packet_timestamp arrival_timestamp.
Proof.
  unfold on_matching_event, handled, print_report.
  destruct (packet_timestamp =? 0); cbn [negb state RuntimeState.cfg
    RuntimeState.events_seen RuntimeState.timestamped_events
    RuntimeState.untimestamped_events RuntimeState.effective_series
    RuntimeState.timestamped_series RuntimeState.arrival_vs_timestamp];
  repeat match goal with
         | |- context [if ?c then _ else _] => destruct c
         end; reflexivity.
Qed.

(** C5. A qualifying event without a hardware timestamp counts as
    untimestamped, leaves the timestamped count, the timestamp-only series
    and the lateness accumulator alone, and feeds the effective-time series
    with the arrival time.  With a hardware timestamp the effective-time
    series and the timestamp-only series are both fed with it, and the
    lateness [delta_ns_from_host arrival timestamp] is added to the lateness
    accumulator. *)
Theorem on_matching_event_timestamps
    (p : Process) (packet_timestamp arrival_timestamp : Z) :
  let st := state p in
  let st' :=
    state (on_matching_event ld tb p packet_timestamp arrival_timestamp) in
  (packet_timestamp = 0 ->
     RuntimeState.untimestamped_events st'
     = wrap64 (RuntimeState.untimestamped_events st + 1)
     /\ RuntimeState.timestamped_events st' = RuntimeState.timestamped_events st
     /\ RuntimeState.timestamped_series st' = RuntimeState.timestamped_series st
     /\ RuntimeState.arrival_vs_timestamp st'
        = RuntimeState.arrival_vs_timestamp st
     /\ RuntimeState.effective_series st'
        = series_add_event ld tb (RuntimeState.effective_series st)
            arrival_timestamp)
  /\ (packet_timestamp <> 0 ->
     RuntimeState.effective_series st'
     = series_add_event ld tb (RuntimeState.effective_series st)
         packet_timestamp
     /\ RuntimeState.timestamped_series st'
        = series_add_event ld tb (RuntimeState.timestamped_series st)
            packet_timestamp
     /\ RuntimeState.arrival_vs_timestamp st'
        = jitter_add ld (RuntimeState.arrival_vs_timestamp st)
            (delta_ns_from_host tb arrival_timestamp packet_timestamp)
     /\ RuntimeState.timestamped_events st'
        = wrap64 (RuntimeState.timestamped_events st + 1)
     /\ RuntimeState.untimestamped_events st'
        = RuntimeState.untimestamped_events st).
Proof.
  cbv zeta. rewrite on_matching_event_state. unfold handled. split.
  - intros ->. cbn. repeat split; reflexivity.
  - intros Hne. apply Z.eqb_neq in Hne. cbn. rewrite Hne.
    repeat split; reflexivity.
Qed.

End Handler.

Lemma on_matching_event_timestamps_witness :
  let p := initial_process
             {| Config.destination_spec := None; Config.channel := 1;
                Config.count := 0; Config.report_every := 100;
                Config.list_only := false |} in
  RuntimeState.untimestamped_events
    (state (on_matching_event binary64 timebase_arm64 p 0 5000)) = 1
  /\ RuntimeState.timestamped_events
       (state (on_matching_event binary64 timebase_arm64 p 4000 5000)) = 1.
Proof.
  intros p.
  pose proof (on_matching_event_timestamps binary64 timebase_arm64 p 0 5000)
    as [H0 _].
  pose proof (on_matching_event_timestamps binary64 timebase_arm64 p 4000 5000)
    as [_ H1].
  split.
  - destruct H0 as [H0 _]; [reflexivity|]. rewrite H0. reflexivity.
  - destruct H1 as (_ & _ & _ & H1 & _); [discriminate|]. rewrite H1.
    reflexivity.
Defined.

End HandlerProperties.

(** ** Counter consistency of the receiver *)

Module InvariantProperties.
Import MidiStats HandlerProperties.

Section Invariant.
Variable ld : float_format.
Variable tb : mach_timebase_info_data_t.

Lemma series_inv_weaken s k k' :
  k <= k' -> series_inv s k -> series_inv s k'.
Proof.
  unfold series_inv. intros Hk (H0 & H1 & H2 & H3).
  repeat split; try assumption.
  destruct (SeriesStats.have_previous s); [|exact H3].
  destruct H3; split; lia.
Qed.

Lemma series_add_event_inv s k t :
  0 <= k -> k + 1 < 2 ^ 64 -> series_inv s k ->
  series_inv (series_add_event ld tb s t) (k + 1).
Proof.
  unfold series_inv, series_add_event. intros Hk Hb (H0 & H1 & H2 & H3).
  destruct (SeriesStats.have_previous s); cbn.
  - destruct H3 as [H3 H4].
    rewrite <- H1, <- H2.
    rewrite !wrap64_small by (unfold is_u64; lia).
    repeat split; lia.
  - repeat split; try assumption; lia.
Qed.

Lemma handled_inv st k packet_timestamp arrival_timestamp :
  0 <= k -> k + 1 < 2 ^ 64 -> state_inv st k ->
  state_inv (handled ld tb st packet_timestamp arrival_timestamp) (k + 1).
Proof.
  unfold state_inv, handled. intros Hk Hb (He & Ht & Hu & Hs & Heff & Hts).
  cbn. rewrite He.
  rewrite (wrap64_small (k + 1)) by (unfold is_u64; lia).
  destruct (packet_timestamp =? 0);
    rewrite wrap64_small by (unfold is_u64; lia);
    (split; [reflexivity|]); (split; [lia|]); (split; [lia|]);
    (split; [lia|]); split;
    solve [ apply series_add_event_inv; assumption
          | apply (series_inv_weaken _ k); [lia|assumption] ].
Qed.

Lemma initial_state_inv cfg : state_inv (initial_state cfg) 0.
Proof.
  unfold state_inv, initial_state, series_inv; cbn.
  repeat split; lia.
Qed.

Lemma state_inv_consistent st k : state_inv st k -> counters_consistent st.
Proof.
  unfold state_inv, counters_consistent, series_inv, series_consistent.
  intros (He & _ & _ & Hs & (_ & A1 & A2 & A3) & (_ & B1 & B2 & B3)).
  repeat split; try assumption; try lia.
  - intros Hp. rewrite Hp in A3. apply A3.
  - intros Hp. rewrite Hp in B3. apply B3.
Qed.

Lemma feed_events_inv events : forall p k,
  0 <= k -> k + Z.of_nat (List.length events) < 2 ^ 64 ->
  state_inv (state p) k ->
  state_inv (state (feed_events ld tb p events))
            (k + Z.of_nat (List.length events)).
Proof.
  induction events as [|e events IH]; intros p k Hk Hb Hinv;
    cbn [feed_events fold_left].
  - cbn. rewrite Z.add_0_r. exact Hinv.
  - cbn [List.length] in *. rewrite Nat2Z.inj_succ in *.
    replace (k + Z.succ (Z.of_nat (List.length events)))
      with ((k + 1) + Z.of_nat (List.length events)) by lia.
    apply IH; [lia|lia|].
    rewrite on_matching_event_state.
    apply handled_inv; [lia|lia|exact Hinv].
Qed.

(** C9. In every run of the receiver, after every call of the handler,
    [events_seen = timestamped_events + untimestamped_events], each series
    has [intervals_seen] equal to the counts of its interval and jitter
    accumulators, and a series with a previous timestamp has
    [events_seen = intervals_seen + 1].  One call takes a state that has
    handled [k] events and satisfies the invariant (with what makes it
    inductive, [state_inv]) to one that has handled [k + 1] and satisfies it.
    (The counters are [uint64_t]: fewer than [2^64] events.) *)
Theorem handler_preserves_counter_consistency
    (cfg : Config.t) (events : list (Z * Z))
    (p : Process) (k packet_timestamp arrival_timestamp : Z) :
  (Z.of_nat (List.length events) < 2 ^ 64 ->
   counters_consistent
     (state (feed_events ld tb (initial_process cfg) events)))
  /\ (0 <= k -> k + 1 < 2 ^ 64 -> state_inv (state p) k ->
      let p' := on_matching_event ld tb p packet_timestamp arrival_timestamp in
      state_inv (state p') (k + 1) /\ counters_consistent (state p')).
Proof.
  split.
  - intros Hb.
    apply (state_inv_consistent _ (0 + Z.of_nat (List.length events))).
    apply feed_events_inv; [lia|lia|].
    apply initial_state_inv.
  - intros Hk Hb Hinv. cbv zeta.
    assert (H : state_inv
                  (state (on_matching_event ld tb p packet_timestamp
                            arrival_timestamp)) (k + 1)).
    { rewrite on_matching_event_state. apply handled_inv; assumption. }
    split; [exact H|]. exact (state_inv_consistent _ _ H).
Qed.

End Invariant.

Lemma handler_preserves_counter_consistency_witness :
  let cfg :=
    {| Config.destination_spec := None; Config.channel := 1;
       Config.count := 0; Config.report_every := 2;
       Config.list_only := false |} in
  counters_consistent
    (state (feed_events x87_extended timebase_arm64 (initial_process cfg)
              [(2400, 2500); (0, 4900); (7200, 7300)]))
  /\ counters_consistent
       (state (on_matching_event x87_extended timebase_arm64
                 (initial_process cfg) 2400 2500)).
Proof.
  intros cfg.
  pose proof (handler_preserves_counter_consistency x87_extended
                timebase_arm64 cfg [(2400, 2500); (0, 4900); (7200, 7300)]
                (initial_process cfg) 0 2400 2500) as [H1 H2].
  split.
  - apply H1. cbn. lia.
  - apply H2; [lia|lia|].
    unfold state_inv, series_inv; cbn. repeat split; lia.
Defined.

End InvariantProperties.

(** ** Classification of note-on messages *)

Module NoteOnProperties.
Import MidiStats HandlerProperties.

Lemma scan_loop_S ld tb packet_timestamp arrival_timestamp data fuel i p n :
  scan_loop ld tb packet_timestamp arrival_timestamp data (S fuel) i p n
  = if (i <? List.length data)%nat then
      match scan_pass ld tb packet_timestamp arrival_timestamp data i p with
      | next_pass i' p' =>
          scan_loop ld tb packet_timestamp arrival_timestamp data fuel i' p'
            (S n)
      | break_loop p' => Some (p', S n)
      end
    else Some (p, n).
Proof. reflexivity. Qed.

(** C3. The buffer [0x91 0x3C 0x64] (note-on, channel 2, velocity 100)
    makes the classifier call the handler exactly once when the channel
    filter is 2 and not at all when it is 1; the buffer [0x91 0x3C 0x00]
    (velocity 0) never reaches the handler, whatever the filter.  One call
    of the handler counts one event. *)
Theorem classifier_note_on_examples
    (ld : float_format) (tb : mach_timebase_info_data_t)
    (packet_timestamp arrival_timestamp : Z) (p : Process) :
  let filter := Config.channel (RuntimeState.cfg (state p)) in
  let classify data :=
    process_packet_bytes ld tb packet_timestamp arrival_timestamp data
      (List.length data) p in
  let handled_once :=
    on_matching_event ld tb p packet_timestamp arrival_timestamp in
  (filter = 2 -> classify [0x91; 0x3C; 0x64] = Some (handled_once, 1%nat))
  /\ (filter = 1 -> classify [0x91; 0x3C; 0x64] = Some (p, 1%nat))
  /\ classify [0x91; 0x3C; 0x00] = Some (p, 1%nat)
  /\ RuntimeState.events_seen (state handled_once)
     = wrap64 (RuntimeState.events_seen (state p) + 1).
Proof.
  cbv zeta. unfold process_packet_bytes.
  split; [|split; [|split]].
  - intros Hf. cbn [List.length]. rewrite scan_loop_S. unfold scan_pass.
    rewrite Hf. cbv -[on_matching_event]. reflexivity.
  - intros Hf. cbn [List.length]. rewrite scan_loop_S. unfold scan_pass.
    rewrite Hf. cbv -[on_matching_event]. reflexivity.
  - cbn [List.length]. rewrite scan_loop_S. unfold scan_pass.
    set (c := (_ =? Config.channel _)).
    destruct c; cbv -[on_matching_event]; reflexivity.
  - rewrite on_matching_event_state. reflexivity.
Qed.

Lemma classifier_note_on_examples_witness :
  let cfg ch :=
    {| Config.destination_spec := None; Config.channel := ch;
       Config.count := 0; Config.report_every := 100;
       Config.list_only := false |} in
  option_map
    (fun r => RuntimeState.events_seen (state (fst r)))
    (process_packet_bytes binary64 timebase_arm64 2400 2500
       [0x91; 0x3C; 0x64] 3 (initial_process (cfg 2))) = Some 1
  /\ option_map
       (fun r => RuntimeState.events_seen (state (fst r)))
       (process_packet_bytes binary64 timebase_arm64 2400 2500
          [0x91; 0x3C; 0x64] 3 (initial_process (cfg 1))) = Some 0.
Proof.
  intros cfg.
  pose proof (classifier_note_on_examples binary64 timebase_arm64 2400 2500
                (initial_process (cfg 2))) as (H2 & _ & _ & He).
  pose proof (classifier_note_on_examples binary64 timebase_arm64 2400 2500
                (initial_process (cfg 1))) as (_ & H1 & _).
  cbv zeta in H2, H1, He. cbn [List.length] in H2, H1.
  split.
  - rewrite H2 by reflexivity. cbn [option_map fst]. rewrite He. reflexivity.
  - rewrite H1 by reflexivity. reflexivity.
Defined.

End NoteOnProperties.

(** ** The reference interval of a series *)

Module SeriesProperties.
Import MidiStats.

Section Series.
Variable ld : float_format.
Variable tb : mach_timebase_info_data_t.

Let jitter_of (reference : Z) (interval_ns : Z) : Z :=
  sint64 (interval_ns - reference).

(** Once the reference is set, every later event adds its interval and its
    jitter against that reference, and the reference stays. *)
Lemma series_feed_with_reference rest : forall s,
  SeriesStats.have_previous s = true ->
  SeriesStats.have_reference_interval s = true ->
  let reference := SeriesStats.reference_interval_ns s in
  let intervals := intervals_of tb (SeriesStats.previous_timestamp s) rest in
  let s' := series_feed ld tb s rest in
  SeriesStats.have_reference_interval s' = true
  /\ SeriesStats.reference_interval_ns s' = reference
  /\ SeriesStats.interval s'
     = fold_left (interval_add ld) intervals (SeriesStats.interval s)
  /\ SeriesStats.jitter s'
     = fold_left (jitter_add ld) (map (jitter_of reference) intervals)
         (SeriesStats.jitter s).
Proof.
  induction rest as [|t rest IH]; intros s Hp Hr; cbv zeta.
  - cbn. auto.
  - unfold series_feed. cbn [fold_left intervals_of map].
    set (s1 := series_add_event ld tb s t).
    assert (H1 : s1 = series_add_event ld tb s t) by reflexivity.
    unfold series_add_event in H1. rewrite Hp, Hr in H1. cbn [negb] in H1.
    specialize (IH s1). rewrite H1 in IH at 1 2. cbn in IH.
    specialize (IH eq_refl eq_refl).
    rewrite H1 in IH. cbn in IH. unfold series_feed in IH.
    rewrite H1. exact IH.
Qed.

(** C2, as the code has it.  The first measured interval becomes the
    reference interval and stays it; a jitter sample is recorded for every
    interval, the first included (its jitter against itself is 0): interval
    samples [100ms, 100ms, 130ms] give the jitter samples
    [0ms, 0ms, 30ms]. *)
Theorem series_reference_is_first_interval (t0 t1 : Z) (rest : list Z) :
  let first := delta_ns_from_host tb t1 t0 in
  let intervals := intervals_of tb t0 (t1 :: rest) in
  let s := series_feed ld tb series_init (t0 :: t1 :: rest) in
  SeriesStats.have_reference_interval s = true
  /\ SeriesStats.reference_interval_ns s = first
  /\ SeriesStats.interval s
     = fold_left (interval_add ld) intervals interval_init
  /\ SeriesStats.jitter s
     = fold_left (jitter_add ld) (map (fun d => sint64 (d - first)) intervals)
         jitter_init
  /\ (intervals = [100000000; 100000000; 130000000] ->
      SeriesStats.jitter s
      = fold_left (jitter_add ld) [0; 0; 30000000] jitter_init).
Proof.
  cbv zeta.
  set (s2 := series_feed ld tb series_init [t0; t1]).
  assert (Hs : series_feed ld tb series_init (t0 :: t1 :: rest)
               = series_feed ld tb s2 rest) by reflexivity.
  rewrite Hs.
  pose proof (series_feed_with_reference rest s2 eq_refl eq_refl) as H.
  cbv zeta in H. destruct H as (Ha & Hb & Hc & Hd).
  assert (He : SeriesStats.jitter (series_feed ld tb s2 rest)
    = fold_left (jitter_add ld)
        (map (fun d => sint64 (d - delta_ns_from_host tb t1 t0))
             (intervals_of tb t0 (t1 :: rest))) jitter_init).
  { rewrite Hd. reflexivity. }
  split; [exact Ha|]. split; [exact Hb|]. split; [exact Hc|].
  split; [exact He|].
  intros Hi. rewrite He, Hi.
  cbn [intervals_of] in Hi. injection Hi as Hfirst _. rewrite Hfirst.
  reflexivity.
Qed.

End Series.

Lemma series_reference_is_first_interval_witness :
  SeriesStats.jitter
    (series_feed x87_extended timebase_x86 series_init
       [1000; 100001000; 200001000; 330001000])
  = fold_left (jitter_add x87_extended) [0; 0; 30000000] jitter_init.
Proof.
  pose proof (series_reference_is_first_interval x87_extended timebase_x86
                1000 100001000 [200001000; 330001000]) as H.
  cbv zeta in H. destruct H as (_ & _ & _ & _ & H).
  apply H. vm_compute. reflexivity.
Defined.

(** The claim as the specification words it fails: the three intervals
    [100ms, 100ms, 130ms] leave three jitter samples in the accumulator, not
    the two samples [0ms, 30ms]. *)
Lemma jitter_of_first_interval_is_recorded :
  intervals_of timebase_x86 1000 [100001000; 200001000; 330001000]
  = [100000000; 100000000; 130000000]
  /\ JitterStats.count
       (SeriesStats.jitter
          (series_feed x87_extended timebase_x86 series_init
             [1000; 100001000; 200001000; 330001000])) = 3
  /\ SeriesStats.jitter
       (series_feed x87_extended timebase_x86 series_init
          [1000; 100001000; 200001000; 330001000])
     <> fold_left (jitter_add x87_extended) [0; 30000000] jitter_init
  /\ SeriesStats.jitter
       (series_feed binary64 timebase_x86 series_init
          [1000; 100001000; 200001000; 330001000])
     <> fold_left (jitter_add binary64) [0; 30000000] jitter_init.
Proof.
  split; [vm_compute; reflexivity|].
  split; [vm_compute; reflexivity|].
  split; intros H; apply (f_equal JitterStats.count) in H;
    vm_compute in H; discriminate H.
Qed.

End SeriesProperties.

(** ** The dispatch loop *)

Module SchedulerProperties.
Import MidiPulse Validated RoundingProperties.

Lemma sends_of_app a b : sends_of (a ++ b) = sends_of a ++ sends_of b.
Proof. unfold sends_of. apply flat_map_app. Qed.

Section Loop.
Variable ld : float_format.
Variable tb : mach_timebase_info_data_t.
Variable env : Env.

Lemma stats_lines_no_send stats n : sends_of (stats_lines ld stats n) = [].
Proof. unfold stats_lines. destruct (_ =? 0); reflexivity. Qed.

(** Sleeping sends nothing. *)
Lemma sleep_until_host_sends fuel : forall target w,
  sends_of (trace (fst (sleep_until_host tb env fuel target w)))
  = sends_of (trace w).
Proof.
  induction fuel as [|fuel IH]; intros target w; cbn [sleep_until_host].
  - reflexivity.
  - unfold read_g_keep_running, now_host.
    destruct (g_keep_running env (flag_reads w)); cbn [negb fst];
      [|reflexivity].
    destruct (target <=? _); [reflexivity|].
    rewrite IH.
    repeat match goal with
           | |- context [if ?c then _ else _] => destruct c
           end;
      cbn [emit trace]; rewrite ?sends_of_app; cbn; rewrite ?app_nil_r;
      reflexivity.
Qed.

Section Dispatch.
Variable cfg : Config.t.
Variable sched : Schedule.
Variable start_host : Z.
Variable sleep_fuel : nat.

Let on_msg := note_on_msg sched start_host.
Let off_msg := note_off_msg sched start_host.

(** What the body of the loop sends: nothing when it leaves the loop before
    the note-on, the note-on alone when that send fails, and otherwise the
    note-on at the on-target followed by the note-off at the off-target. *)
Lemma loop_body_sends i l l' r :
  loop_body ld tb env cfg sched start_host sleep_fuel i l = (l', r) ->
  exists new,
    sends_of (trace (world l')) = sends_of (trace (world l)) ++ new
    /\ r <> Some count_reached
    /\ match r with
       | None => new = [on_msg i; off_msg i]
       | Some _ => new = [] \/ new = [on_msg i] \/ new = [on_msg i; off_msg i]
       end.
Proof.
  unfold loop_body.
  set (target := if _ <? _ then _ else _).
  pose proof (sleep_until_host_sends sleep_fuel target (world l)) as Hs.
  destruct (sleep_until_host tb env sleep_fuel target (world l)) as [w1 ret].
  cbn [fst] in Hs.
  destruct ret; cbn [negb].
  2:{ intros E; inversion E; subst. exists []. cbn [with_world world].
      rewrite Hs, app_nil_r. split; [reflexivity|].
      split; [discriminate|auto]. }
  unfold read_g_keep_running.
  destruct (g_keep_running env (flag_reads w1)); cbn [negb].
  2:{ intros E; inversion E; subst. exists []. cbn [with_world world trace].
      rewrite Hs, app_nil_r. split; [reflexivity|].
      split; [discriminate|auto]. }
  unfold now_host, send_short_at. cbn [sends trace clock_reads flag_reads].
  destruct (MIDISend_status env (sends w1) =? 0); cbn [negb].
  2:{ intros E; inversion E; subst. exists [on_msg i].
      cbn [with_world world trace emit]. rewrite !sends_of_app, Hs. cbn.
      rewrite app_nil_r.
      split; [reflexivity|]. split; [discriminate|auto]. }
  set (l1 := if Config.verbose cfg then _ else _).
  set (l2 := if (_ && _)%bool then _ else _).
  assert (H1 : sends_of (trace (world l1)) = sends_of (trace w1) ++ [on_msg i]).
  { unfold l1. destruct (Config.verbose cfg);
      cbn [with_world world trace emit]; rewrite !sends_of_app; cbn;
      rewrite ?app_nil_r; reflexivity. }
  assert (H2 : sends_of (trace (world l2)) = sends_of (trace w1) ++ [on_msg i]).
  { unfold l2. destruct (_ && _)%bool; [|exact H1].
    unfold stats_print. cbn [world trace].
    rewrite sends_of_app, stats_lines_no_send, app_nil_r. exact H1. }
  cbn [sends trace clock_reads flag_reads].
  destruct (MIDISend_status env (sends (world l2)) =? 0); cbn [negb];
    intros E; inversion E; subst; exists [on_msg i; off_msg i];
    cbn [with_world world trace emit]; rewrite !sends_of_app, H2, Hs; cbn;
    rewrite ?app_nil_r, <- app_assoc;
    (split; [reflexivity|]); (split; [discriminate|auto]).
Qed.

(** What one pass sends; a pass that ends the loop on its test sends
    nothing. *)
Lemma iteration_sends i l l' r :
  iteration ld tb env cfg sched start_host sleep_fuel i l = (l', r) ->
  exists new,
    sends_of (trace (world l')) = sends_of (trace (world l)) ++ new
    /\ match r with
       | None =>
           new = [on_msg i; off_msg i]
           /\ (Config.count cfg = 0 \/ i < Config.count cfg)
       | Some count_reached =>
           new = [] /\ Config.count cfg <> 0 /\ Config.count cfg <= i
       | Some _ =>
           new = [] \/ new = [on_msg i] \/ new = [on_msg i; off_msg i]
       end.
Proof.
  unfold iteration, read_g_keep_running.
  destruct (g_keep_running env (flag_reads (world l))); cbn [negb].
  2:{ intros E; inversion E; subst. exists []. cbn. rewrite app_nil_r. auto. }
  destruct (Z.eqb_spec (Config.count cfg) 0) as [Hc0|Hc0];
    destruct (Z.ltb_spec i (Config.count cfg)) as [Hlt|Hge]; cbn [orb negb].
  4:{ intros E; inversion E; subst. exists []. cbn. rewrite app_nil_r.
      split; [reflexivity|]. split; [reflexivity|]. split; assumption. }
  all: intros E; apply loop_body_sends in E;
    destruct E as (new & Hn & Hcr & Hr); exists new;
    cbn [with_world world trace] in Hn; (split; [exact Hn|]);
    destruct r as [[| | |]|]; try exact Hr;
    try (exfalso; apply Hcr; reflexivity);
    (split; [exact Hr|]); auto.
Qed.

(** What the loop sends from iteration [i] on: the pairs of [k] complete
    iterations and then at most the note-on of the next one.  When the loop
    ends on its count, nothing is missing and [i + k] is the count. *)
Lemma dispatch_loop_sends fuel : forall i l l' e,
  dispatch_loop ld tb env cfg sched start_host sleep_fuel fuel i l = (l', e) ->
  exists k tail,
    sends_of (trace (world l'))
    = sends_of (trace (world l)) ++ full_pairs sched start_host i k ++ tail
    /\ (tail = [] \/ tail = [on_msg (i + Z.of_nat k)])
    /\ (e = count_reached ->
        tail = [] /\ Config.count cfg <> 0
        /\ (i <= Config.count cfg -> i + Z.of_nat k = Config.count cfg)).
Proof.
  induction fuel as [|fuel IH]; intros i l l' e; cbn [dispatch_loop].
  - intros E; inversion E; subst. exists 0%nat, [].
    cbn. rewrite app_nil_r. split; [reflexivity|]. split; [auto|discriminate].
  - destruct (iteration ld tb env cfg sched start_host sleep_fuel i l)
      as [l1 r] eqn:Hit.
    apply iteration_sends in Hit. destruct Hit as (new & Hn & Hr).
    destruct r as [x|].
    + intros E; inversion E; subst.
      destruct e;
        try (destruct Hr as [->|[->| ->]];
             [ exists 0%nat, [] | exists 0%nat, [on_msg i] | exists 1%nat, [] ];
             cbn; rewrite Hn, ?Z.add_0_r;
             (split; [reflexivity|]); (split; [auto|discriminate])).
      destruct Hr as (-> & Hc & Hle). exists 0%nat, [].
      cbn. rewrite Hn. split; [reflexivity|]. split; [auto|].
      intros _. split; [reflexivity|]. split; [exact Hc|]. lia.
    + destruct Hr as [-> Hcount].
      intros E. apply IH in E. destruct E as (k & tail & Hs & Ht & He).
      exists (S k), tail. rewrite Hs, Hn.
      replace (i + Z.of_nat (S k)) with (i + 1 + Z.of_nat k) by lia.
      split; [|split; [exact Ht|]].
      * cbn [full_pairs]. rewrite <- !app_assoc. reflexivity.
      * intros Hcr. destruct (He Hcr) as (H1 & H2 & H3).
        split; [exact H1|]. split; [exact H2|].
        intros Hle. apply H3. lia.
Qed.

End Dispatch.

(** *** Reading the targets off the messages *)

Lemma status_nibble (base ch : Z) :
  0 <= ch < 16 ->
  base = 0x80 \/ base = 0x90 \/ base = 0xB0 ->
  Z.land (wrap8 (Z.lor base ch)) 0xF0 = base.
Proof.
  intros Hch Hb.
  assert (Hc : ch = 0 \/ ch = 1 \/ ch = 2 \/ ch = 3 \/ ch = 4 \/ ch = 5
               \/ ch = 6 \/ ch = 7 \/ ch = 8 \/ ch = 9 \/ ch = 10 \/ ch = 11
               \/ ch = 12 \/ ch = 13 \/ ch = 14 \/ ch = 15) by lia.
  destruct Hb as [->|[->| ->]];
    repeat (destruct Hc as [->|Hc]; [reflexivity|]); subst; reflexivity.
Qed.

Lemma on_target_of_eq sched start_host i :
  on_target_of sched start_host i
  = wrap64 (start_host + i * interval_host sched).
Proof.
  unfold on_target_of. rewrite wrap64_mul_l, wrap64_add_r. reflexivity.
Qed.

Section Targets.
Variable sched : Schedule.
Variable start_host : Z.
Hypothesis channel_ok : 0 <= channel_zero_based sched < 16.

Let on_ts (msgs : list Msg) := map msg_timestamp (filter is_note_on msgs).
Let off_ts (msgs : list Msg) := map msg_timestamp (filter is_note_off msgs).

Lemma note_on_msg_kind i :
  is_note_on (note_on_msg sched start_host i) = true
  /\ is_note_off (note_on_msg sched start_host i) = false.
Proof.
  unfold is_note_on, is_note_off, note_on_msg; cbn [msg_status].
  rewrite status_nibble by auto. split; reflexivity.
Qed.

Lemma note_off_msg_kind i :
  is_note_on (note_off_msg sched start_host i) = false
  /\ is_note_off (note_off_msg sched start_host i) = true.
Proof.
  unfold is_note_on, is_note_off, note_off_msg; cbn [msg_status].
  rewrite status_nibble by auto. split; reflexivity.
Qed.

Lemma full_pairs_targets k : forall i,
  on_ts (full_pairs sched start_host i k)
  = map (fun j => on_target_of sched start_host (i + Z.of_nat j)) (seq 0 k)
  /\ off_ts (full_pairs sched start_host i k)
     = map (fun j => off_target_of sched
                       (on_target_of sched start_host (i + Z.of_nat j)))
           (seq 0 k).
Proof.
  unfold on_ts, off_ts.
  induction k as [|k IH]; intros i; [split; reflexivity|].
  cbn [full_pairs filter].
  destruct (note_on_msg_kind i) as [-> ->].
  destruct (note_off_msg_kind i) as [-> ->].
  destruct (IH (i + 1)) as [IHon IHoff].
  cbn [map seq]. rewrite IHon, IHoff, <- !seq_shift, !map_map, Z.add_0_r.
  split; f_equal; apply map_ext; intros j;
    replace (i + 1 + Z.of_nat j) with (i + Z.of_nat (S j)) by lia;
    reflexivity.
Qed.

(** The targets carried by what the loop sent. *)
Lemma loop_targets i k tail :
  tail = [] \/ tail = [note_on_msg sched start_host (i + Z.of_nat k)] ->
  let msgs := full_pairs sched start_host i k ++ tail in
  on_ts msgs
  = map (fun j => on_target_of sched start_host (i + Z.of_nat j))
        (seq 0 (List.length (on_ts msgs)))
  /\ off_ts msgs
     = map (fun j => off_target_of sched
                       (on_target_of sched start_host (i + Z.of_nat j)))
           (seq 0 k)
  /\ (List.length (on_ts msgs) = k + List.length tail)%nat.
Proof.
  intros Ht. cbv zeta. unfold on_ts, off_ts.
  rewrite !filter_app, !map_app.
  destruct (full_pairs_targets k i) as [Hon Hoff].
  unfold on_ts, off_ts in Hon, Hoff. rewrite Hon, Hoff.
  destruct Ht as [-> | ->].
  - cbn [filter map]. rewrite !app_nil_r, length_map, length_seq.
    split; [reflexivity|]. split; [reflexivity|]. cbn; lia.
  - cbn [filter].
    destruct (note_on_msg_kind (i + Z.of_nat k)) as [-> ->].
    cbn [map]. rewrite app_nil_r, length_app, length_map, length_seq.
    cbn [List.length].
    replace (k + 1)%nat with (S k) by lia.
    rewrite seq_S, map_app. cbn [map Nat.add].
    split; [reflexivity|]. split; [reflexivity|lia].
Qed.

End Targets.

Lemma dispatch_sends cfg sched fuel sleep_fuel w :
  sends_of (trace w) = [] ->
  let start := start_host_of tb env w in
  let result := dispatch ld tb env cfg sched fuel sleep_fuel w in
  exists k tail,
    sends_of (trace (world (fst result))) = full_pairs sched start 0 k ++ tail
    /\ (tail = [] \/ tail = [note_on_msg sched start (Z.of_nat k)])
    /\ (snd result = count_reached ->
        tail = [] /\ (0 <= Config.count cfg -> Z.of_nat k = Config.count cfg)).
Proof.
  intros Hw. cbv zeta. unfold dispatch, start_host_of, now_host. cbn [fst].
  set (start := wrap64 (_ + _)).
  set (l0 := {| world := _; note_is_on := false |}).
  destruct (dispatch_loop ld tb env cfg sched start sleep_fuel fuel 0 l0)
    as [l e] eqn:Hd.
  apply dispatch_loop_sends in Hd. destruct Hd as (k & tail & Hs & Ht & He).
  exists k, tail. cbn [fst snd]. rewrite Hs. unfold l0; cbn [world trace].
  rewrite Hw. cbn [app]. split; [reflexivity|]. split; [exact Ht|].
  intros Hc. destruct (He Hc) as (H1 & _ & H3). split; [exact H1|].
  intros H0. apply H3 in H0. lia.
Qed.

(** The messages sent after the loop are a note-off and two controller
    messages: no note-on. *)
Lemma shutdown_note_ons sched l :
  0 <= channel_zero_based sched < 16 ->
  note_on_targets (trace (world (shutdown ld env sched l)))
  = note_on_targets (trace (world l)).
Proof.
  intros Hch. unfold shutdown, now_host, send_short_at, stats_print.
  unfold note_on_targets.
  destruct (note_is_on l);
    cbn [world with_world trace snd sends clock_reads flag_reads stats];
    rewrite !sends_of_app, stats_lines_no_send, !filter_app, !map_app;
    cbn [sends_of flat_map app filter];
    unfold is_note_on; cbn [msg_status];
    rewrite !status_nibble by auto; cbn; rewrite !app_nil_r; reflexivity.
Qed.

(** The double [500.0] times [1000000.0], rounded by [llround], is
    [500000000]; the long double does not enter. *)
Lemma schedule_interval_500ms cfg sched :
  Config.interval_ms cfg = double_of_Z 500 ->
  schedule ld tb cfg = Some sched ->
  interval_ns sched = 500000000
  /\ interval_host sched = ns_to_host tb 500000000.
Proof.
  intros Hi. unfold schedule. rewrite Hi.
  change (Float.llround
            (Float.mul binary64 (double_of_Z 500) (Float.of_Z binary64 1000000)))
    with (Some 500000000).
  cbv beta iota. change (wrap64 500000000) with 500000000.
  match goal with
  | |- context [Float.llround ?x] => destruct (Float.llround x)
  end; [|discriminate].
  intros E; inversion E; subst; cbn. split; reflexivity.
Qed.

(** C1. Whatever the clock, the signal flag and the transport do, the
    note-on messages of the dispatch loop carry, in order, the timestamps
    [start + i * interval] for [i = 0, 1, ...] in [uint64_t] arithmetic: a
    function of the anchor and the index alone; what is sent after the loop
    adds no note-on.  For an interval of 500 ms
    and a count of 4, a loop that runs to its count has sent exactly the four
    on-targets [start], [start + 500ms], [start + 1000ms],
    [start + 1500ms]. *)
Theorem on_targets_from_anchor
    (cfg : Config.t) (sched : Schedule) (fuel sleep_fuel : nat) (w : World) :
  0 <= channel_zero_based sched < 16 ->
  sends_of (trace w) = [] ->
  let start := start_host_of tb env w in
  let result := dispatch ld tb env cfg sched fuel sleep_fuel w in
  let on_targets := note_on_targets (trace (world (fst result))) in
  on_targets
  = map (fun i => wrap64 (start + Z.of_nat i * interval_host sched))
        (seq 0 (List.length on_targets))
  /\ note_on_targets (trace (world (shutdown ld env sched (fst result))))
     = on_targets
  /\ (Config.interval_ms cfg = double_of_Z 500 ->
      Config.count cfg = 4 ->
      schedule ld tb cfg = Some sched ->
      snd result = count_reached ->
      let ms500 := ns_to_host tb 500000000 in
      on_targets
      = [wrap64 start; wrap64 (start + ms500); wrap64 (start + 2 * ms500);
         wrap64 (start + 3 * ms500)]
      /\ (start + 3 * ms500 < 2 ^ 64 ->
          on_targets
          = [start; start + ms500; start + 2 * ms500; start + 3 * ms500])).
Proof.
  intros Hch Hw. cbv zeta.
  destruct (dispatch_sends cfg sched fuel sleep_fuel w Hw)
    as (k & tail & Hs & Ht & He).
  rewrite shutdown_note_ons by exact Hch.
  unfold note_on_targets. rewrite Hs.
  destruct (loop_targets sched (start_host_of tb env w) Hch 0 k tail Ht)
    as (Hon & _ & Hlen).
  cbv zeta in Hon, Hlen. split; [|split].
  - rewrite Hon at 1. apply map_ext. intros i.
    rewrite on_target_of_eq. reflexivity.
  - reflexivity.
  - intros Hi Hc Hsched Hexit.
    destruct (He Hexit) as [-> Hk]. rewrite Hc in Hk.
    assert (k = 4%nat) by lia. subst k.
    destruct (schedule_interval_500ms cfg sched Hi Hsched) as [_ Hih].
    cbn [List.length Nat.add] in Hlen.
    rewrite Hon, Hlen. cbn [seq map].
    rewrite !on_target_of_eq, Hih. cbn [Z.of_nat Pos.of_succ_nat Pos.succ].
    rewrite Z.mul_0_l, Z.add_0_r, Z.mul_1_l. split; [reflexivity|].
    intros Hfit.
    assert (H0 : 0 <= ns_to_host tb 500000000)
      by (unfold ns_to_host; apply wrap64_range).
    assert (Hst : 0 <= start_host_of tb env w)
      by (unfold start_host_of; apply wrap64_range).
    rewrite !wrap64_small by (unfold is_u64; lia). reflexivity.
Qed.









End Loop.
Lemma on_targets_from_anchor_witness :
  note_on_targets
    (trace (world (fst (dispatch x87_extended timebase_arm64 late_env
                          (example_config (double_of_Z 500) gate_quarter 4)
                          schedule_500ms 10 100 boot))))
  = [12001000; 24001000; 36001000; 48001000].
Proof.
  pose proof (on_targets_from_anchor x87_extended timebase_arm64 late_env
                (example_config (double_of_Z 500) gate_quarter 4)
                schedule_500ms 10 100 boot) as H.
  cbv zeta in H.
  destruct H as (_ & _ & H); [cbn; lia|reflexivity|].
  destruct H as [_ H];
    [reflexivity|reflexivity|vm_compute; reflexivity|vm_compute; reflexivity|].
  rewrite H; vm_compute; reflexivity.
Defined.



End SchedulerProperties.

(** ** The statistics accumulators *)

Module AccumulatorProperties.

Lemma sum_between lo hi samples :
  Forall (fun x => lo <= x <= hi) samples ->
  lo * Z.of_nat (List.length samples) <= sum_Z samples
  <= hi * Z.of_nat (List.length samples).
Proof.
  induction 1 as [|x samples Hx _ IH]; cbn [sum_Z fold_right List.length].
  - lia.
  - fold (sum_Z samples). rewrite Nat2Z.inj_succ. lia.
Qed.

Lemma sum_abs_nonneg samples : 0 <= sum_abs samples.
Proof.
  induction samples as [|x samples IH]; cbn [sum_abs fold_right]; [lia|].
  fold (sum_abs samples). lia.
Qed.

(** The three accumulators ([stats_add] of the transmitter, [interval_add]
    and [jitter_add] of the receiver) behind one interface. *)
Section Accumulator.
Variable ld : float_format.
Variable A : Type.
Variable init : A.
Variable add : A -> Z -> A.
Variables amin amax acount : A -> Z.
Variable asum : A -> spec_float.

Hypothesis init_count : acount init = 0.
Hypothesis init_sum : asum init = Float.zero.
Hypothesis add_min : forall s x,
  amin (add s x) = if x <? amin s then x else amin s.
Hypothesis add_max : forall s x,
  amax (add s x) = if amax s <? x then x else amax s.
Hypothesis add_count : forall s x, acount (add s x) = wrap64 (acount s + 1).
Hypothesis add_sum : forall s x,
  asum (add s x) = Float.add ld (asum s) (Float.of_Z ld x).

Lemma fold_count samples : forall s,
  0 <= acount s ->
  acount s + Z.of_nat (List.length samples) < 2 ^ 64 ->
  acount (fold_left add samples s)
  = acount s + Z.of_nat (List.length samples).
Proof.
  induction samples as [|x samples IH]; intros s H0 Hb;
    cbn [fold_left List.length] in *.
  - lia.
  - rewrite Nat2Z.inj_succ in *.
    assert (Hc : acount (add s x) = acount s + 1).
    { rewrite add_count. apply wrap64_small. unfold is_u64. lia. }
    rewrite IH; rewrite Hc; lia.
Qed.

Lemma fold_min_max samples : forall s,
  let s' := fold_left add samples s in
  amin s' <= amin s /\ amax s <= amax s'
  /\ Forall (fun x => amin s' <= x <= amax s') samples.
Proof.
  induction samples as [|x samples IH]; intros s; cbn [fold_left].
  - repeat split; try lia. constructor.
  - destruct (IH (add s x)) as (Hmin & Hmax & Hall).
    rewrite add_min in Hmin. rewrite add_max in Hmax.
    destruct (Z.ltb_spec x (amin s)); destruct (Z.ltb_spec (amax s) x);
      (split; [lia|]); (split; [lia|]); constructor; (exact Hall || lia).
Qed.

Lemma fold_sum samples : forall s z,
  0 < fprec ld < femax ld ->
  asum s = Float.of_Z ld z ->
  Z.abs z + sum_abs samples < 2 ^ fprec ld ->
  asum (fold_left add samples s) = Float.of_Z ld (z + sum_Z samples).
Proof.
  induction samples as [|x samples IH]; intros s z Hfmt Hs Hb;
    cbn [fold_left sum_Z sum_abs fold_right] in *.
  - rewrite Z.add_0_r. exact Hs.
  - fold (sum_Z samples) in *. fold (sum_abs samples) in *.
    pose proof (sum_abs_nonneg samples) as Hn.
    replace (z + (x + sum_Z samples)) with ((z + x) + sum_Z samples) by lia.
    apply IH; [exact Hfmt| |lia].
    rewrite add_sum, Hs. destruct ld as [prec emax]; cbn [fprec femax] in *.
    apply FloatProperties.add_exact; [exact Hfmt|lia|lia|lia].
Qed.

Lemma fold_summarises samples :
  Z.of_nat (List.length samples) < 2 ^ 64 ->
  summarises ld amin amax acount asum (fold_left add samples init) samples.
Proof.
  intros Hlen. unfold summarises. cbv zeta.
  destruct (fold_min_max samples init) as (_ & _ & Hall). cbv zeta in Hall.
  split; [|split; [|split]].
  - rewrite fold_count; rewrite init_count; lia.
  - exact Hall.
  - apply sum_between, Hall.
  - intros Hfmt Hb.
    rewrite (fold_sum samples init 0 Hfmt); [reflexivity|exact init_sum|].
    cbn. exact Hb.
Qed.

End Accumulator.

(** C4, as the code has it.  After any samples were added to a fresh
    accumulator (fewer than [2^64] of them, the width of [count]): [count] is
    the number of [add] calls, [min] and [max] bound every sample, and the
    exact mean of the samples lies within [min, max]; the accumulated
    long double sum is that exact sum as long as the magnitudes add up to
    less than [2^p], [p] the digits of the long double.  Beyond that the sum
    is rounded. *)
Theorem accumulators_summarise
    (ld : float_format) (samples : list Z) :
  Z.of_nat (List.length samples) < 2 ^ 64 ->
  summarises ld
    MidiPulse.JitterStats.min_late_ns MidiPulse.JitterStats.max_late_ns
    MidiPulse.JitterStats.count MidiPulse.JitterStats.sum_late_ns
    (fold_left (MidiPulse.stats_add ld) samples MidiPulse.stats_init) samples
  /\ summarises ld
       MidiStats.IntervalStats.min_ns MidiStats.IntervalStats.max_ns
       MidiStats.IntervalStats.count MidiStats.IntervalStats.sum_ns
       (fold_left (MidiStats.interval_add ld) samples MidiStats.interval_init)
       samples
  /\ summarises ld
       MidiStats.JitterStats.min_ns MidiStats.JitterStats.max_ns
       MidiStats.JitterStats.count MidiStats.JitterStats.sum_ns
       (fold_left (MidiStats.jitter_add ld) samples MidiStats.jitter_init)
       samples.
Proof.
  intros Hlen. split; [|split];
    apply fold_summarises; try exact Hlen; reflexivity.
Qed.

Lemma accumulators_summarise_witness :
  let s := fold_left (MidiStats.interval_add binary64)
             [100000000; 100000000; 130000000] MidiStats.interval_init in
  MidiStats.IntervalStats.count s = 3
  /\ MidiStats.IntervalStats.sum_ns s = Float.of_Z binary64 330000000.
Proof.
  pose proof (accumulators_summarise binary64
                [100000000; 100000000; 130000000]) as H.
  destruct H as (_ & (Hc & _ & _ & Hs) & _); [cbn; lia|].
  cbv zeta. split; [exact Hc|].
  apply Hs; [cbn; lia|vm_compute; reflexivity].
Defined.

(** The mean the reports compute leaves [min, max] once the sum is rounded:
    three samples of [INT64_MAX] on the x87 long double, six samples of
    3000000000000001 ns on the binary64 long double, give a mean below the
    minimum. *)
Lemma reported_mean_below_min :
  (let s := fold_left (MidiPulse.stats_add x87_extended)
              [INT64_MAX; INT64_MAX; INT64_MAX] MidiPulse.stats_init in
   MidiPulse.JitterStats.count s = 3
   /\ Float.compare_Z
        (reported_mean x87_extended (MidiPulse.JitterStats.sum_late_ns s)
           (MidiPulse.JitterStats.count s))
        (MidiPulse.JitterStats.min_late_ns s) = Some Lt)
  /\ (let s := fold_left (MidiStats.interval_add binary64)
                 (repeat 3000000000000001 6) MidiStats.interval_init in
      MidiStats.IntervalStats.count s = 6
      /\ Float.compare_Z
           (reported_mean binary64 (MidiStats.IntervalStats.sum_ns s)
              (MidiStats.IntervalStats.count s))
           (MidiStats.IntervalStats.min_ns s) = Some Lt).
Proof.
  split; cbv zeta; split; vm_compute; reflexivity.
Qed.

End AccumulatorProperties.

(** ** The reports *)

Module ReportProperties.

(** C8. The report functions read the accumulated state and write: calling
    one twice in a row, with nothing added in between, writes the same lines
    twice and leaves the state (and the stop flag) as it was.  This holds
    for [print_report] of the receiver and [stats_print] of the
    transmitter. *)
Theorem reports_are_read_only
    (ld : float_format) (p : MidiStats.Process) (final_report : bool)
    (l : MidiPulse.Loop) (note_count : Z) :
  let p1 := MidiStats.print_report ld p final_report in
  let p2 := MidiStats.print_report ld p1 final_report in
  let l1 := MidiPulse.stats_print ld l note_count in
  let l2 := MidiPulse.stats_print ld l1 note_count in
  (MidiStats.state p1 = MidiStats.state p
   /\ MidiStats.state p2 = MidiStats.state p
   /\ MidiStats.g_keep_running p2 = MidiStats.g_keep_running p
   /\ exists lines,
        MidiStats.stdout p1 = MidiStats.stdout p ++ lines
        /\ MidiStats.stdout p2 = MidiStats.stdout p1 ++ lines)
  /\ (MidiPulse.stats l1 = MidiPulse.stats l
      /\ MidiPulse.stats l2 = MidiPulse.stats l
      /\ MidiPulse.sent_notes l2 = MidiPulse.sent_notes l
      /\ MidiPulse.note_is_on l2 = MidiPulse.note_is_on l
      /\ exists lines,
           MidiPulse.trace (MidiPulse.world l1)
           = MidiPulse.trace (MidiPulse.world l) ++ lines
           /\ MidiPulse.trace (MidiPulse.world l2)
              = MidiPulse.trace (MidiPulse.world l1) ++ lines).
Proof.
  cbv zeta. split.
  - repeat (split; [reflexivity|]).
    exists (MidiStats.report_lines ld (MidiStats.state p) final_report).
    split; reflexivity.
  - repeat (split; [reflexivity|]).
    exists (MidiPulse.stats_lines ld (MidiPulse.stats l) note_count).
    split; reflexivity.
Qed.

End ReportProperties.

(** * Further properties of the code *)

(** ** Clock: sign, symmetry and round trips *)

Module ClockMore.

Section Clock.
Variable tb : mach_timebase_info_data_t.
Hypothesis tb_ok : timebase_ok tb.

Lemma ticks_to_ns_exact_0 : ticks_to_ns_exact tb 0 = 0.
Proof. unfold ticks_to_ns_exact. rewrite Z.mul_0_l. apply Z.div_0_l.
  destruct tb_ok as [_ Hd]. lia. Qed.

(** X1. The signed delta has the sign of the difference of its arguments,
    is zero on equal arguments and changes sign when they are exchanged, as
    long as the converted magnitude fits [int64_t]. *)
Theorem delta_ns_from_host_odd (a b : Z) :
  is_u64 a -> is_u64 b ->
  ticks_to_ns_exact tb (Z.abs (a - b)) <= INT64_MAX ->
  delta_ns_from_host tb a a = 0
  /\ delta_ns_from_host tb b a = - delta_ns_from_host tb a b
  /\ (b <= a -> 0 <= delta_ns_from_host tb a b)
  /\ (a < b -> delta_ns_from_host tb a b <= 0)
  /\ Z.abs (delta_ns_from_host tb a b) = ticks_to_ns_exact tb (Z.abs (a - b)).
Proof.
  intros Ha Hb Hfit.
  assert (Haa : delta_ns_from_host tb a a = 0).
  { rewrite delta_newer by (assumption || lia).
    rewrite Z.sub_diag, ticks_to_ns_exact_0. reflexivity. }
  split; [exact Haa|].
  destruct (Z.lt_trichotomy a b) as [Hlt|[Heq|Hgt]].
  - replace (Z.abs (a - b)) with (b - a) in * by lia.
    pose proof (ticks_to_ns_exact_nonneg tb tb_ok (b - a) ltac:(lia)) as H0.
    rewrite (delta_newer tb tb_ok b a), (delta_older tb tb_ok a b)
      by (assumption || lia).
    rewrite sint64_of_u63 by lia.
    rewrite sint64_small
      by (unfold is_i64, INT64_MIN, INT64_MAX in *; lia).
    repeat split; lia.
  - subst b. rewrite Haa, Z.sub_diag. cbn [Z.abs].
    rewrite ticks_to_ns_exact_0. repeat split; lia.
  - replace (Z.abs (a - b)) with (a - b) in * by lia.
    pose proof (ticks_to_ns_exact_nonneg tb tb_ok (a - b) ltac:(lia)) as H0.
    rewrite (delta_newer tb tb_ok a b), (delta_older tb tb_ok b a)
      by (assumption || lia).
    rewrite sint64_of_u63 by lia.
    rewrite sint64_small
      by (unfold is_i64, INT64_MIN, INT64_MAX in *; lia).
    repeat split; lia.
Qed.

(** X2. Converting nanoseconds to ticks and back never gives more than the
    nanoseconds it started from, and loses less than one tick plus one
    nanosecond: [(ns - back) * denom <= numer + denom - 2].  (No truncation
    to 64 bits: the tick count fits.) *)
Theorem ns_host_round_trip (ns : Z) :
  0 < numer tb ->
  is_u64 ns -> ns * denom tb / numer tb < 2 ^ 64 ->
  let back := host_to_ns tb (ns_to_host tb ns) in
  back <= ns /\ (ns - back) * denom tb <= numer tb + denom tb - 2.
Proof.
  intros Hn Hns Hfit. destruct tb_ok as [[_ Hn32] [Hd Hd32]]. cbv zeta.
  assert (Hprod : 0 <= ns * denom tb < 2 ^ 128).
  { unfold is_u64 in Hns. split; [nia|].
    assert (ns * denom tb < 2 ^ 64 * 2 ^ 32) by nia.
    change (2 ^ 128) with (2 ^ 64 * 2 ^ 32 * 2 ^ 32). nia. }
  set (t := ns * denom tb / numer tb) in *.
  assert (Ht0 : 0 <= t) by (unfold t; apply Z.div_pos; lia).
  assert (Hto : ns_to_host tb ns = t).
  { unfold ns_to_host, wrap128. rewrite Z.mod_small by exact Hprod.
    fold t. apply wrap64_small. unfold is_u64. lia. }
  rewrite Hto, host_to_ns_exact by (assumption || (unfold is_u64; lia)).
  unfold ticks_to_ns_exact.
  pose proof (Z.div_mod (ns * denom tb) (numer tb) ltac:(lia)) as E1.
  pose proof (Z.mod_pos_bound (ns * denom tb) (numer tb) Hn) as B1.
  fold t in E1.
  pose proof (Z.div_mod (t * numer tb) (denom tb) ltac:(lia)) as E2.
  pose proof (Z.mod_pos_bound (t * numer tb) (denom tb) Hd) as B2.
  set (r := t * numer tb / denom tb) in *.
  assert (Hr : 0 <= r <= ns).
  { split; [unfold r; apply Z.div_pos; nia|].
    unfold r. apply Z.div_le_upper_bound; [lia|]. nia. }
  rewrite wrap64_small by (unfold is_u64 in *; lia).
  split; [lia|]. nia.
Qed.

End Clock.

Lemma delta_ns_from_host_odd_witness :
  delta_ns_from_host timebase_arm64 2400 4800
  = - delta_ns_from_host timebase_arm64 4800 2400.
Proof.
  assert (Htb : timebase_ok timebase_arm64)
    by (unfold timebase_ok, timebase_arm64; cbn; lia).
  assert (U1 : is_u64 2400) by (unfold is_u64; lia).
  assert (U2 : is_u64 4800) by (unfold is_u64; lia).
  pose proof (delta_ns_from_host_odd timebase_arm64 Htb 4800 2400 U2 U1)
    as (_ & H & _); [vm_compute; discriminate|].
  exact H.
Defined.

Lemma ns_host_round_trip_witness :
  host_to_ns timebase_arm64 (ns_to_host timebase_arm64 1000000007)
  <= 1000000007.
Proof.
  assert (Htb : timebase_ok timebase_arm64)
    by (unfold timebase_ok, timebase_arm64; cbn; lia).
  pose proof (ns_host_round_trip timebase_arm64 Htb 1000000007) as H.
  cbv zeta in H. destruct H as [H _].
  - cbn; lia.
  - unfold is_u64; lia.
  - vm_compute. reflexivity.
  - exact H.
Defined.

End ClockMore.

(** ** The series tracker over a run *)

Module TrackerProperties.
Import MidiStats Receiver HandlerProperties.

Section Tracker.
Variable ld : float_format.
Variable tb : mach_timebase_info_data_t.

(** *** One series *)

Lemma series_feed_app s xs ys :
  series_feed ld tb s (xs ++ ys) = series_feed ld tb (series_feed ld tb s xs) ys.
Proof. unfold series_feed. apply fold_left_app. Qed.

Lemma last_cons_default (x : Z) l : forall d d', last (x :: l) d = last (x :: l) d'.
Proof.
  revert x. induction l as [|y l IH]; intros x d d'; [reflexivity|].
  change (last (y :: l) d = last (y :: l) d'). apply IH.
Qed.

(** A series that has a previous timestamp, fed more timestamps. *)
Lemma series_feed_counts_from rest : forall s,
  SeriesStats.have_previous s = true ->
  0 <= SeriesStats.events_seen s -> 0 <= SeriesStats.intervals_seen s ->
  0 <= IntervalStats.count (SeriesStats.interval s) ->
  0 <= JitterStats.count (SeriesStats.jitter s) ->
  let n := Z.of_nat (List.length rest) in
  SeriesStats.events_seen s + n < 2 ^ 64 ->
  SeriesStats.intervals_seen s + n < 2 ^ 64 ->
  IntervalStats.count (SeriesStats.interval s) + n < 2 ^ 64 ->
  JitterStats.count (SeriesStats.jitter s) + n < 2 ^ 64 ->
  let s' := series_feed ld tb s rest in
  SeriesStats.have_previous s' = true
  /\ SeriesStats.events_seen s' = SeriesStats.events_seen s + n
  /\ SeriesStats.intervals_seen s' = SeriesStats.intervals_seen s + n
  /\ IntervalStats.count (SeriesStats.interval s')
     = IntervalStats.count (SeriesStats.interval s) + n
  /\ JitterStats.count (SeriesStats.jitter s')
     = JitterStats.count (SeriesStats.jitter s) + n
  /\ SeriesStats.previous_timestamp s'
     = last rest (SeriesStats.previous_timestamp s).
Proof.
  induction rest as [|t rest IH]; intros s Hp He Hi Hic Hjc; cbv zeta;
    intros B1 B2 B3 B4.
  - cbn. rewrite !Z.add_0_r. repeat split; auto.
  - cbn [List.length] in *. rewrite Nat2Z.inj_succ in *.
    unfold series_feed. cbn [fold_left].
    set (s1 := series_add_event ld tb s t).
    assert (E : s1 = series_add_event ld tb s t) by reflexivity.
    unfold series_add_event in E. rewrite Hp in E. cbn [negb] in E.
    assert (P1 : SeriesStats.have_previous s1 = true) by (rewrite E; reflexivity).
    assert (P2 : SeriesStats.events_seen s1 = SeriesStats.events_seen s + 1).
    { rewrite E; cbn. apply wrap64_small. unfold is_u64. lia. }
    assert (P3 : SeriesStats.intervals_seen s1
                 = SeriesStats.intervals_seen s + 1).
    { rewrite E; cbn. apply wrap64_small. unfold is_u64. lia. }
    assert (P4 : IntervalStats.count (SeriesStats.interval s1)
                 = IntervalStats.count (SeriesStats.interval s) + 1).
    { rewrite E; cbn. apply wrap64_small. unfold is_u64. lia. }
    assert (P5 : JitterStats.count (SeriesStats.jitter s1)
                 = JitterStats.count (SeriesStats.jitter s) + 1).
    { rewrite E; cbn. apply wrap64_small. unfold is_u64. lia. }
    assert (P6 : SeriesStats.previous_timestamp s1 = t)
      by (rewrite E; reflexivity).
    specialize (IH s1 P1 ltac:(lia) ltac:(lia) ltac:(lia) ltac:(lia)).
    cbv zeta in IH. unfold series_feed in IH.
    destruct IH as (I1 & I2 & I3 & I4 & I5 & I6); try lia.
    rewrite I2, I3, I4, I5, I6, P2, P3, P4, P5, P6.
    repeat split; try lia; try assumption.
    destruct rest as [|z rest]; [reflexivity|].
    change (last (z :: rest) t = last (z :: rest) (SeriesStats.previous_timestamp s)).
    apply last_cons_default.
Qed.

(** A fresh series after its first event and those that follow. *)
Lemma series_feed_fresh (t0 : Z) (rest : list Z) :
  let timestamps := t0 :: rest in
  let n := Z.of_nat (List.length timestamps) in
  n < 2 ^ 64 ->
  let s := series_feed ld tb series_init timestamps in
  SeriesStats.have_previous s = true
  /\ SeriesStats.events_seen s = n
  /\ SeriesStats.intervals_seen s = n - 1
  /\ IntervalStats.count (SeriesStats.interval s) = n - 1
  /\ JitterStats.count (SeriesStats.jitter s) = n - 1
  /\ SeriesStats.previous_timestamp s = last timestamps 0.
Proof.
  cbv zeta. cbn [List.length]. rewrite Nat2Z.inj_succ. intros Hn.
  change (series_feed ld tb series_init (t0 :: rest))
    with (series_feed ld tb (series_add_event ld tb series_init t0) rest).
  set (s1 := series_add_event ld tb series_init t0).
  assert (E1 : SeriesStats.events_seen s1 = 1) by reflexivity.
  assert (E2 : SeriesStats.intervals_seen s1 = 0) by reflexivity.
  assert (E3 : IntervalStats.count (SeriesStats.interval s1) = 0)
    by reflexivity.
  assert (E4 : JitterStats.count (SeriesStats.jitter s1) = 0) by reflexivity.
  assert (E5 : SeriesStats.previous_timestamp s1 = t0) by reflexivity.
  pose proof (series_feed_counts_from rest s1 eq_refl) as H.
  cbv zeta in H. rewrite E1, E2, E3, E4, E5 in H.
  destruct H as (H1 & H2 & H3 & H4 & H5 & H6); try lia.
  rewrite H2, H3, H4, H5, H6.
  repeat split; try lia; try assumption.
  destruct rest as [|z rest]; [reflexivity|].
  change (last (z :: rest) t0 = last (z :: rest) 0).
  apply last_cons_default.
Qed.

(** X3. A fresh series that was fed [n >= 1] timestamps has seen [n] events
    and [n - 1] intervals, holds [n - 1] samples in each of its two
    accumulators, and remembers the last timestamp as the previous one.
    (Fewer than [2^64] events, the width of the counters.) *)
Theorem series_feed_counts (t0 : Z) (rest : list Z) :
  let timestamps := t0 :: rest in
  let n := Z.of_nat (List.length timestamps) in
  n < 2 ^ 64 ->
  let s := series_feed ld tb series_init timestamps in
  SeriesStats.have_previous s = true
  /\ SeriesStats.events_seen s = n
  /\ SeriesStats.intervals_seen s = n - 1
  /\ IntervalStats.count (SeriesStats.interval s) = n - 1
  /\ JitterStats.count (SeriesStats.jitter s) = n - 1
  /\ SeriesStats.previous_timestamp s = last timestamps 0.
Proof. exact (series_feed_fresh t0 rest). Qed.

(** X4. The report of a series says [insufficient data] exactly when the
    series was fed fewer than two events. *)
Theorem series_report_needs_two_events (label : string) (timestamps : list Z) :
  Z.of_nat (List.length timestamps) < 2 ^ 64 ->
  (print_series_report ld label (series_feed ld tb series_init timestamps)
   = [series_insufficient label]
   <-> (List.length timestamps < 2)%nat).
Proof.
  intros Hn. destruct timestamps as [|t0 rest].
  - cbn. split; [lia|reflexivity].
  - pose proof (series_feed_fresh t0 rest) as H. cbv zeta in H.
    destruct (H Hn) as (_ & _ & _ & Hic & Hjc & _).
    unfold print_series_report. rewrite Hic, Hjc.
    cbn [List.length] in *. rewrite Nat2Z.inj_succ in *.
    destruct rest as [|t1 rest]; cbn [List.length] in *.
    + cbn. split; [lia|reflexivity].
    + rewrite Nat2Z.inj_succ in *.
      destruct (Z.eqb_spec (Z.succ (Z.succ (Z.of_nat (List.length rest))) - 1) 0)
        as [E|E]; [lia|].
      cbn [orb]. split; [discriminate|lia].
Qed.

End Tracker.

Lemma series_feed_counts_witness :
  let s := series_feed binary64 timebase_arm64 series_init [2400; 4800; 7200] in
  SeriesStats.events_seen s = 3 /\ SeriesStats.intervals_seen s = 2
  /\ SeriesStats.previous_timestamp s = 7200.
Proof.
  pose proof (series_feed_counts binary64 timebase_arm64 2400 [4800; 7200]) as H.
  cbv zeta in H. destruct H as (_ & H1 & H2 & _ & _ & H3); [cbn; lia|].
  cbv zeta. rewrite H1, H2, H3. repeat split; reflexivity.
Defined.

Lemma series_report_needs_two_events_witness :
  print_series_report binary64 "timestamp_only"
    (series_feed binary64 timebase_arm64 series_init [2400])
  = [series_insufficient "timestamp_only"].
Proof.
  apply (series_report_needs_two_events binary64 timebase_arm64
           "timestamp_only" [2400]); cbn; lia.
Defined.

End TrackerProperties.

(** ** The receiver's state over a run of events *)

Module RunProperties.
Import MidiStats Receiver HandlerProperties.

Section Run.
Variable ld : float_format.
Variable tb : mach_timebase_info_data_t.

Let lateness_of (e : Z * Z) : Z := delta_ns_from_host tb (snd e) (fst e).

Lemma feed_events_cons p e events :
  feed_events ld tb p (e :: events)
  = feed_events ld tb (on_matching_event ld tb p (fst e) (snd e)) events.
Proof. reflexivity. Qed.

(** The handler clears the stop flag when the count is reached and never
    raises it. *)
Lemma on_matching_event_flag p packet_timestamp arrival_timestamp :
  g_keep_running (on_matching_event ld tb p packet_timestamp arrival_timestamp)
  = if (0 <? Config.count (RuntimeState.cfg (state p)))
       && (Config.count (RuntimeState.cfg (state p))
           <=? sint64 (wrap64 (RuntimeState.events_seen (state p) + 1)))
    then false else g_keep_running p.
Proof.
  unfold on_matching_event, print_report.
  destruct (packet_timestamp =? 0); cbn [negb state RuntimeState.cfg
    RuntimeState.events_seen g_keep_running];
  repeat match goal with
         | |- context [if ?c then _ else _] => destruct c
         end; reflexivity.
Qed.

(** The handler appends a report when the number of events is a multiple of
    [report_every], and nothing otherwise. *)
Lemma on_matching_event_stdout p packet_timestamp arrival_timestamp :
  let st' := handled ld tb (state p) packet_timestamp arrival_timestamp in
  stdout (on_matching_event ld tb p packet_timestamp arrival_timestamp)
  = stdout p
    ++ (if (0 <? Config.report_every (RuntimeState.cfg (state p)))
           && (RuntimeState.events_seen st'
               mod wrap64 (Config.report_every (RuntimeState.cfg (state p)))
               =? 0)
        then report_lines ld st' false else []).
Proof.
  cbv zeta. unfold on_matching_event, handled, print_report.
  destruct (packet_timestamp =? 0); cbn [negb state RuntimeState.cfg
    RuntimeState.events_seen stdout];
  repeat match goal with
         | |- context [if ?c then _ else _] => destruct c
         end; cbn [stdout]; rewrite ?app_nil_r; reflexivity.
Qed.

Lemma feed_events_cfg events : forall p,
  RuntimeState.cfg (state (feed_events ld tb p events))
  = RuntimeState.cfg (state p).
Proof.
  induction events as [|e events IH]; intros p; [reflexivity|].
  rewrite feed_events_cons, IH, on_matching_event_state. reflexivity.
Qed.

Lemma feed_events_series events : forall p,
  let st := state p in
  let st' := state (feed_events ld tb p events) in
  let stamped := filter has_packet_timestamp events in
  RuntimeState.effective_series st'
  = series_feed ld tb (RuntimeState.effective_series st)
      (map effective_timestamp events)
  /\ RuntimeState.timestamped_series st'
     = series_feed ld tb (RuntimeState.timestamped_series st)
         (map fst stamped)
  /\ RuntimeState.arrival_vs_timestamp st'
     = fold_left (jitter_add ld) (map lateness_of stamped)
         (RuntimeState.arrival_vs_timestamp st).
Proof.
  induction events as [|e events IH]; intros p; cbv zeta.
  - repeat split; reflexivity.
  - rewrite feed_events_cons.
    destruct (IH (on_matching_event ld tb p (fst e) (snd e)))
      as (I1 & I2 & I3).
    rewrite I1, I2, I3, on_matching_event_state.
    unfold handled, has_packet_timestamp, effective_timestamp, lateness_of.
    cbn [filter map RuntimeState.effective_series
         RuntimeState.timestamped_series RuntimeState.arrival_vs_timestamp].
    destruct (fst e =? 0); cbn [negb map]; repeat split; reflexivity.
Qed.

(** X5. After a run from the initial state, the two series and the lateness
    accumulator are those of the events' timestamps: the effective-time
    series was fed every event's packet timestamp, or its arrival timestamp
    where the packet timestamp is zero; the timestamp-only series was fed the
    nonzero packet timestamps; the lateness accumulator holds
    [delta_ns_from_host arrival timestamp] of the events with a nonzero
    packet timestamp.  The configuration is untouched. *)
Theorem tracker_series_of_run (cfg : Config.t) (events : list (Z * Z)) :
  let st := state (feed_events ld tb (initial_process cfg) events) in
  let stamped := filter has_packet_timestamp events in
  RuntimeState.cfg st = cfg
  /\ RuntimeState.effective_series st
     = series_feed ld tb series_init (map effective_timestamp events)
  /\ RuntimeState.timestamped_series st
     = series_feed ld tb series_init (map fst stamped)
  /\ RuntimeState.arrival_vs_timestamp st
     = fold_left (jitter_add ld)
         (map (fun e => delta_ns_from_host tb (snd e) (fst e)) stamped)
         jitter_init.
Proof.
  cbv zeta. split; [apply feed_events_cfg|].
  exact (feed_events_series events (initial_process cfg)).
Qed.

Lemma fold_jitter_add_count samples : forall j,
  0 <= JitterStats.count j ->
  JitterStats.count j + Z.of_nat (List.length samples) < 2 ^ 64 ->
  JitterStats.count (fold_left (jitter_add ld) samples j)
  = JitterStats.count j + Z.of_nat (List.length samples).
Proof.
  induction samples as [|x samples IH]; intros j H0 Hb;
    cbn [fold_left List.length] in *; [lia|].
  rewrite Nat2Z.inj_succ in *.
  assert (E : JitterStats.count (jitter_add ld j x) = JitterStats.count j + 1).
  { cbn. apply wrap64_small. unfold is_u64. lia. }
  rewrite IH; rewrite E; lia.
Qed.

Lemma feed_events_counters events : forall p,
  let st := state p in
  let st' := state (feed_events ld tb p events) in
  let n := Z.of_nat (List.length events) in
  let k := Z.of_nat (List.length (filter has_packet_timestamp events)) in
  0 <= RuntimeState.events_seen st ->
  0 <= RuntimeState.timestamped_events st ->
  0 <= RuntimeState.untimestamped_events st ->
  RuntimeState.events_seen st + n < 2 ^ 64 ->
  RuntimeState.timestamped_events st + n < 2 ^ 64 ->
  RuntimeState.untimestamped_events st + n < 2 ^ 64 ->
  RuntimeState.events_seen st' = RuntimeState.events_seen st + n
  /\ RuntimeState.timestamped_events st'
     = RuntimeState.timestamped_events st + k
  /\ RuntimeState.untimestamped_events st'
     = RuntimeState.untimestamped_events st + (n - k).
Proof.
  induction events as [|e events IH]; intros p; cbv zeta;
    intros H1 H2 H3 B1 B2 B3.
  - cbn. repeat split; lia.
  - rewrite feed_events_cons.
    cbn [List.length filter] in *. rewrite Nat2Z.inj_succ in *.
    pose proof (filter_length_le has_packet_timestamp events) as Hle.
    specialize (IH (on_matching_event ld tb p (fst e) (snd e))).
    cbv zeta in IH. rewrite on_matching_event_state in IH.
    unfold handled, has_packet_timestamp in *.
    cbn [RuntimeState.events_seen RuntimeState.timestamped_events
         RuntimeState.untimestamped_events] in IH.
    rewrite (wrap64_small (RuntimeState.events_seen (state p) + 1)) in IH
      by (unfold is_u64; lia).
    destruct (fst e =? 0); cbn [negb List.length];
      rewrite ?Nat2Z.inj_succ;
      rewrite wrap64_small in IH by (unfold is_u64; lia);
      destruct IH as (I1 & I2 & I3); try lia;
      rewrite I1, I2, I3; repeat split; lia.
Qed.

(** X6. After a run of fewer than [2^64] events from the initial state,
    [events_seen] is the number of events, [timestamped_events] the number of
    those with a nonzero packet timestamp, [untimestamped_events] the number
    of the others, and the lateness accumulator holds one sample for each
    timestamped event; so the lateness report says [no timestamped events]
    exactly when no event carried a timestamp. *)
Theorem tracker_counters_of_run (cfg : Config.t) (events : list (Z * Z)) :
  let st := state (feed_events ld tb (initial_process cfg) events) in
  let n := Z.of_nat (List.length events) in
  let k := Z.of_nat (List.length (filter has_packet_timestamp events)) in
  n < 2 ^ 64 ->
  RuntimeState.events_seen st = n
  /\ RuntimeState.timestamped_events st = k
  /\ RuntimeState.untimestamped_events st = n - k
  /\ JitterStats.count (RuntimeState.arrival_vs_timestamp st) = k
  /\ (print_lateness_report ld (RuntimeState.arrival_vs_timestamp st)
      = [lateness_none]
      <-> filter has_packet_timestamp events = []).
Proof.
  cbv zeta. intros Hn.
  pose proof (filter_length_le has_packet_timestamp events) as Hle.
  pose proof (feed_events_counters events (initial_process cfg)) as H.
  cbv zeta in H. cbn [initial_process initial_state state
    RuntimeState.events_seen RuntimeState.timestamped_events
    RuntimeState.untimestamped_events] in H.
  destruct H as (H1 & H2 & H3); try lia.
  destruct (feed_events_series events (initial_process cfg)) as (_ & _ & HL).
  assert (Hc : JitterStats.count
                 (RuntimeState.arrival_vs_timestamp
                    (state (feed_events ld tb (initial_process cfg) events)))
               = Z.of_nat (List.length (filter has_packet_timestamp events))).
  { rewrite HL. cbn [initial_process initial_state state
      RuntimeState.arrival_vs_timestamp].
    rewrite fold_jitter_add_count; rewrite ?length_map; cbn; lia. }
  rewrite H1, H2, H3. repeat split; try lia.
  - intros Hrep. unfold print_lateness_report in Hrep. rewrite Hc in Hrep.
    destruct (filter has_packet_timestamp events) as [|e l]; [reflexivity|].
    cbn [List.length] in Hrep. rewrite Nat2Z.inj_succ in Hrep.
    destruct (Z.eqb_spec (Z.succ (Z.of_nat (List.length l))) 0); [lia|].
    discriminate Hrep.
  - intros Hnone. unfold print_lateness_report. rewrite Hc, Hnone.
    reflexivity.
Qed.

Lemma feed_events_flag events : forall p,
  let c := Config.count (RuntimeState.cfg (state p)) in
  let k := RuntimeState.events_seen (state p) in
  let n := Z.of_nat (List.length events) in
  0 <= k -> k + n < 2 ^ 63 ->
  g_keep_running (feed_events ld tb p events)
  = g_keep_running p && negb ((0 <? c) && (0 <? n) && (c <=? k + n)).
Proof.
  induction events as [|e events IH]; intros p; cbv zeta; intros Hk Hb.
  - cbn. rewrite andb_false_r. cbn. rewrite andb_true_r. reflexivity.
  - rewrite feed_events_cons. cbn [List.length] in *.
    rewrite Nat2Z.inj_succ in *.
    specialize (IH (on_matching_event ld tb p (fst e) (snd e))).
    cbv zeta in IH.
    rewrite on_matching_event_state, on_matching_event_flag in IH.
    unfold handled in IH.
    cbn [RuntimeState.cfg RuntimeState.events_seen] in IH.
    rewrite (wrap64_small (RuntimeState.events_seen (state p) + 1)) in IH
      by (unfold is_u64; lia).
    rewrite sint64_small in IH
      by (unfold is_i64, INT64_MIN, INT64_MAX; lia).
    rewrite IH by lia. clear IH.
    set (c := Config.count (RuntimeState.cfg (state p))).
    set (k := RuntimeState.events_seen (state p)) in *.
    set (n := Z.of_nat (List.length events)) in *.
    assert (0 <= n) by (unfold n; lia).
    destruct (g_keep_running p);
      destruct (Z.ltb_spec 0 c); destruct (Z.leb_spec c (k + 1));
      destruct (Z.ltb_spec 0 n); destruct (Z.leb_spec c (k + 1 + n));
      destruct (Z.ltb_spec 0 (Z.succ n)); destruct (Z.leb_spec c (k + Z.succ n));
      cbn; try reflexivity; lia.
Qed.

(** X7. The stop flag over a run: from the initial state, with a configured
    count [c >= 0], the flag is still up while fewer than [c] events were
    handled, is down once [c] events were handled, and stays up for ever when
    [c = 0]; and no call of the handler raises a flag that is down. *)
Theorem stop_flag_of_run (cfg : Config.t) (events : list (Z * Z)) (p : Process) :
  let n := Z.of_nat (List.length events) in
  (n < 2 ^ 63 ->
   g_keep_running (feed_events ld tb (initial_process cfg) events)
   = negb ((0 <? Config.count cfg) && (Config.count cfg <=? n)))
  /\ (g_keep_running p = false ->
      g_keep_running (feed_events ld tb p events) = false).
Proof.
  cbv zeta. split.
  - intros Hn.
    pose proof (feed_events_flag events (initial_process cfg)) as H.
    cbv zeta in H. cbn [initial_process initial_state state
      RuntimeState.cfg RuntimeState.events_seen g_keep_running] in H.
    rewrite H by lia. cbn [andb Z.add].
    set (n := Z.of_nat (List.length events)) in *.
    assert (0 <= n) by (unfold n; lia).
    destruct (Z.ltb_spec 0 (Config.count cfg));
      destruct (Z.ltb_spec 0 n); destruct (Z.leb_spec (Config.count cfg) n);
      cbn; try reflexivity; lia.
  - revert p. induction events as [|e events IH]; intros p Hp; [exact Hp|].
    rewrite feed_events_cons. apply IH.
    rewrite on_matching_event_flag. rewrite Hp.
    destruct (_ && _)%bool; reflexivity.
Qed.

Lemma report_lines_one_header st final_report :
  reports_printed (report_lines ld st final_report) = 1.
Proof.
  unfold reports_printed, report_lines, print_series_report,
    print_lateness_report.
  cbn [filter is_report_line]. rewrite !filter_app.
  repeat match goal with
         | |- context [if ?c then _ else _] => destruct c
         end; reflexivity.
Qed.

Lemma reports_printed_app a b :
  reports_printed (a ++ b) = reports_printed a + reports_printed b.
Proof.
  unfold reports_printed. rewrite filter_app, length_app. lia.
Qed.

Lemma div_step r k :
  0 < r -> 0 <= k ->
  (k + 1) / r = k / r + (if (k + 1) mod r =? 0 then 1 else 0).
Proof.
  intros Hr Hk.
  pose proof (Z.div_mod k r ltac:(lia)) as E.
  pose proof (Z.mod_pos_bound k r Hr) as B.
  destruct (Z.eq_dec (k mod r) (r - 1)) as [Hm|Hm].
  - assert (D : (k + 1) / r = k / r + 1)
      by (symmetry; apply (Z.div_unique _ _ _ 0); lia).
    assert (M : (k + 1) mod r = 0)
      by (symmetry; apply (Z.mod_unique _ _ (k / r + 1)); lia).
    rewrite D, M. reflexivity.
  - assert (D : (k + 1) / r = k / r)
      by (symmetry; apply (Z.div_unique _ _ _ (k mod r + 1)); lia).
    assert (M : (k + 1) mod r = k mod r + 1)
      by (symmetry; apply (Z.mod_unique _ _ (k / r)); lia).
    rewrite D, M. destruct (Z.eqb_spec (k mod r + 1) 0); lia.
Qed.

Lemma feed_events_reports events : forall p,
  let r := Config.report_every (RuntimeState.cfg (state p)) in
  let k := RuntimeState.events_seen (state p) in
  let n := Z.of_nat (List.length events) in
  0 <= k -> k + n < 2 ^ 64 -> 0 < r < 2 ^ 64 ->
  reports_printed (stdout (feed_events ld tb p events))
  = reports_printed (stdout p) + ((k + n) / r - k / r).
Proof.
  induction events as [|e events IH]; intros p; cbv zeta; intros Hk Hb Hr.
  - cbn [feed_events fold_left List.length Z.of_nat].
    rewrite Z.add_0_r. lia.
  - rewrite feed_events_cons. cbn [List.length] in *.
    rewrite Nat2Z.inj_succ in *.
    specialize (IH (on_matching_event ld tb p (fst e) (snd e))).
    cbv zeta in IH.
    rewrite on_matching_event_state, on_matching_event_stdout in IH.
    unfold handled in IH.
    cbn [RuntimeState.cfg RuntimeState.events_seen] in IH.
    rewrite (wrap64_small (RuntimeState.events_seen (state p) + 1)) in IH
      by (unfold is_u64; lia).
    rewrite (wrap64_small (Config.report_every _)) in IH
      by (unfold is_u64; lia).
    rewrite IH by lia. clear IH.
    rewrite reports_printed_app.
    set (r := Config.report_every (RuntimeState.cfg (state p))) in *.
    set (k := RuntimeState.events_seen (state p)) in *.
    pose proof (div_step r k ltac:(lia) Hk) as Hd.
    replace (k + Z.succ (Z.of_nat (List.length events)))
      with (k + 1 + Z.of_nat (List.length events)) by lia.
    destruct (Z.ltb_spec 0 r); [|lia]. cbn [andb].
    destruct ((k + 1) mod r =? 0).
    + rewrite report_lines_one_header. lia.
    + change (reports_printed []) with 0. lia.
Qed.

(** X8. Periodic reporting: after [n] events from the initial state, with
    [report_every = r >= 1], exactly [n / r] reports were printed (one after
    every [r]-th event, none final). *)
Theorem reports_of_run (cfg : Config.t) (events : list (Z * Z)) :
  let n := Z.of_nat (List.length events) in
  n < 2 ^ 64 -> 0 < Config.report_every cfg < 2 ^ 64 ->
  reports_printed (stdout (feed_events ld tb (initial_process cfg) events))
  = n / Config.report_every cfg.
Proof.
  cbv zeta. intros Hn Hr.
  pose proof (feed_events_reports events (initial_process cfg)) as H.
  cbv zeta in H. cbn [initial_process initial_state state stdout
    RuntimeState.cfg RuntimeState.events_seen] in H.
  rewrite H by lia. cbn [Z.add]. rewrite Z.div_0_l by lia.
  change (reports_printed []) with 0. lia.
Qed.

End Run.

Lemma tracker_counters_of_run_witness :
  let st := state (feed_events binary64 timebase_arm64
                     (initial_process (run_cfg 0 100))
                     [(2400, 2500); (0, 4900); (7200, 7300)]) in
  RuntimeState.events_seen st = 3
  /\ RuntimeState.timestamped_events st = 2
  /\ RuntimeState.untimestamped_events st = 1.
Proof.
  pose proof (tracker_counters_of_run binary64 timebase_arm64 (run_cfg 0 100)
                [(2400, 2500); (0, 4900); (7200, 7300)]) as H.
  cbv zeta in H. destruct H as (H1 & H2 & H3 & _); [cbn; lia|].
  cbv zeta. rewrite H1, H2, H3. repeat split; reflexivity.
Defined.

Lemma stop_flag_of_run_witness :
  g_keep_running (feed_events binary64 timebase_arm64
                    (initial_process (run_cfg 2 100))
                    [(2400, 2500); (0, 4900)]) = false
  /\ g_keep_running (feed_events binary64 timebase_arm64
                       (initial_process (run_cfg 2 100))
                       [(2400, 2500)]) = true
  /\ g_keep_running
       (feed_events binary64 timebase_arm64
          (feed_events binary64 timebase_arm64
             (initial_process (run_cfg 2 100)) [(2400, 2500); (0, 4900)])
          [(7200, 7300)]) = false.
Proof.
  pose proof (stop_flag_of_run binary64 timebase_arm64 (run_cfg 2 100)
                [(2400, 2500); (0, 4900)] (initial_process (run_cfg 2 100)))
    as [H1 _].
  pose proof (stop_flag_of_run binary64 timebase_arm64 (run_cfg 2 100)
                [(2400, 2500)] (initial_process (run_cfg 2 100)))
    as [H2 _].
  pose proof (stop_flag_of_run binary64 timebase_arm64 (run_cfg 2 100)
                [(7200, 7300)]
                (feed_events binary64 timebase_arm64
                   (initial_process (run_cfg 2 100))
                   [(2400, 2500); (0, 4900)]))
    as [_ H3].
  cbv zeta in H1, H2. split; [|split].
  - rewrite H1; [reflexivity|cbn; lia].
  - rewrite H2; [reflexivity|cbn; lia].
  - apply H3. rewrite H1; [reflexivity|cbn; lia].
Defined.

Lemma reports_of_run_witness :
  reports_printed
    (stdout (feed_events binary64 timebase_arm64
               (initial_process (run_cfg 0 2))
               [(2400, 2500); (0, 4900); (7200, 7300); (9600, 9700);
                (12000, 12100)])) = 2.
Proof.
  pose proof (reports_of_run binary64 timebase_arm64 (run_cfg 0 2)
                [(2400, 2500); (0, 4900); (7200, 7300); (9600, 9700);
                 (12000, 12100)]) as H.
  cbv zeta in H. rewrite H; [reflexivity|cbn; lia|cbn; lia].
Defined.

End RunProperties.

(** ** The classifier, message by message *)

Module ClassifierMore.
Import MidiStats Receiver ClassifierProperties.

Section Classifier.
Variable ld : float_format.
Variable tb : mach_timebase_info_data_t.
Variables packet_timestamp arrival_timestamp : Z.

Let handle (p : Process) : Process :=
  on_matching_event ld tb p packet_timestamp arrival_timestamp.
Let pass_of := scan_pass ld tb packet_timestamp arrival_timestamp.
Let loop := scan_loop ld tb packet_timestamp arrival_timestamp.
Let classify_ := classify ld tb packet_timestamp arrival_timestamp.

(** A pass either leaves the state alone or hands one three-byte message to
    the handler. *)
Lemma scan_pass_effect data i p :
  match pass_of data i p with
  | next_pass i' p' => p' = p \/ (p' = handle p /\ i' = (i + 3)%nat)
  | break_loop p' => p' = p
  end.
Proof.
  unfold pass_of, scan_pass.
  repeat match goal with
         | |- context [if ?c then _ else _] => destruct c eqn:?
         end; auto.
  right. split; [reflexivity|].
  match goal with
  | H : (_ && (midi_channel_message_length _ =? 3))%bool = true |- _ =>
      apply andb_true_iff in H; destruct H as [_ H]; apply Z.eqb_eq in H;
      rewrite H
  end.
  reflexivity.
Qed.

Lemma feed_repeat_S p k :
  feed_events ld tb p (repeat (packet_timestamp, arrival_timestamp) (S k))
  = feed_events ld tb (handle p)
      (repeat (packet_timestamp, arrival_timestamp) k).
Proof. reflexivity. Qed.

Lemma scan_loop_events data fuel : forall i p n r,
  (i <= List.length data)%nat ->
  loop data fuel i p n = Some r ->
  exists k,
    fst r = feed_events ld tb p
              (repeat (packet_timestamp, arrival_timestamp) k)
    /\ (i + 3 * k <= List.length data)%nat.
Proof.
  induction fuel as [|fuel IH]; intros i p n r Hi; unfold loop; simpl.
  - destruct (Nat.ltb_spec i (List.length data)); [discriminate|].
    intros E; inversion E; subst. exists 0%nat. split; [reflexivity|lia].
  - destruct (Nat.ltb_spec i (List.length data)) as [Hlt|Hge].
    2:{ intros E; inversion E; subst. exists 0%nat. split; [reflexivity|lia]. }
    pose proof (scan_pass_effect data i p) as He.
    pose proof (scan_pass_advances ld tb packet_timestamp arrival_timestamp
                  data i p) as Ha.
    unfold pass_of in He.
    destruct (scan_pass ld tb packet_timestamp arrival_timestamp data i p)
      as [i' p'|p'].
    + specialize (Ha i' p' Hlt eq_refl). intros E.
      apply IH in E; [|lia]. destruct E as (k & Hk & Hb).
      destruct He as [->|[-> ->]].
      * exists k. split; [exact Hk|lia].
      * exists (S k). rewrite feed_repeat_S. split; [exact Hk|lia].
    + intros E; inversion E; subst. exists 0%nat. cbn [fst].
      split; [reflexivity|lia].
Qed.

(** [classify] is what [process_packet_bytes] returns, for any fuel that
    covers the buffer. *)
Lemma classify_returns data p fuel :
  (List.length data <= fuel)%nat ->
  exists passes,
    process_packet_bytes ld tb packet_timestamp arrival_timestamp data fuel p
    = Some (classify_ data p, passes)
    /\ (passes <= List.length data)%nat.
Proof.
  intros Hf.
  destruct (scan_loop_terminates ld tb packet_timestamp arrival_timestamp
              data (List.length data) 0%nat p 0%nat) as (p' & n & Hr & Hn);
    [lia|lia|].
  exists n. unfold classify_, classify, process_packet_bytes.
  rewrite Hr. split; [|lia].
  exact (scan_loop_fuel_mono ld tb _ _ data _ fuel _ _ _ _ Hf Hr).
Qed.

(** X9. Every qualifying message of a packet reaches the handler with the
    packet's own timestamp and the one arrival time of the packet: the state
    after a buffer is that of [k] calls of the handler with the same pair,
    and [k] is at most a third of the buffer's length. *)
Theorem classifier_calls_handler (data : list Z) (p : Process) :
  exists k,
    classify ld tb packet_timestamp arrival_timestamp data p
    = feed_events ld tb p (repeat (packet_timestamp, arrival_timestamp) k)
    /\ (3 * k <= List.length data)%nat.
Proof.
  destruct (classify_returns data p (List.length data) (le_n _))
    as (passes & Hr & _).
  unfold process_packet_bytes in Hr.
  destruct (scan_loop_events data (List.length data) 0%nat p 0%nat _
              (Nat.le_0_l _) Hr) as (k & Hk & Hb).
  exists k. split; [exact Hk|lia].
Qed.

(** With fuel for the bytes that remain, a loop of data bytes only. *)
Lemma scan_loop_data_bytes data fuel : forall i p n,
  Forall (fun b => Z.land b 0x80 = 0) data ->
  (List.length data - i <= fuel)%nat ->
  loop data fuel i p n = Some (p, (n + (List.length data - i))%nat).
Proof.
  induction fuel as [|fuel IH]; intros i p n Hd Hf; unfold loop; simpl.
  - destruct (Nat.ltb_spec i (List.length data)); [lia|].
    f_equal. f_equal. lia.
  - destruct (Nat.ltb_spec i (List.length data)) as [Hlt|Hge].
    2:{ f_equal. f_equal. lia. }
    unfold scan_pass.
    assert (Hb : Z.land (nth i data 0) 128 = 0).
    { rewrite Forall_forall in Hd. apply Hd. apply nth_In. exact Hlt. }
    rewrite Hb. cbn [Z.eqb].
    unfold loop in IH. rewrite IH by (assumption || lia).
    f_equal. f_equal. lia.
Qed.

(** X10. A buffer of data bytes only (no byte with the high bit) changes
    nothing: each byte is skipped on its own, in as many passes as there are
    bytes.  Running status is therefore not decoded. *)
Theorem classifier_skips_data_bytes (data : list Z) (p : Process) :
  Forall (fun b => Z.land b 0x80 = 0) data ->
  process_packet_bytes ld tb packet_timestamp arrival_timestamp data
    (List.length data) p
  = Some (p, List.length data).
Proof.
  intros Hd. unfold process_packet_bytes.
  pose proof (scan_loop_data_bytes data (List.length data) 0%nat p 0%nat Hd)
    as H.
  unfold loop in H. rewrite H by lia. f_equal. f_equal. lia.
Qed.

(** *** What comes after a prefix of the buffer *)

Lemma sysex_scan_shift pre rest fuel : forall i,
  sysex_scan (pre ++ rest) fuel (List.length pre + i)
  = (List.length pre + sysex_scan rest fuel i)%nat.
Proof.
  induction fuel as [|fuel IH]; intros i; cbn [sysex_scan]; [reflexivity|].
  rewrite app_nth2_plus, length_app.
  replace (List.length pre + i <? List.length pre + List.length rest)%nat
    with (i <? List.length rest)%nat
    by (destruct (Nat.ltb_spec i (List.length rest));
        destruct (Nat.ltb_spec (List.length pre + i)
                    (List.length pre + List.length rest)); lia).
  destruct ((i <? List.length rest)%nat && negb (nth i rest 0 =? 247));
    [|reflexivity].
  replace (List.length pre + i + 1)%nat with (List.length pre + (i + 1))%nat
    by lia.
  apply IH.
Qed.

Lemma ltb_shift k a b : (k + a <? k + b)%nat = (a <? b)%nat.
Proof.
  destruct (Nat.ltb_spec a b); destruct (Nat.ltb_spec (k + a) (k + b)); lia.
Qed.

Lemma scan_pass_shift pre rest i p :
  pass_of (pre ++ rest) (List.length pre + i) p
  = shift_pass (List.length pre) (pass_of rest i p).
Proof.
  unfold pass_of, scan_pass.
  rewrite app_nth2_plus, length_app.
  replace (List.length pre + i + 2)%nat with (List.length pre + (i + 2))%nat
    by lia.
  rewrite app_nth2_plus.
  replace (List.length pre + List.length rest - (List.length pre + i + 1))%nat
    with (List.length rest - (i + 1))%nat by lia.
  replace (List.length pre + i + 1)%nat with (List.length pre + (i + 1))%nat
    by lia.
  rewrite sysex_scan_shift, !ltb_shift.
  rewrite <- !Nat.add_assoc, !ltb_shift.
  repeat match goal with
         | |- context [if ?c then _ else _] => destruct c
         end; cbn [shift_pass]; try reflexivity; f_equal; lia.
Qed.

Lemma scan_loop_shift pre rest fuel : forall i p n,
  loop (pre ++ rest) fuel (List.length pre + i) p n = loop rest fuel i p n.
Proof.
  induction fuel as [|fuel IH]; intros i p n; unfold loop; simpl;
    rewrite length_app, ltb_shift.
  - reflexivity.
  - destruct (i <? List.length rest)%nat; [|reflexivity].
    pose proof (scan_pass_shift pre rest i p) as Hs. unfold pass_of in Hs.
    rewrite Hs.
    destruct (scan_pass ld tb packet_timestamp arrival_timestamp rest i p);
      cbn [shift_pass]; [|reflexivity].
    apply IH.
Qed.

Lemma scan_loop_passes data fuel : forall i p n r,
  loop data fuel i p n = Some r ->
  forall m, exists passes, loop data fuel i p m = Some (fst r, passes).
Proof.
  induction fuel as [|fuel IH]; intros i p n r; unfold loop; simpl.
  - destruct (i <? List.length data)%nat; [discriminate|].
    intros E m; inversion E; subst. eexists; reflexivity.
  - destruct (i <? List.length data)%nat.
    2:{ intros E m; inversion E; subst. eexists; reflexivity. }
    destruct (scan_pass ld tb packet_timestamp arrival_timestamp data i p).
    + intros E m. exact (IH _ _ _ _ E (S m)).
    + intros E m; inversion E; subst. eexists; reflexivity.
Qed.

(** Once a pass has taken the loop to the end of a prefix, the rest of the
    buffer is classified as a buffer of its own. *)
Lemma classify_after_prefix pre rest p p' :
  pre <> [] ->
  pass_of (pre ++ rest) 0%nat p = next_pass (List.length pre) p' ->
  classify_ (pre ++ rest) p = classify_ rest p'.
Proof.
  intros Hne Hp.
  destruct (classify_returns (pre ++ rest) p _ (le_n _)) as (n1 & H1 & _).
  destruct (classify_returns rest p' (List.length pre + List.length rest - 1))
    as (n2 & H2 & _).
  { destruct pre; [congruence|]. cbn [List.length]. lia. }
  unfold process_packet_bytes in H1, H2.
  destruct pre as [|b pre]; [congruence|].
  cbn [List.length app] in H1.
  rewrite NoteOnProperties.scan_loop_S in H1. cbn [List.length Nat.ltb Nat.leb] in H1.
  unfold pass_of in Hp. cbn [app] in Hp. rewrite Hp in H1.
  change (b :: pre ++ rest) with ((b :: pre) ++ rest) in H1.
  pose proof (scan_loop_shift (b :: pre) rest
                (List.length (pre ++ rest)) 0%nat p' 1%nat) as Hsh.
  unfold loop in Hsh. rewrite Nat.add_0_r in Hsh. rewrite Hsh in H1.
  rewrite length_app in H1.
  replace (List.length (b :: pre) + List.length rest - 1)%nat
    with (List.length pre + List.length rest)%nat in H2
    by (cbn [List.length]; lia).
  destruct (scan_loop_passes rest _ _ _ _ _ H2 1%nat) as (m & Hm).
  unfold loop in Hm. rewrite Hm in H1. cbn [fst] in H1.
  inversion H1. symmetry. assumption.
Qed.

Lemma classify_nil p : classify_ [] p = p.
Proof. reflexivity. Qed.

(** A first pass that leaves by [break] ends the scan. *)
Lemma classify_break data p p' :
  data <> [] ->
  pass_of data 0%nat p = break_loop p' ->
  classify_ data p = p'.
Proof.
  intros Hne Hp. destruct data as [|b data]; [congruence|].
  unfold classify_, classify, process_packet_bytes.
  cbn [List.length]. rewrite NoteOnProperties.scan_loop_S.
  cbn [List.length Nat.ltb Nat.leb].
  unfold pass_of in Hp. rewrite Hp. reflexivity.
Qed.

(** A byte from 0x80 to 0xFF has its high bit set. *)
Lemma status_high_bit s : 0x80 <= s < 0x100 -> (Z.land s 0x80 =? 0) = false.
Proof.
  intros Hs.
  assert (Hall : forallb (fun n => negb (Z.land (Z.of_nat n) 0x80 =? 0))
                   (seq 128 128) = true) by (vm_compute; reflexivity).
  rewrite forallb_forall in Hall.
  specialize (Hall (Z.to_nat s)).
  rewrite Z2Nat.id in Hall by lia.
  apply negb_true_iff, Hall, in_seq. lia.
Qed.

(** One pass over a complete three-byte channel message. *)
Lemma classify_channel_message3 (s d1 d2 : Z) (rest : list Z) (p : Process) :
  0x80 <= s < 0xF0 ->
  Z.land s 0xF0 <> 0xC0 ->
  Z.land s 0xF0 <> 0xD0 ->
  classify ld tb packet_timestamp arrival_timestamp (s :: d1 :: d2 :: rest) p
  = classify ld tb packet_timestamp arrival_timestamp rest
      (if (Z.land s 0x0F + 1 =? Config.channel (RuntimeState.cfg (state p)))
          && (Z.land s 0xF0 =? 0x90) && (0 <? d2)
       then on_matching_event ld tb p packet_timestamp arrival_timestamp
       else p).
Proof.
  intros Hs Hc Hd.
  change (s :: d1 :: d2 :: rest) with ([s; d1; d2] ++ rest).
  apply classify_after_prefix; [discriminate|].
  unfold pass_of, scan_pass. cbn [app nth List.length Nat.add].
  rewrite status_high_bit by lia.
  rewrite (proj2 (Z.leb_gt 240 s)) by lia.
  unfold midi_channel_message_length.
  rewrite (proj2 (Z.eqb_neq _ _) Hc), (proj2 (Z.eqb_neq _ _) Hd).
  cbn [orb]. change (Z.to_nat 3) with 3%nat.
  cbn [Nat.ltb Nat.leb Z.eqb Pos.eqb]. rewrite andb_true_r.
  destruct ((Z.land s 15 + 1 =? Config.channel (RuntimeState.cfg (state p)))
            && (Z.land s 240 =? 144)); cbn [andb]; [|reflexivity].
  destruct (0 <? d2); reflexivity.
Qed.

(** X11. A complete three-byte channel message at the head of a buffer is
    consumed whole, its two following bytes unexamined but for the velocity;
    the handler is called exactly when the message is a note-on of the
    configured channel with a velocity above zero, and the rest of the buffer
    is then classified as a buffer of its own. *)
Theorem classifier_channel_message (s d1 d2 : Z) (rest : list Z) (p : Process) :
  0x80 <= s < 0xF0 ->
  Z.land s 0xF0 <> 0xC0 ->
  Z.land s 0xF0 <> 0xD0 ->
  classify ld tb packet_timestamp arrival_timestamp (s :: d1 :: d2 :: rest) p
  = classify ld tb packet_timestamp arrival_timestamp rest
      (if (Z.land s 0x0F + 1 =? Config.channel (RuntimeState.cfg (state p)))
          && (Z.land s 0xF0 =? 0x90) && (0 <? d2)
       then on_matching_event ld tb p packet_timestamp arrival_timestamp
       else p).
Proof. exact (classify_channel_message3 s d1 d2 rest p). Qed.

(** The two-byte channel messages (program change, channel pressure) are
    skipped. *)
Lemma classifier_short_channel_message s d1 rest p :
  0x80 <= s < 0xF0 ->
  Z.land s 0xF0 = 0xC0 \/ Z.land s 0xF0 = 0xD0 ->
  classify_ (s :: d1 :: rest) p = classify_ rest p.
Proof.
  intros Hs Hc.
  change (s :: d1 :: rest) with ([s; d1] ++ rest).
  apply classify_after_prefix; [discriminate|].
  unfold pass_of, scan_pass. cbn [app nth List.length Nat.add].
  rewrite status_high_bit by lia.
  rewrite (proj2 (Z.leb_gt 240 s)) by lia.
  unfold midi_channel_message_length.
  destruct Hc as [-> | ->]; cbn [orb Z.eqb Pos.eqb andb];
    change (Z.to_nat 2) with 2%nat; cbn [Nat.ltb Nat.leb];
    rewrite !andb_false_r; reflexivity.
Qed.

(** X12. A channel message cut off by the end of the buffer is dropped, and
    with it the scan ends: no handler call, whatever the status byte. *)
Theorem classifier_drops_truncated_message (s : Z) (tail : list Z)
    (p : Process) :
  0x80 <= s < 0xF0 ->
  Z.of_nat (List.length tail) + 1 < midi_channel_message_length s ->
  classify ld tb packet_timestamp arrival_timestamp (s :: tail) p = p.
Proof.
  intros Hs Hl.
  apply classify_break; [discriminate|].
  unfold pass_of, scan_pass. cbn [nth List.length Nat.add].
  rewrite status_high_bit by lia.
  rewrite (proj2 (Z.leb_gt 240 s)) by lia.
  destruct (Nat.ltb_spec (S (List.length tail))
              (Z.to_nat (midi_channel_message_length s))); [reflexivity|].
  unfold midi_channel_message_length in *.
  destruct ((Z.land s 240 =? 192) || (Z.land s 240 =? 208)); lia.
Qed.

(** The inner loop of a system-exclusive message stops at the first 0xF7, or
    at the end of the buffer. *)
Lemma sysex_scan_body tail : forall body fuel,
  Forall (fun b => b <> 0xF7) body ->
  tail = [] \/ (exists rest, tail = 0xF7 :: rest) ->
  (List.length body <= fuel)%nat ->
  sysex_scan (body ++ tail) fuel 0 = List.length body.
Proof.
  induction body as [|b body IH]; intros fuel Hb Ht Hf.
  - destruct fuel as [|fuel]; [reflexivity|].
    cbn [app sysex_scan List.length].
    destruct Ht as [->|(rest & ->)]; reflexivity.
  - destruct fuel as [|fuel]; [cbn [List.length] in Hf; lia|].
    inversion Hb as [|? ? Hb1 Hb2]; subst.
    cbn [app sysex_scan List.length nth Nat.ltb Nat.leb andb].
    rewrite (proj2 (Z.eqb_neq _ _) Hb1). cbn [negb Nat.add].
    pose proof (sysex_scan_shift [b] (body ++ tail) fuel 0%nat) as Hs.
    cbn [List.length app Nat.add] in Hs. rewrite Hs.
    rewrite IH; [reflexivity|assumption|assumption|].
    cbn [List.length] in Hf. lia.
Qed.

Lemma scan_pass_sysex body tail p :
  Forall (fun b => b <> 0xF7) body ->
  tail = [] \/ (exists rest, tail = 0xF7 :: rest) ->
  pass_of (0xF0 :: body ++ tail) 0%nat p
  = next_pass (match tail with
               | [] => 1 + List.length body
               | _ => 2 + List.length body
               end)%nat p.
Proof.
  intros Hb Ht. unfold pass_of, scan_pass.
  cbn [nth Nat.add]. change (Z.land 240 128 =? 0) with false.
  change (240 <=? 240) with true. change (240 =? 240) with true.
  cbv iota.
  pose proof (sysex_scan_shift [0xF0] (body ++ tail)
                (List.length (0xF0 :: body ++ tail) - 1) 0%nat) as Hs.
  cbn [List.length app Nat.add] in Hs.
  cbn [List.length]. rewrite Hs.
  rewrite sysex_scan_body; [|assumption|assumption|].
  2:{ rewrite length_app. lia. }
  rewrite length_app.
  destruct Ht as [->|(rest & ->)]; cbn [List.length].
  - destruct (Nat.ltb_spec (S (List.length body))
                (S (List.length body + 0))); [lia|reflexivity].
  - destruct (Nat.ltb_spec (S (List.length body))
                (S (List.length body + S (List.length rest)))); [|lia].
    f_equal. lia.
Qed.

(** X13. System-exclusive data never reaches the handler: from 0xF0 up to and
    with the first 0xF7 the bytes are skipped, whatever they are, and the
    scan goes on behind them; without a 0xF7 the rest of the buffer is
    skipped. *)
Theorem classifier_skips_sysex (body rest : list Z) (p : Process) :
  Forall (fun b => b <> 0xF7) body ->
  classify ld tb packet_timestamp arrival_timestamp
    (0xF0 :: body ++ 0xF7 :: rest) p
  = classify ld tb packet_timestamp arrival_timestamp rest p
  /\ classify ld tb packet_timestamp arrival_timestamp (0xF0 :: body) p = p.
Proof.
  intros Hb. split.
  - replace (0xF0 :: body ++ 0xF7 :: rest)
      with ((0xF0 :: body ++ [0xF7]) ++ rest)
      by (cbn [app]; rewrite <- app_assoc; reflexivity).
    apply classify_after_prefix; [discriminate|].
    replace ((0xF0 :: body ++ [0xF7]) ++ rest)
      with (0xF0 :: body ++ 0xF7 :: rest)
      by (cbn [app]; rewrite <- app_assoc; reflexivity).
    rewrite scan_pass_sysex; [|assumption|right; eexists; reflexivity].
    f_equal. cbn [List.length]. rewrite length_app. cbn [List.length]. lia.
  - rewrite <- (classify_nil p) at 2.
    replace (0xF0 :: body) with ((0xF0 :: body) ++ []) at 1
      by apply app_nil_r.
    apply classify_after_prefix; [discriminate|].
    cbn [app]. rewrite scan_pass_sysex; [|assumption|left; reflexivity].
    reflexivity.
Qed.





(** X15. The system messages other than 0xF0 never reach the handler.  A
    status byte the length table does not know (length 0) and a one-byte
    message are stepped over; a two- or three-byte message takes its data
    bytes with it, unexamined; one cut off by the end of the buffer ends the
    scan. *)
Theorem classifier_skips_system_message (s : Z) (rest : list Z) (p : Process) :
  0xF1 <= s <= 0xFF ->
  let skip := (Z.to_nat (midi_system_message_length s) - 1)%nat in
  classify ld tb packet_timestamp arrival_timestamp (s :: rest) p
  = if (List.length rest <? skip)%nat then p
    else classify ld tb packet_timestamp arrival_timestamp (skipn skip rest) p.
Proof.
  intros Hs skip. subst skip.
  assert (Hc : s = 241 \/ s = 242 \/ s = 243 \/ s = 244 \/ s = 245
               \/ s = 246 \/ s = 247 \/ s = 248 \/ s = 249 \/ s = 250
               \/ s = 251 \/ s = 252 \/ s = 253 \/ s = 254 \/ s = 255) by lia.
  clear Hs.
  repeat (destruct Hc as [->|Hc]); try subst s;
    match goal with
    | |- context [(Z.to_nat (midi_system_message_length ?x) - 1)%nat] =>
        let v := eval vm_compute in
                 (Z.to_nat (midi_system_message_length x) - 1)%nat in
        change (Z.to_nat (midi_system_message_length x) - 1)%nat with v
    end;
    destruct rest as [|d1 [|d2 r]];
    cbn [List.length Nat.ltb Nat.leb skipn];
    first
      [ solve [apply classify_break; [discriminate|reflexivity]]
      | solve [apply (classify_after_prefix [_] _ p p);
               [discriminate|reflexivity]]
      | solve [apply (classify_after_prefix [_; _] _ p p);
               [discriminate|reflexivity]]
      | solve [apply (classify_after_prefix [_; _; _] _ p p);
               [discriminate|reflexivity]] ].
Qed.

End Classifier.

Lemma classifier_skips_data_bytes_witness :
  process_packet_bytes binary64 timebase_arm64 2400 2500 [0x3C; 0x64; 0x00] 3
    (initial_process (run_cfg 0 100))
  = Some (initial_process (run_cfg 0 100), 3%nat).
Proof.
  apply (classifier_skips_data_bytes binary64 timebase_arm64 2400 2500
           [0x3C; 0x64; 0x00]).
  repeat constructor.
Defined.

(** A note-on of channel 1 followed by a note-off: one handler call. *)
Lemma classifier_channel_message_witness :
  classify binary64 timebase_arm64 2400 2500 [0x90; 60; 100; 0x80; 60; 0]
    (initial_process (run_cfg 0 100))
  = classify binary64 timebase_arm64 2400 2500 [0x80; 60; 0]
      (if (Z.land 0x90 0x0F + 1
           =? Config.channel
                (RuntimeState.cfg (state (initial_process (run_cfg 0 100)))))
          && (Z.land 0x90 0xF0 =? 0x90) && (0 <? 100)
       then on_matching_event binary64 timebase_arm64
              (initial_process (run_cfg 0 100)) 2400 2500
       else initial_process (run_cfg 0 100)).
Proof.
  apply (classifier_channel_message binary64 timebase_arm64 2400 2500
           0x90 60 100 [0x80; 60; 0]);
    [lia | vm_compute; discriminate | vm_compute; discriminate].
Defined.

(** A note-on without its velocity byte. *)
Lemma classifier_drops_truncated_message_witness :
  classify binary64 timebase_arm64 2400 2500 [0x90; 60]
    (initial_process (run_cfg 0 100))
  = initial_process (run_cfg 0 100).
Proof.
  apply (classifier_drops_truncated_message binary64 timebase_arm64 2400 2500
           0x90 [60]); [lia | vm_compute; reflexivity].
Defined.

(** Note-on bytes inside a system-exclusive message. *)
Lemma classifier_skips_sysex_witness :
  classify binary64 timebase_arm64 2400 2500
    (0xF0 :: [0x90; 60; 100] ++ 0xF7 :: [0x90; 60; 100])
    (initial_process (run_cfg 0 100))
  = classify binary64 timebase_arm64 2400 2500 [0x90; 60; 100]
      (initial_process (run_cfg 0 100))
  /\ classify binary64 timebase_arm64 2400 2500 (0xF0 :: [0x90; 60; 100])
       (initial_process (run_cfg 0 100))
     = initial_process (run_cfg 0 100).
Proof.
  apply (classifier_skips_sysex binary64 timebase_arm64 2400 2500
           [0x90; 60; 100] [0x90; 60; 100]).
  repeat constructor; lia.
Defined.


(** A song-position message (0xF2, three bytes) before a note-on. *)
Lemma classifier_skips_system_message_witness :
  classify binary64 timebase_arm64 2400 2500 [0xF2; 0x90; 60; 0x90; 60; 100]
    (initial_process (run_cfg 0 100))
  = if (List.length [0x90; 60; 0x90; 60; 100]
        <? Z.to_nat (midi_system_message_length 0xF2) - 1)%nat
    then initial_process (run_cfg 0 100)
    else classify binary64 timebase_arm64 2400 2500
           (skipn (Z.to_nat (midi_system_message_length 0xF2) - 1)
              [0x90; 60; 0x90; 60; 100])
           (initial_process (run_cfg 0 100)).
Proof.
  apply (classifier_skips_system_message binary64 timebase_arm64 2400 2500
           0xF2 [0x90; 60; 0x90; 60; 100]).
  lia.
Defined.

End ClassifierMore.

(** ** The read callback *)

Module ReadProcProperties.
Import MidiStats Receiver.

Section ReadProc.
Variable ld : float_format.
Variable tb : mach_timebase_info_data_t.
Variable mach_absolute_time : nat -> Z.

Lemma read_packets_reads packets : forall reads p,
  let r := read_packets ld tb mach_absolute_time packets reads p in
  (reads <= snd r <= reads + List.length packets)%nat
  /\ (g_keep_running (fst r) = true ->
      snd r = (reads + List.length packets)%nat)
  /\ (g_keep_running p = false -> r = (p, reads)).
Proof.
  induction packets as [|packet packets IH]; intros reads p; cbv zeta.
  - cbn [read_packets fst snd List.length]. repeat split; lia.
  - cbn [read_packets List.length].
    destruct (g_keep_running p) eqn:Hp; cbn [negb].
    + specialize (IH (S reads)
                    (classify ld tb (timeStamp packet)
                       (wrap64 (mach_absolute_time reads)) (data packet) p)).
      cbv zeta in IH. destruct IH as (H1 & H2 & _).
      split; [lia|]. split; [|discriminate].
      intros Hr. rewrite (H2 Hr). lia.
    + cbn [fst snd]. rewrite Hp. split; [lia|].
      split; [discriminate|reflexivity].
Qed.

(** X16. The callback reads the clock once for each packet it processes and
    tests the stop flag before each packet only: it never reads more often
    than there are packets, a flag that is still up afterwards means every
    packet was processed, and with the flag down on entry nothing is read or
    changed. *)
Theorem read_proc_stops_between_packets (packets : list MIDIPacket)
    (p : Process) (reads : nat) :
  exists p' reads',
    midi_read_proc ld tb mach_absolute_time (Some packets) (Some p) reads
    = (Some p', reads')
    /\ (reads <= reads' <= reads + List.length packets)%nat
    /\ (g_keep_running p' = true -> reads' = (reads + List.length packets)%nat)
    /\ (g_keep_running p = false -> p' = p /\ reads' = reads).
Proof.
  pose proof (read_packets_reads packets reads p) as H. cbv zeta in H.
  unfold midi_read_proc.
  destruct (g_keep_running p) eqn:Hp; cbn [negb].
  - destruct (read_packets ld tb mach_absolute_time packets reads p)
      as [p' reads'] eqn:Hr.
    cbn [fst snd] in H. destruct H as (H1 & H2 & _).
    exists p', reads'. repeat split; try assumption; try lia; discriminate.
  - exists p, reads. repeat split; try lia.
    intros Hq. congruence.
Qed.


End ReadProc.


End ReadProcProperties.

(** ** The transmitter's wait *)

Module SleepProperties.
Import MidiPulse Transmitter.

Section Sleep.
Variable tb : mach_timebase_info_data_t.
Variable env : Env.

Lemma emit_reads e w :
  clock_reads (emit e w) = clock_reads w
  /\ flag_reads (emit e w) = flag_reads w.
Proof. split; reflexivity. Qed.

Lemma sleep_until_host_S fuel target w :
  sleep_until_host tb env (S fuel) target w
  = let (running, w) := read_g_keep_running env w in
    if negb running then (w, true)
    else
      let (current, w) := now_host env w in
      if target <=? current then (w, true)
      else
        let remaining_ns := host_to_ns tb (wrap64 (target - current)) in
        let w :=
          if 2000000 <? remaining_ns then
            let sleep_ns := wrap64 (remaining_ns - 500000) in
            emit (nanosleep (sleep_ns / 1000000000)
                            (sleep_ns mod 1000000000)) w
          else if 100000 <? remaining_ns then
            emit (nanosleep 0 (remaining_ns / 2)) w
          else w in
        sleep_until_host tb env fuel target w.
Proof. reflexivity. Qed.

Lemma sleep_until_host_spec fuel : forall target w,
  let r := sleep_until_host tb env fuel target w in
  (flag_reads w <= flag_reads (fst r))%nat
  /\ (clock_reads w <= clock_reads (fst r))%nat
  /\ (snd r = true ->
      (flag_reads w < flag_reads (fst r))%nat
      /\ (g_keep_running env (flag_reads (fst r) - 1) = false
          \/ ((clock_reads w < clock_reads (fst r))%nat
              /\ target
                 <= wrap64 (mach_absolute_time env
                              (clock_reads (fst r) - 1))))).
Proof.
  induction fuel as [|fuel IH]; intros target w; cbv zeta;
    cbn [sleep_until_host].
  - cbn [fst snd]. repeat split; try lia; discriminate.
  - unfold read_g_keep_running, now_host.
    destruct (g_keep_running env (flag_reads w)) eqn:Hrun; cbn [negb].
    2:{ cbn [fst snd flag_reads clock_reads].
        split; [lia|]. split; [lia|]. intros _. split; [lia|]. left.
        replace (S (flag_reads w) - 1)%nat with (flag_reads w) by lia.
        exact Hrun. }
    cbn [clock_reads flag_reads].
    destruct (Z.leb_spec target
                (wrap64 (mach_absolute_time env (clock_reads w))))
      as [Hreached|Hnot].
    { cbn [fst snd flag_reads clock_reads].
      split; [lia|]. split; [lia|]. intros _. split; [lia|]. right.
      split; [lia|].
      replace (S (clock_reads w) - 1)%nat with (clock_reads w) by lia.
      exact Hreached. }
    match goal with
    | |- context [sleep_until_host tb env fuel target ?w'] =>
        set (w3 := w');
        assert (Hw3 : clock_reads w3 = S (clock_reads w)
                      /\ flag_reads w3 = S (flag_reads w))
          by (subst w3;
              repeat match goal with
                     | |- context [if ?c then _ else _] => destruct c
                     end; split; reflexivity)
    end.
    destruct Hw3 as [Hc Hf].
    specialize (IH target w3). cbv zeta in IH.
    destruct IH as (H1 & H2 & H3).
    split; [lia|]. split; [lia|]. intros Hr.
    destruct (H3 Hr) as (H4 & H5). split; [lia|].
    destruct H5 as [H5|[H5 H6]]; [left; exact H5|right].
    split; [lia|exact H6].
Qed.

(** X18. The wait never returns early: when [sleep_until_host] returns, the
    stop flag was just read as down, or the clock reading it made last is at
    or past the target. *)
Theorem sleep_until_host_not_early (fuel : nat) (target : Z) (w : World) :
  let r := sleep_until_host tb env fuel target w in
  snd r = true ->
  g_keep_running env (flag_reads (fst r) - 1) = false
  \/ ((clock_reads w < clock_reads (fst r))%nat
      /\ target
         <= wrap64 (mach_absolute_time env (clock_reads (fst r) - 1))).
Proof.
  cbv zeta. intros Hr.
  destruct (sleep_until_host_spec fuel target w) as (_ & _ & H).
  exact (proj2 (H Hr)).
Qed.

(** X19. The wait ends: if the [j]-th clock reading from now is at or past
    the target, [sleep_until_host] returns within [j + 1] passes of its
    loop, whatever the flag and the earlier readings are. *)
Theorem sleep_until_host_wakes (j : nat) (target : Z) (w : World) :
  target <= wrap64 (mach_absolute_time env (clock_reads w + j)) ->
  snd (sleep_until_host tb env (S j) target w) = true.
Proof.
  revert w. induction j as [|j IH]; intros w Ht; rewrite sleep_until_host_S;
    unfold read_g_keep_running, now_host;
    destruct (g_keep_running env (flag_reads w)); cbn [negb];
    try reflexivity; cbn [clock_reads flag_reads];
    destruct (Z.leb_spec target
                (wrap64 (mach_absolute_time env (clock_reads w))))
      as [Hreached|Hnot]; try reflexivity.
  - rewrite Nat.add_0_r in Ht. lia.
  - match goal with
    | |- context [sleep_until_host tb env (S j) target ?w'] =>
        set (w3 := w');
        assert (Hw3 : clock_reads w3 = S (clock_reads w))
          by (subst w3;
              repeat match goal with
                     | |- context [if ?c then _ else _] => destruct c
                     end; reflexivity)
    end.
    apply IH. rewrite Hw3.
    replace (S (clock_reads w) + j)%nat with (clock_reads w + S j)%nat by lia.
    exact Ht.
Qed.

(** What the wait adds to the trace. *)
Lemma sleep_until_host_trace (fuel : nat) (target : Z) (w : World) :
  exists requests,
    trace (fst (sleep_until_host tb env fuel target w))
    = trace w ++ requests
    /\ Forall valid_request requests
    /\ (List.length requests <= fuel)%nat.
Proof.
  revert w. induction fuel as [|fuel IH]; intros w; cbn [sleep_until_host].
  - exists []. cbn [fst]. rewrite app_nil_r.
    split; [reflexivity|]. split; [constructor|cbn; lia].
  - unfold read_g_keep_running, now_host.
    destruct (g_keep_running env (flag_reads w)); cbn [negb].
    2:{ exists []. cbn [fst trace]. rewrite app_nil_r.
        split; [reflexivity|]. split; [constructor|cbn; lia]. }
    cbn [clock_reads flag_reads trace sends].
    destruct (target <=? wrap64 (mach_absolute_time env (clock_reads w))).
    { exists []. cbn [fst trace]. rewrite app_nil_r.
      split; [reflexivity|]. split; [constructor|cbn; lia]. }
    set (remaining_ns := host_to_ns tb _).
    assert (Hrem : 0 <= remaining_ns < 2 ^ 64)
      by (unfold remaining_ns, host_to_ns; apply wrap64_range).
    destruct (Z.ltb_spec 2000000 remaining_ns) as [Hlong|Hshort].
    + match goal with
      | |- context [sleep_until_host tb env fuel target ?w'] =>
          destruct (IH w') as (requests & Htr & Hok & Hlen)
      end.
      rewrite Htr. cbn [emit trace].
      eexists (_ :: requests). rewrite <- app_assoc. cbn [app].
      split; [reflexivity|]. split; [|cbn [List.length]; lia].
      constructor; [|exact Hok]. cbn [valid_request].
      rewrite wrap64_small by (unfold is_u64; lia).
      unfold INT64_MAX. split.
      * split; [apply Z.div_pos; lia|].
        apply Z.lt_le_pred. apply Z.div_lt_upper_bound; lia.
      * apply Z.mod_pos_bound. lia.
    + destruct (Z.ltb_spec 100000 remaining_ns) as [Hmid|Hspin].
      * match goal with
        | |- context [sleep_until_host tb env fuel target ?w'] =>
            destruct (IH w') as (requests & Htr & Hok & Hlen)
        end.
        rewrite Htr. cbn [emit trace].
        eexists (_ :: requests). rewrite <- app_assoc. cbn [app].
        split; [reflexivity|]. split; [|cbn [List.length]; lia].
        constructor; [|exact Hok]. cbn [valid_request].
        unfold INT64_MAX. split; [lia|].
        split; [apply Z.div_pos; lia|].
        apply Z.div_lt_upper_bound; lia.
      * match goal with
        | |- context [sleep_until_host tb env fuel target ?w'] =>
            destruct (IH w') as (requests & Htr & Hok & Hlen)
        end.
        exists requests. rewrite Htr. cbn [trace].
        split; [reflexivity|]. split; [exact Hok|lia].
Qed.

(** X20. What the wait asks of [nanosleep]: it adds only sleep requests to
    the trace, at most one for each pass of its loop, and each is a valid
    [timespec], seconds not negative and nanoseconds below 10^9. *)
Theorem sleep_until_host_requests (fuel : nat) (target : Z) (w : World) :
  exists requests,
    trace (fst (sleep_until_host tb env fuel target w))
    = trace w ++ requests
    /\ Forall valid_request requests
    /\ (List.length requests <= fuel)%nat.
Proof. exact (sleep_until_host_trace fuel target w). Qed.

End Sleep.

Lemma sleep_until_host_not_early_witness :
  g_keep_running late_env
    (flag_reads (fst (sleep_until_host timebase_arm64 late_env 5 10000000
                        boot)) - 1) = false
  \/ ((clock_reads boot
       < clock_reads (fst (sleep_until_host timebase_arm64 late_env 5
                             10000000 boot)))%nat
      /\ 10000000
         <= wrap64 (mach_absolute_time late_env
                      (clock_reads
                         (fst (sleep_until_host timebase_arm64 late_env 5
                                 10000000 boot)) - 1))).
Proof.
  apply (sleep_until_host_not_early timebase_arm64 late_env 5 10000000 boot).
  vm_compute. reflexivity.
Defined.

Lemma sleep_until_host_wakes_witness :
  snd (sleep_until_host timebase_arm64 late_env 3 10000000 boot) = true.
Proof.
  apply (sleep_until_host_wakes timebase_arm64 late_env 2 10000000 boot).
  vm_compute. discriminate.
Defined.

End SleepProperties.

(** ** The transmitter's bookkeeping *)

Module LoopProperties.
Import MidiPulse Transmitter.

Lemma filter_accepted_requests kind requests :
  Forall valid_request requests -> filter (accepted kind) requests = [].
Proof.
  induction 1 as [|e requests He _ IH]; [reflexivity|].
  destruct e; cbn [valid_request] in He; try contradiction.
  cbn [filter accepted]. exact IH.
Qed.

Section Loop.
Variable ld : float_format.
Variable tb : mach_timebase_info_data_t.
Variable env : Env.

Lemma filter_accepted_stats_lines kind stats n :
  filter (accepted kind) (stats_lines ld stats n) = [].
Proof. unfold stats_lines. destruct (_ =? 0); reflexivity. Qed.

Section Dispatch.
Variable cfg : Config.t.
Variable sched : Schedule.
Variable start_host : Z.
Variable sleep_fuel : nat.
Hypothesis channel_ok : 0 <= channel_zero_based sched < 16.

(** The ledger of a stretch of the trace: the note-ons and note-offs the
    transport accepted in it. *)
Let ons (new : list Event) := accepted_note_ons new.
Let offs (new : list Event) := accepted_note_offs new.
Let held (l : Loop) : nat := if note_is_on l then 1%nat else 0%nat.

Lemma on_accepted t d1 d2 r :
  accepted 0x90 (MIDISend t (wrap8 (Z.lor 0x90 (channel_zero_based sched)))
                   d1 d2 r) = (r =? 0)
  /\ accepted 0x80 (MIDISend t (wrap8 (Z.lor 0x90 (channel_zero_based sched)))
                      d1 d2 r) = false.
Proof.
  cbn [accepted]. rewrite SchedulerProperties.status_nibble by auto. split; reflexivity.
Qed.

Lemma off_accepted t d1 d2 r :
  accepted 0x80 (MIDISend t (wrap8 (Z.lor 0x80 (channel_zero_based sched)))
                   d1 d2 r) = (r =? 0)
  /\ accepted 0x90 (MIDISend t (wrap8 (Z.lor 0x80 (channel_zero_based sched)))
                      d1 d2 r) = false.
Proof.
  cbn [accepted]. rewrite SchedulerProperties.status_nibble by auto. split; reflexivity.
Qed.

Lemma controller_accepted kind t d1 d2 r :
  kind = 0x80 \/ kind = 0x90 ->
  accepted kind (MIDISend t (wrap8 (Z.lor 0xB0 (channel_zero_based sched)))
                   d1 d2 r) = false.
Proof.
  intros Hk. cbn [accepted]. rewrite SchedulerProperties.status_nibble by auto.
  destruct Hk as [-> | ->]; reflexivity.
Qed.

(** One pass of the body, from a state with no note held. *)
Lemma loop_body_account i l l' r :
  note_is_on l = false ->
  loop_body ld tb env cfg sched start_host sleep_fuel i l = (l', r) ->
  exists new,
    trace (world l') = trace (world l) ++ new
    /\ ons new = (offs new + held l')%nat
    /\ (ons new <= 1)%nat
    /\ sent_notes l'
       = (if (0 <? ons new)%nat then wrap64 (sent_notes l + 1)
          else sent_notes l)
    /\ JitterStats.count (stats l')
       = (if (0 <? ons new)%nat then wrap64 (JitterStats.count (stats l) + 1)
          else JitterStats.count (stats l))
    /\ (r = None -> note_is_on l' = false /\ ons new = 1%nat)
    /\ (note_is_on l' = true -> r = Some send_failed).
Proof.
  intros Hoff. unfold loop_body.
  set (target := if _ <? _ then _ else _).
  destruct (SleepProperties.sleep_until_host_trace tb env sleep_fuel target
              (world l)) as (requests & Hs & Hreq & _).
  destruct (sleep_until_host tb env sleep_fuel target (world l)) as [w1 ret].
  cbn [fst] in Hs.
  pose proof (filter_accepted_requests 0x90 requests Hreq) as Hon0.
  pose proof (filter_accepted_requests 0x80 requests Hreq) as Hoff0.
  assert (Hquiet : ons requests = 0%nat /\ offs requests = 0%nat).
  { unfold ons, offs, accepted_note_ons, accepted_note_offs.
    rewrite Hon0, Hoff0. split; reflexivity. }
  destruct ret; cbn [negb].
  2:{ intros E; inversion E; subst. exists requests.
      unfold held. cbn [with_world world note_is_on sent_notes stats trace].
      rewrite Hoff. destruct Hquiet as [-> ->]. cbn.
      repeat split; try assumption; try lia; try congruence. }
  unfold read_g_keep_running.
  destruct (g_keep_running env (flag_reads w1)); cbn [negb].
  2:{ intros E; inversion E; subst. exists requests.
      unfold held. cbn [with_world world note_is_on sent_notes stats trace].
      rewrite Hoff. destruct Hquiet as [-> ->]. cbn.
      repeat split; try assumption; try lia; try congruence. }
  unfold now_host, send_short_at. cbn [sends trace clock_reads flag_reads].
  destruct (MIDISend_status env (sends w1) =? 0) eqn:Hr1; cbn [negb].
  2:{ intros E; inversion E; subst. eexists.
      unfold held.
      cbn [with_world world note_is_on sent_notes stats trace emit].
      rewrite Hs, <- !app_assoc. split; [reflexivity|].
      rewrite Hoff.
      unfold ons, offs, accepted_note_ons, accepted_note_offs.
      rewrite !filter_app, Hon0, Hoff0. cbn [app filter].
      rewrite (proj1 (on_accepted _ _ _ _)), (proj2 (on_accepted _ _ _ _)).
      rewrite Hr1. cbn.
      repeat split; try lia; try congruence. }
  set (l1 := if Config.verbose cfg then _ else _).
  set (l2 := if (_ && _)%bool then _ else _).
  assert (H1 : exists extra,
             trace (world l1)
             = trace (world l) ++ requests
                 ++ MIDISend (on_target_of sched start_host i)
                      (wrap8 (Z.lor 0x90 (channel_zero_based sched)))
                      (note sched) (velocity sched)
                      (MIDISend_status env (sends w1)) :: extra
             /\ (forall kind, filter (accepted kind) extra = [])
             /\ note_is_on l1 = true
             /\ sent_notes l1 = wrap64 (sent_notes l + 1)
             /\ JitterStats.count (stats l1)
                = wrap64 (JitterStats.count (stats l) + 1)).
  { unfold l1. destruct (Config.verbose cfg);
      cbn [with_world world trace emit note_is_on sent_notes stats
           stats_add JitterStats.count];
      rewrite Hs, <- !app_assoc; cbn [app]; eexists;
      (split; [reflexivity|]); repeat split; intros; reflexivity. }
  assert (H2 : exists extra,
             trace (world l2)
             = trace (world l) ++ requests
                 ++ MIDISend (on_target_of sched start_host i)
                      (wrap8 (Z.lor 0x90 (channel_zero_based sched)))
                      (note sched) (velocity sched)
                      (MIDISend_status env (sends w1)) :: extra
             /\ (forall kind, filter (accepted kind) extra = [])
             /\ note_is_on l2 = true
             /\ sent_notes l2 = wrap64 (sent_notes l + 1)
             /\ JitterStats.count (stats l2)
                = wrap64 (JitterStats.count (stats l) + 1)).
  { unfold l2. destruct (_ && _)%bool; [|exact H1].
    destruct H1 as (extra & Ht & Hq & Hn & Hsn & Hc).
    unfold stats_print. cbn [world trace note_is_on sent_notes stats].
    rewrite Ht, <- !app_assoc. cbn [app]. eexists.
    split; [reflexivity|]. split; [|auto].
    intros kind. rewrite filter_app, Hq, filter_accepted_stats_lines.
    reflexivity. }
  clearbody l2. clear H1 l1.
  destruct H2 as (extra & Ht & Hq & Hn & Hsn & Hc).
  cbn [sends trace clock_reads flag_reads].
  destruct (MIDISend_status env (sends (world l2)) =? 0) eqn:Hr2;
    cbn [negb]; intros E; inversion E; subst; clear E; eexists;
    unfold held;
    cbn [with_world world note_is_on sent_notes stats trace emit];
    rewrite Ht, <- !app_assoc; cbn [app];
    (split; [reflexivity|]);
    rewrite ?Hn;
    unfold ons, offs, accepted_note_ons, accepted_note_offs;
    rewrite !filter_app, Hon0, Hoff0; cbn [app filter];
    rewrite (proj1 (on_accepted _ _ _ _)), (proj2 (on_accepted _ _ _ _));
    rewrite Hr1; rewrite !filter_app, !Hq; cbn [app filter];
    rewrite (proj1 (off_accepted _ _ _ _)), (proj2 (off_accepted _ _ _ _));
    rewrite Hr2; cbn;
    repeat split; try lia; try congruence.
Qed.

(** One pass of the loop: its test, then its body. *)
Lemma iteration_account i l l' r :
  note_is_on l = false ->
  iteration ld tb env cfg sched start_host sleep_fuel i l = (l', r) ->
  exists new,
    trace (world l') = trace (world l) ++ new
    /\ ons new = (offs new + held l')%nat
    /\ (ons new <= 1)%nat
    /\ sent_notes l'
       = (if (0 <? ons new)%nat then wrap64 (sent_notes l + 1)
          else sent_notes l)
    /\ JitterStats.count (stats l')
       = (if (0 <? ons new)%nat then wrap64 (JitterStats.count (stats l) + 1)
          else JitterStats.count (stats l))
    /\ (r = None -> note_is_on l' = false /\ ons new = 1%nat)
    /\ (note_is_on l' = true -> r = Some send_failed).
Proof.
  intros Hoff. unfold iteration, read_g_keep_running.
  destruct (g_keep_running env (flag_reads (world l))); cbn [negb].
  2:{ intros E; inversion E; subst. exists [].
      unfold held. cbn [with_world world note_is_on sent_notes stats trace].
      rewrite Hoff, app_nil_r. cbn.
      repeat split; try lia; try congruence. }
  destruct ((Config.count cfg =? 0) || (i <? Config.count cfg)); cbn [negb].
  2:{ intros E; inversion E; subst. exists [].
      unfold held. cbn [with_world world note_is_on sent_notes stats trace].
      rewrite Hoff, app_nil_r. cbn.
      repeat split; try lia; try congruence. }
  intros E. apply loop_body_account in E; [|exact Hoff]. exact E.
Qed.

Lemma ledger_app a b :
  ons (a ++ b) = (ons a + ons b)%nat /\ offs (a ++ b) = (offs a + offs b)%nat.
Proof.
  unfold ons, offs, accepted_note_ons, accepted_note_offs.
  rewrite !filter_app, !length_app. split; reflexivity.
Qed.

(** The loop, from a state with no note held. *)
Lemma dispatch_loop_account fuel : forall i l l' e,
  note_is_on l = false ->
  dispatch_loop ld tb env cfg sched start_host sleep_fuel fuel i l = (l', e) ->
  exists new,
    trace (world l') = trace (world l) ++ new
    /\ ons new = (offs new + held l')%nat
    /\ sent_notes l'
       = (if (0 <? ons new)%nat
          then wrap64 (sent_notes l + Z.of_nat (ons new))
          else sent_notes l)
    /\ JitterStats.count (stats l')
       = (if (0 <? ons new)%nat
          then wrap64 (JitterStats.count (stats l) + Z.of_nat (ons new))
          else JitterStats.count (stats l))
    /\ (note_is_on l' = true -> e = send_failed).
Proof.
  induction fuel as [|fuel IH]; intros i l l' e Hoff; cbn [dispatch_loop].
  - intros E; inversion E; subst. exists [].
    unfold held. rewrite Hoff, app_nil_r. cbn.
    repeat split; try lia; try congruence.
  - destruct (iteration ld tb env cfg sched start_host sleep_fuel i l)
      as [l1 r] eqn:Hit.
    apply iteration_account in Hit; [|exact Hoff].
    destruct Hit as (new1 & Ht1 & Hb1 & Hle1 & Hs1 & Hc1 & Hn1 & Hf1).
    destruct r as [e1|].
    + intros E; inversion E; subst. exists new1.
      split; [exact Ht1|]. split; [exact Hb1|].
      assert (Hcase : ons new1 = 0%nat \/ ons new1 = 1%nat) by lia.
      destruct Hcase as [H0|H1].
      * rewrite H0 in *. cbn in Hs1, Hc1 |- *.
        repeat split; try assumption.
        intros Hh. specialize (Hf1 Hh). congruence.
      * rewrite H1 in *. cbn in Hs1, Hc1 |- *.
        repeat split; try assumption.
        intros Hh. specialize (Hf1 Hh). congruence.
    + destruct (Hn1 eq_refl) as [Hoff1 Hone]. intros E.
      apply IH in E; [|exact Hoff1].
      destruct E as (new2 & Ht2 & Hb2 & Hs2 & Hc2 & Hf2).
      exists (new1 ++ new2). rewrite Ht2, Ht1, <- app_assoc.
      split; [reflexivity|].
      destruct (ledger_app new1 new2) as [-> ->].
      assert (Hheld1 : held l1 = 0%nat) by (unfold held; rewrite Hoff1; auto).
      rewrite Hheld1 in Hb1.
      split; [lia|]. rewrite Hone in *. cbn in Hs1, Hc1.
      rewrite Hs1 in Hs2. rewrite Hc1 in Hc2.
      change (0 <? 1 + ons new2)%nat with true. cbv iota.
      split; [|split; [|exact Hf2]].
      * rewrite Hs2. destruct (Nat.ltb_spec 0 (ons new2)).
        -- rewrite wrap64_add_l. f_equal. lia.
        -- f_equal. lia.
      * rewrite Hc2. destruct (Nat.ltb_spec 0 (ons new2)).
        -- rewrite wrap64_add_l. f_equal. lia.
        -- f_equal. lia.
Qed.

End Dispatch.

Lemma dispatch_account cfg sched fuel sleep_fuel w :
  0 <= channel_zero_based sched < 16 ->
  let result := dispatch ld tb env cfg sched fuel sleep_fuel w in
  let l := fst result in
  exists new,
    trace (world l) = trace w ++ new
    /\ sent_notes l = wrap64 (Z.of_nat (accepted_note_ons new))
    /\ JitterStats.count (stats l) = sent_notes l
    /\ accepted_note_ons new
       = (accepted_note_offs new + if note_is_on l then 1 else 0)%nat
    /\ (note_is_on l = true -> snd result = send_failed).
Proof.
  intros Hch. cbv zeta. unfold dispatch, now_host.
  match goal with
  | |- context [dispatch_loop ld tb env cfg sched ?s sleep_fuel fuel 0 ?l0] =>
      destruct (dispatch_loop ld tb env cfg sched s sleep_fuel fuel 0 l0)
        as [l e] eqn:Hd;
      apply dispatch_loop_account in Hd; [|exact Hch|reflexivity]
  end.
  destruct Hd as (new & Ht & Hb & Hs & Hc & Hf).
  cbn [world trace sent_notes stats stats_init JitterStats.count] in *.
  exists new. cbn [fst snd]. split; [exact Ht|].
  assert (Hsent : sent_notes l = wrap64 (Z.of_nat (accepted_note_ons new))).
  { rewrite Hs. destruct (Nat.ltb_spec 0 (accepted_note_ons new)).
    - reflexivity.
    - replace (accepted_note_ons new) with 0%nat by lia. reflexivity. }
  split; [exact Hsent|]. split; [|split; [exact Hb|exact Hf]].
  rewrite Hsent, Hc. destruct (Nat.ltb_spec 0 (accepted_note_ons new)).
  - reflexivity.
  - replace (accepted_note_ons new) with 0%nat by lia. reflexivity.
Qed.

(** X21. The loop's bookkeeping: the counter [sent_notes] and the sample
    count of the statistics are both the number of note-ons the transport
    accepted; [note_is_on] is up exactly when one more note-on than note-offs
    was accepted, and that only when the loop was left on a failed send. *)
Theorem dispatch_ledger (cfg : Config.t) (sched : Schedule)
    (fuel sleep_fuel : nat) (w : World) :
  0 <= channel_zero_based sched < 16 ->
  let result := dispatch ld tb env cfg sched fuel sleep_fuel w in
  let l := fst result in
  exists new,
    trace (world l) = trace w ++ new
    /\ sent_notes l = wrap64 (Z.of_nat (accepted_note_ons new))
    /\ JitterStats.count (stats l) = sent_notes l
    /\ accepted_note_ons new
       = (accepted_note_offs new + if note_is_on l then 1 else 0)%nat
    /\ (note_is_on l = true -> snd result = send_failed).
Proof. exact (dispatch_account cfg sched fuel sleep_fuel w). Qed.

End Loop.

Lemma dispatch_ledger_witness :
  let result := dispatch x87_extended timebase_arm64 late_env
                  (example_config (double_of_Z 500) gate_quarter 4)
                  schedule_500ms 10 100 boot in
  exists new,
    trace (world (fst result)) = trace boot ++ new
    /\ sent_notes (fst result) = wrap64 (Z.of_nat (accepted_note_ons new))
    /\ JitterStats.count (stats (fst result)) = sent_notes (fst result)
    /\ accepted_note_ons new
       = (accepted_note_offs new
          + if note_is_on (fst result) then 1 else 0)%nat
    /\ (note_is_on (fst result) = true -> snd result = send_failed).
Proof.
  apply (dispatch_ledger x87_extended timebase_arm64 late_env
           (example_config (double_of_Z 500) gate_quarter 4)
           schedule_500ms 10 100 boot).
  cbn. lia.
Defined.

End LoopProperties.

(** ** The end of a run of the transmitter *)

Module ShutdownProperties.
Import MidiPulse Transmitter.

Lemma send_results_app a b :
  send_results (a ++ b) = send_results a ++ send_results b.
Proof. unfold send_results. apply flat_map_app. Qed.

Lemma note_off_sends_app a b :
  note_off_sends (a ++ b) = (note_off_sends a + note_off_sends b)%nat.
Proof.
  unfold note_off_sends.
  rewrite SchedulerProperties.sends_of_app, filter_app, length_app.
  reflexivity.
Qed.

Lemma accepted_note_ons_app a b :
  accepted_note_ons (a ++ b)
  = (accepted_note_ons a + accepted_note_ons b)%nat.
Proof.
  unfold accepted_note_ons. rewrite filter_app, length_app. reflexivity.
Qed.

(** An accepted note-off is a note-off that was sent. *)
Lemma accepted_offs_sent tr :
  (accepted_note_offs tr <= note_off_sends tr)%nat.
Proof.
  unfold accepted_note_offs, note_off_sends.
  induction tr as [|e tr IH]; [cbn; lia|].
  destruct e; cbn [filter accepted sends_of flat_map app]; try exact IH.
  fold (sends_of tr). unfold is_note_off at 1. cbn [msg_status].
  destruct (Z.land status 240 =? 128); cbn [andb].
  - destruct (result =? 0); cbn [List.length]; lia.
  - exact IH.
Qed.

Section Run.
Variable ld : float_format.
Variable tb : mach_timebase_info_data_t.
Variable env : Env.

(** What [main] sends after the loop, and what the transport answered. *)
Lemma shutdown_trace sched l :
  let ch := channel_zero_based sched in
  exists t0 r0 t1 r1 t2 r2,
    trace (world (shutdown ld env sched l))
    = trace (world l)
      ++ (if note_is_on l
          then [MIDISend t0 (wrap8 (Z.lor 0x80 ch)) (note sched) 0 r0]
          else [])
      ++ [MIDISend t1 (wrap8 (Z.lor 0xB0 ch)) 123 0 r1;
          MIDISend t2 (wrap8 (Z.lor 0xB0 ch)) 120 0 r2]
      ++ stats_lines ld (stats l) (sent_notes l).
Proof.
  cbv zeta. unfold shutdown, now_host, send_short_at, stats_print.
  destruct (note_is_on l);
    cbn [world with_world trace snd sends clock_reads flag_reads stats
         sent_notes];
    rewrite <- !app_assoc; cbn [app].
  - repeat eapply ex_intro. reflexivity.
  - exists 0, 0. repeat eapply ex_intro. reflexivity.
Qed.

Lemma schedule_channel cfg sched :
  schedule ld tb cfg = Some sched ->
  channel_zero_based sched = wrap8 (Config.channel cfg - 1).
Proof.
  unfold schedule.
  match goal with
  | |- context [Float.llround ?x] => destruct (Float.llround x)
  end; [|discriminate].
  cbv beta iota zeta.
  match goal with
  | |- context [Float.llround ?x] => destruct (Float.llround x)
  end; [|discriminate].
  intros E; inversion E; subst. reflexivity.
Qed.

(** X22. However the loop ended, the run then sends all-notes-off (controller
    123) and all-sound-off (controller 120) on the configured channel as its
    last two messages, whatever the transport answers; and every note-on the
    transport accepted in the run has its note-off sent. *)
Theorem run_ends_with_notes_off (cfg : Config.t) (fuel sleep_fuel : nat)
    (w : World) (l : Loop) (e : Exit) :
  1 <= Config.channel cfg <= 16 ->
  run ld tb env cfg fuel sleep_fuel w = Some (l, e) ->
  let status := wrap8 (Z.lor 0xB0 (Config.channel cfg - 1)) in
  exists new before t1 r1 t2 r2,
    trace (world l) = trace w ++ new
    /\ send_results new
       = before
         ++ [({| msg_timestamp := t1; msg_status := status;
                 msg_data1 := 123; msg_data2 := 0 |}, r1);
             ({| msg_timestamp := t2; msg_status := status;
                 msg_data1 := 120; msg_data2 := 0 |}, r2)]
    /\ (accepted_note_ons new <= note_off_sends new)%nat.
Proof.
  intros Hch. unfold run.
  destruct (schedule ld tb cfg) as [sched|] eqn:Hsched; [|discriminate].
  apply schedule_channel in Hsched.
  assert (Hzero : channel_zero_based sched = Config.channel cfg - 1).
  { rewrite Hsched. unfold wrap8. apply Z.mod_small. lia. }
  assert (Hok : 0 <= channel_zero_based sched < 16) by lia.
  destruct (LoopProperties.dispatch_account ld tb env cfg sched fuel
              sleep_fuel w Hok) as (new & Ht & _ & _ & Hb & _).
  cbv zeta in Ht, Hb.
  destruct (dispatch ld tb env cfg sched fuel sleep_fuel w) as [l0 e0].
  cbn [fst] in Ht, Hb.
  intros E; inversion E; subst l e; clear E. cbv zeta.
  destruct (shutdown_trace sched l0) as (t0 & r0 & t1 & r1 & t2 & r2 & Hsh).
  cbv zeta in Hsh. rewrite Hzero in Hsh.
  set (off := if note_is_on l0 then _ else _) in Hsh.
  exists (new ++ off
            ++ [MIDISend t1 (wrap8 (Z.lor 0xB0 (Config.channel cfg - 1)))
                  123 0 r1;
                MIDISend t2 (wrap8 (Z.lor 0xB0 (Config.channel cfg - 1)))
                  120 0 r2]
            ++ stats_lines ld (stats l0) (sent_notes l0)).
  exists (send_results new ++ send_results off), t1, r1, t2, r2.
  split; [|split].
  - rewrite Hsh, Ht, <- !app_assoc. reflexivity.
  - assert (Hlines : send_results
                       (stats_lines ld (stats l0) (sent_notes l0)) = []).
    { unfold stats_lines. destruct (_ =? 0); reflexivity. }
    rewrite !send_results_app, Hlines, app_nil_r, <- !app_assoc.
    reflexivity.
  - rewrite !accepted_note_ons_app, !note_off_sends_app.
    pose proof (accepted_offs_sent new) as Hle.
    assert (Hlines : accepted_note_ons
                       (stats_lines ld (stats l0) (sent_notes l0)) = 0%nat
                     /\ note_off_sends
                          (stats_lines ld (stats l0) (sent_notes l0)) = 0%nat).
    { unfold accepted_note_ons, note_off_sends.
      rewrite LoopProperties.filter_accepted_stats_lines,
        SchedulerProperties.stats_lines_no_send.
      split; reflexivity. }
    assert (Hcc : forall t1 d1 r1 t2 d2 r2,
               let cc := wrap8 (Z.lor 0xB0 (Config.channel cfg - 1)) in
               accepted_note_ons
                 [MIDISend t1 cc d1 0 r1; MIDISend t2 cc d2 0 r2] = 0%nat
               /\ note_off_sends
                    [MIDISend t1 cc d1 0 r1; MIDISend t2 cc d2 0 r2] = 0%nat).
    { intros. subst cc. unfold accepted_note_ons, note_off_sends.
      cbn [filter accepted sends_of flat_map app]. unfold is_note_off.
      cbn [msg_status].
      rewrite SchedulerProperties.status_nibble by lia.
      split; reflexivity. }
    assert (Hclose : accepted_note_ons off = 0%nat
                     /\ note_off_sends off
                        = if note_is_on l0 then 1%nat else 0%nat).
    { subst off. unfold accepted_note_ons, note_off_sends.
      destruct (note_is_on l0); [|split; reflexivity].
      cbn [filter accepted sends_of flat_map app]. unfold is_note_off.
      cbn [msg_status].
      rewrite SchedulerProperties.status_nibble by lia.
      split; reflexivity. }
    destruct Hclose as [-> ->]. destruct Hlines as [-> ->].
    destruct (Hcc t1 123 r1 t2 120 r2) as [-> ->]. lia.
Qed.

End Run.

(** Four notes at 500 ms against a clock that is always late. *)
Lemma run_ends_with_notes_off_witness :
  let cfg := example_config (double_of_Z 500) gate_quarter 4 in
  let d := dispatch x87_extended timebase_arm64 late_env cfg schedule_500ms
             10 100 boot in
  let status := wrap8 (Z.lor 0xB0 (Config.channel cfg - 1)) in
  exists new before t1 r1 t2 r2,
    trace (world (shutdown x87_extended late_env schedule_500ms (fst d)))
    = trace boot ++ new
    /\ send_results new
       = before
         ++ [({| msg_timestamp := t1; msg_status := status;
                 msg_data1 := 123; msg_data2 := 0 |}, r1);
             ({| msg_timestamp := t2; msg_status := status;
                 msg_data1 := 120; msg_data2 := 0 |}, r2)]
    /\ (accepted_note_ons new <= note_off_sends new)%nat.
Proof.
  cbv zeta.
  apply (run_ends_with_notes_off x87_extended timebase_arm64 late_env
           (example_config (double_of_Z 500) gate_quarter 4) 10 100 boot
           (shutdown x87_extended late_env schedule_500ms
              (fst (dispatch x87_extended timebase_arm64 late_env
                      (example_config (double_of_Z 500) gate_quarter 4)
                      schedule_500ms 10 100 boot)))
           (snd (dispatch x87_extended timebase_arm64 late_env
                   (example_config (double_of_Z 500) gate_quarter 4)
                   schedule_500ms 10 100 boot))).
  - cbn. lia.
  - vm_compute. reflexivity.
Defined.

End ShutdownProperties.

(** ** Matching an endpoint name *)

Module CStringProperties.
Import CString.

Lemma strcasecmp_eq_lower a : forall b,
  strcasecmp_eq a b = true <-> lower a = lower b.
Proof.
  induction a as [|x a IH]; intros [|y b]; cbn [strcasecmp_eq lower];
    try (split; [reflexivity|reflexivity]);
    try (split; discriminate).
  destruct (Ascii.eqb_spec (tolower x) (tolower y)) as [E|N].
  - rewrite IH, E. split; [intros ->; reflexivity|].
    intros H; inversion H; reflexivity.
  - split; [discriminate|]. intros H; inversion H; contradiction.
Qed.

Lemma match_run_le needle : forall h,
  (match_run h needle <= String.length needle)%nat.
Proof.
  induction needle as [|n needle IH]; intros h; cbn [match_run String.length];
    [lia|].
  destruct h as [|c h]; [lia|].
  destruct (Ascii.eqb (tolower c) (tolower n)); [|lia].
  specialize (IH h). lia.
Qed.

(** The inner loop runs to the end of the needle exactly when the needle is
    at the head of the text, the case of letters apart. *)
Lemma match_run_prefix needle : forall h,
  match_run h needle = String.length needle
  <-> exists mid post, h = (mid ++ post)%string /\ lower mid = lower needle.
Proof.
  induction needle as [|n needle IH]; intros h;
    cbn [match_run String.length lower].
  - split; [|reflexivity]. intros _. exists EmptyString, h.
    split; reflexivity.
  - destruct h as [|c h].
    + split; [discriminate|]. intros (mid & post & Hh & Hl).
      destruct mid; cbn in Hh, Hl; discriminate.
    + destruct (Ascii.eqb_spec (tolower c) (tolower n)) as [E|N].
      * split.
        -- intros H. injection H as H. apply IH in H.
           destruct H as (mid & post & -> & Hl).
           exists (String c mid), post. cbn [String.append lower].
           rewrite E, Hl. split; reflexivity.
        -- intros (mid & post & Hh & Hl).
           destruct mid as [|c' mid]; cbn [lower] in Hl; [discriminate|].
           cbn [String.append] in Hh. inversion Hh; subst.
           inversion Hl. f_equal. apply IH. exists mid, post.
           split; [reflexivity|assumption].
      * split; [discriminate|]. intros (mid & post & Hh & Hl).
        destruct mid as [|c' mid]; cbn [lower] in Hl; [discriminate|].
        cbn [String.append] in Hh. inversion Hh; subst.
        inversion Hl. contradiction.
Qed.

Lemma contains_from_spec needle : needle <> EmptyString -> forall haystack,
  contains_from haystack needle = true
  <-> exists pre mid post,
        haystack = (pre ++ (mid ++ post))%string /\ lower mid = lower needle.
Proof.
  intros Hne. induction haystack as [|c rest IH]; cbn [contains_from].
  - split; [discriminate|]. intros (pre & mid & post & Hh & Hl).
    destruct pre; [|discriminate]. destruct mid; [|discriminate].
    destruct needle; [congruence|discriminate].
  - destruct (Nat.eqb_spec (match_run (String c rest) needle)
                (String.length needle)) as [E|N].
    + split; [|reflexivity]. intros _. apply match_run_prefix in E.
      destruct E as (mid & post & Hh & Hl).
      exists EmptyString, mid, post. split; assumption.
    + rewrite IH. split.
      * intros (pre & mid & post & -> & Hl).
        exists (String c pre), mid, post. split; [reflexivity|assumption].
      * intros (pre & mid & post & Hh & Hl).
        destruct pre as [|c' pre].
        -- exfalso. apply N. apply match_run_prefix.
           exists mid, post. split; assumption.
        -- cbn [String.append] in Hh. inversion Hh; subst.
           exists pre, mid, post. split; [reflexivity|assumption].
Qed.

Lemma contains_spec haystack needle :
  contains_case_insensitive haystack needle = true
  <-> exists pre mid post,
        haystack = (pre ++ (mid ++ post))%string /\ lower mid = lower needle.
Proof.
  destruct needle as [|n needle].
  - split; [|reflexivity]. intros _.
    exists EmptyString, EmptyString, haystack. split; reflexivity.
  - apply contains_from_spec. discriminate.
Qed.

(** X23. [contains_case_insensitive] is the substring test with the case of
    the letters A to Z left out of account: it answers true exactly when the
    text can be cut in three so that the middle part, in lower case, is the
    needle in lower case.  The empty needle is in every text, the empty text
    too. *)
Theorem contains_case_insensitive_substring (haystack needle : string) :
  contains_case_insensitive haystack needle = true
  <-> exists pre mid post,
        haystack = (pre ++ (mid ++ post))%string /\ lower mid = lower needle.
Proof. exact (contains_spec haystack needle). Qed.

(** A name that equals the text, the case of letters apart, contains it. *)
Lemma strcasecmp_eq_contains name spec :
  strcasecmp_eq name spec = true ->
  contains_case_insensitive name spec = true.
Proof.
  intros H. apply contains_spec. apply strcasecmp_eq_lower in H.
  exists EmptyString, name, EmptyString. cbn [String.append].
  split; [|exact H].
  clear H. induction name as [|c name IH]; [reflexivity|].
  cbn [String.append]. f_equal. exact IH.
Qed.

End CStringProperties.

(** ** Choosing the endpoint *)

Module DeviceProperties.
Import CString Device CStringProperties.

(** A digit is no white space and no sign. *)
Lemma isdigit_plain c :
  isdigit c = true ->
  isspace c = false
  /\ (Ascii.nat_of_ascii c =? 45)%nat = false
  /\ (Ascii.nat_of_ascii c =? 43)%nat = false.
Proof.
  destruct c as [[] [] [] [] [] [] [] []]; vm_compute;
    intros H; try discriminate H; repeat split.
Qed.

Lemma scan_digits_all s : forall acc,
  all_digits s = true -> snd (scan_digits s acc) = EmptyString.
Proof.
  induction s as [|c s IH]; intros acc; cbn [all_digits scan_digits];
    [reflexivity|].
  destruct (isdigit c); [|discriminate]. apply IH.
Qed.

(** What the scanner makes of a text of digits. *)
Lemma scan_number_digits s :
  s <> EmptyString -> all_digits s = true ->
  scan_number s
  = {| negative := false; magnitude := decimal s; converted := true;
       rest := EmptyString |}.
Proof.
  intros Hne Hd. destruct s as [|c s]; [congruence|].
  pose proof Hd as Hd'. cbn [all_digits] in Hd'.
  destruct (isdigit c) eqn:Hc; [|discriminate].
  destruct (isdigit_plain c Hc) as (Hsp & Hm & Hp).
  unfold scan_number. cbn [skip_spaces]. rewrite Hsp, Hm, Hp, Hc.
  pose proof (scan_digits_all (String c s) 0 Hd) as Hr.
  unfold decimal.
  destruct (scan_digits (String c s) 0) as [m r]. cbn [fst snd] in *.
  rewrite Hr. reflexivity.
Qed.

Lemma last_cons_any {A : Type} (x : A) (l : list A) (d : A) :
  last (x :: l) d = last l x.
Proof.
  revert x d. induction l as [|y l IH]; intros x d; [reflexivity|].
  change (last (x :: y :: l) d) with (last (y :: l) d).
  rewrite (IH y d), (IH y x). reflexivity.
Qed.

Section Search.
Variable spec : string.

(** The indices the search ends with point at endpoints that match. *)
Lemma search_sound : forall endpoints i st,
  let st' := search spec endpoints i st in
  (exact_found st' = true ->
   (exact_found st = true /\ exact_index st' = exact_index st)
   \/ exists name,
        (i <= exact_index st')%nat
        /\ nth (exact_index st' - i) endpoints None = Some name
        /\ strcasecmp_eq name spec = true)
  /\ (partial_found st' = true ->
      (partial_found st = true /\ partial_index st' = partial_index st)
      \/ exists name,
           (i <= partial_index st')%nat
           /\ nth (partial_index st' - i) endpoints None = Some name
           /\ contains_case_insensitive name spec = true).
Proof.
  induction endpoints as [|[name|] others IH]; intros i st; cbv zeta;
    cbn [search].
  - split; intros H; left; split; [exact H|reflexivity|exact H|reflexivity].
  - destruct (strcasecmp_eq name spec) eqn:He.
    + cbn [exact_found exact_index partial_found partial_index]. split.
      * intros _. right. exists name. rewrite Nat.sub_diag.
        split; [lia|]. split; [reflexivity|exact He].
      * intros H. left. split; [exact H|reflexivity].
    + destruct (contains_case_insensitive name spec) eqn:Hc.
      * match goal with
        | |- context [search spec others (S i) ?st1] =>
            specialize (IH (S i) st1)
        end.
        cbv zeta in IH.
        cbn [exact_found exact_index partial_found partial_index] in IH.
        destruct IH as [IH1 IH2]. split.
        -- intros H. destruct (IH1 H) as [Hl|(n & Hle & Hn & Hs)];
             [left; exact Hl|right].
           exists n. split; [lia|].
           replace (exact_index
                      (search spec others (S i)
                         {| exact_found := exact_found st;
                            exact_index := exact_index st;
                            partial_found := true; partial_index := i;
                            partial_count := partial_count st + 1 |}) - i)%nat
             with (S (exact_index
                        (search spec others (S i)
                           {| exact_found := exact_found st;
                              exact_index := exact_index st;
                              partial_found := true; partial_index := i;
                              partial_count := partial_count st + 1 |})
                      - S i))%nat by lia.
           split; [exact Hn|exact Hs].
        -- intros H. right. destruct (IH2 H) as [[_ Hl]|(n & Hle & Hn & Hs)].
           ++ exists name. rewrite Hl, Nat.sub_diag.
              split; [lia|]. split; [reflexivity|exact Hc].
           ++ exists n. split; [lia|].
              match goal with
              | |- nth (?j - i) _ _ = _ /\ _ =>
                  replace (j - i)%nat with (S (j - S i))%nat by lia
              end.
              split; [exact Hn|exact Hs].
      * specialize (IH (S i) st). cbv zeta in IH.
        destruct IH as [IH1 IH2]. split.
        -- intros H. destruct (IH1 H) as [Hl|(n & Hle & Hn & Hs)];
             [left; exact Hl|right].
           exists n. split; [lia|].
           match goal with
           | |- nth (?j - i) _ _ = _ /\ _ =>
               replace (j - i)%nat with (S (j - S i))%nat by lia
           end.
           split; [exact Hn|exact Hs].
        -- intros H. destruct (IH2 H) as [Hl|(n & Hle & Hn & Hs)];
             [left; exact Hl|right].
           exists n. split; [lia|].
           match goal with
           | |- nth (?j - i) _ _ = _ /\ _ =>
               replace (j - i)%nat with (S (j - S i))%nat by lia
           end.
           split; [exact Hn|exact Hs].
  - specialize (IH (S i) st). cbv zeta in IH.
    destruct IH as [IH1 IH2]. split.
    + intros H. destruct (IH1 H) as [Hl|(n & Hle & Hn & Hs)];
        [left; exact Hl|right].
      exists n. split; [lia|].
      match goal with
      | |- nth (?j - i) _ _ = _ /\ _ =>
          replace (j - i)%nat with (S (j - S i))%nat by lia
      end.
      split; [exact Hn|exact Hs].
    + intros H. destruct (IH2 H) as [Hl|(n & Hle & Hn & Hs)];
        [left; exact Hl|right].
      exists n. split; [lia|].
      match goal with
      | |- nth (?j - i) _ _ = _ /\ _ =>
          replace (j - i)%nat with (S (j - S i))%nat by lia
      end.
      split; [exact Hn|exact Hs].
Qed.

(** The search stops at the first endpoint with the name. *)
Lemma search_exact name post : forall pre i st,
  no_exact_match spec pre ->
  strcasecmp_eq name spec = true ->
  let st' := search spec (pre ++ Some name :: post) i st in
  exact_found st' = true /\ exact_index st' = (i + List.length pre)%nat.
Proof.
  induction pre as [|[n|] pre IH]; intros i st Hno He; cbv zeta;
    cbn [app search List.length].
  - rewrite He. cbn. split; [reflexivity|lia].
  - rewrite (Hno n) by (left; reflexivity).
    assert (Hno' : no_exact_match spec pre)
      by (intros m Hm; apply Hno; right; exact Hm).
    destruct (contains_case_insensitive n spec);
      match goal with
      | |- context [search spec _ (S i) ?st1] =>
          destruct (IH (S i) st1 Hno' He) as [H1 H2]
      end; rewrite H1, H2; split; [reflexivity|lia|reflexivity|lia].
  - assert (Hno' : no_exact_match spec pre)
      by (intros m Hm; apply Hno; right; exact Hm).
    destruct (IH (S i) st Hno' He) as [H1 H2].
    rewrite H1, H2. split; [reflexivity|lia].
Qed.

(** Without an endpoint of the name, the search counts the endpoints that
    contain the text and keeps the last of them. *)
Lemma search_partial : forall endpoints i st,
  no_exact_match spec endpoints ->
  let st' := search spec endpoints i st in
  let found := partial_matches spec endpoints i in
  exact_found st' = exact_found st
  /\ partial_count st'
     = partial_count st + Z.of_nat (List.length found)
  /\ partial_found st'
     = (partial_found st || negb (Nat.eqb (List.length found) 0))%bool
  /\ partial_index st' = last (map fst found) (partial_index st).
Proof.
  induction endpoints as [|[n|] others IH]; intros i st Hno; cbv zeta;
    cbn [search partial_matches].
  - cbn. rewrite orb_false_r. repeat split; lia.
  - rewrite (Hno n) by (left; reflexivity).
    assert (Hno' : no_exact_match spec others)
      by (intros m Hm; apply Hno; right; exact Hm).
    destruct (contains_case_insensitive n spec).
    + match goal with
      | |- context [search spec _ (S i) ?st1] =>
          destruct (IH (S i) st1 Hno') as (H1 & H2 & H3 & H4)
      end.
      cbn [exact_found partial_count partial_found partial_index]
        in H1, H2, H3, H4.
      rewrite H1, H2, H3, H4. cbn [List.length map fst].
      rewrite last_cons_any, orb_true_r.
      repeat split; try reflexivity. lia.
    + exact (IH (S i) st Hno').
  - assert (Hno' : no_exact_match spec others)
      by (intros m Hm; apply Hno; right; exact Hm).
    exact (IH (S i) st Hno').
Qed.

Lemma partial_matches_nth : forall endpoints i j name,
  In (j, name) (partial_matches spec endpoints i) ->
  (i <= j)%nat /\ nth (j - i) endpoints None = Some name.
Proof.
  induction endpoints as [|[n|] others IH]; intros i j name;
    cbn [partial_matches]; [contradiction| |].
  - destruct (contains_case_insensitive n spec).
    + intros [E|Hin].
      * inversion E; subst. rewrite Nat.sub_diag. split; [lia|reflexivity].
      * destruct (IH _ _ _ Hin) as [Hle Hn]. split; [lia|].
        replace (j - i)%nat with (S (j - S i))%nat by lia. exact Hn.
    + intros Hin. destruct (IH _ _ _ Hin) as [Hle Hn]. split; [lia|].
      replace (j - i)%nat with (S (j - S i))%nat by lia. exact Hn.
  - intros Hin. destruct (IH _ _ _ Hin) as [Hle Hn]. split; [lia|].
    replace (j - i)%nat with (S (j - S i))%nat by lia. exact Hn.
Qed.

End Search.

Lemma nth_Some_nth_error {A : Type} (l : list (option A)) i (x : A) :
  nth i l None = Some x -> nth_error l i = Some (Some x).
Proof.
  revert i. induction l as [|y l IH]; intros [|i]; cbn;
    try discriminate; [congruence|apply IH].
Qed.

Lemma endpoint_name_at_nth endpoints i name :
  nth i endpoints None = Some name -> endpoint_name_at endpoints i = name.
Proof. unfold endpoint_name_at. intros ->. reflexivity. Qed.

(** X24. What [resolve_source] and [resolve_destination] answer is an
    endpoint that is there (the number of endpoints is an [unsigned long]):
    the index is within the list, the endpoint is available and has the name
    given back.  For a text of digits the index is its decimal value (the
    text is never taken as a name); otherwise the name contains the text,
    the case of letters apart. *)
Theorem resolve_sound (spec : string) (endpoints : Endpoints) (i : nat)
    (name : string) :
  Z.of_nat (List.length endpoints) < 2 ^ 64 ->
  resolve spec endpoints = resolved i name ->
  nth_error endpoints i = Some (Some name)
  /\ (if is_unsigned_integer (Some spec) then Z.of_nat i = decimal spec
      else contains_case_insensitive name spec = true).
Proof.
  intros Hcount. unfold resolve.
  destruct (Z.of_nat (List.length endpoints) =? 0); [discriminate|].
  destruct (is_unsigned_integer (Some spec)) eqn:Hnum.
  - assert (Hs : spec <> EmptyString /\ all_digits spec = true).
    { cbn [is_unsigned_integer] in Hnum.
      destruct spec; [discriminate|]. split; [discriminate|exact Hnum]. }
    destruct Hs as [Hne Hd]. unfold strtoul.
    rewrite (scan_number_digits spec Hne Hd). cbn [magnitude negative].
    assert (H0 : 0 <= decimal spec).
    { unfold decimal. clear.
      assert (G : forall s acc, 0 <= acc -> 0 <= fst (scan_digits s acc)).
      { induction s as [|c s IH]; intros acc Ha; cbn [scan_digits];
          [exact Ha|].
        destruct (isdigit c) eqn:Hc; [|exact Ha]. apply IH.
        unfold isdigit in Hc. cbv zeta in Hc.
        apply andb_prop in Hc. destruct Hc as [Hc _].
        apply Nat.leb_le in Hc. lia. }
      apply G. lia. }
    destruct (2 ^ 64 - 1 <? decimal spec).
    + cbn [converted rest negb orb].
      destruct (Z.leb_spec (Z.of_nat (List.length endpoints)) (2 ^ 64 - 1));
        [discriminate|lia].
    + cbn [converted rest negb orb].
      destruct (Z.leb_spec (Z.of_nat (List.length endpoints)) (decimal spec));
        [discriminate|].
      destruct (nth _ endpoints None) eqn:Hn; [|discriminate].
      intros E; inversion E; subst.
      split; [apply nth_Some_nth_error; exact Hn|lia].
  - pose proof (search_sound spec endpoints 0 search_init) as Hs.
    cbv zeta in Hs. destruct Hs as [Hx Hp].
    destruct (exact_found (search spec endpoints 0 search_init)) eqn:Hef.
    + destruct (Hx eq_refl) as [[Hf _]|(n & _ & Hn & He)];
        [discriminate Hf|].
      rewrite Nat.sub_0_r in Hn.
      intros E; inversion E; subst.
      rewrite (endpoint_name_at_nth _ _ _ Hn).
      split; [apply nth_Some_nth_error; exact Hn|].
      apply strcasecmp_eq_contains. exact He.
    + destruct (partial_found (search spec endpoints 0 search_init)) eqn:Hpf;
        cbn [andb].
      * destruct (Hp eq_refl) as [[Hf _]|(n & _ & Hn & Hc)];
          [discriminate Hf|].
        rewrite Nat.sub_0_r in Hn.
        destruct (_ =? 1).
        -- intros E; inversion E; subst.
           rewrite (endpoint_name_at_nth _ _ _ Hn).
           split; [apply nth_Some_nth_error; exact Hn|exact Hc].
        -- destruct (1 <? _); discriminate.
      * destruct (1 <? _); discriminate.
Qed.

(** X25. An endpoint whose name is the text, the case of letters apart, is
    chosen whatever other names contain the text: the first such endpoint
    wins, and there is no ambiguity. *)
Theorem resolve_prefers_exact_name (spec : string) (pre : Endpoints)
    (name : string) (post : Endpoints) :
  is_unsigned_integer (Some spec) = false ->
  no_exact_match spec pre ->
  strcasecmp_eq name spec = true ->
  resolve spec (pre ++ Some name :: post) = resolved (List.length pre) name.
Proof.
  intros Hnum Hno He. unfold resolve. rewrite Hnum.
  rewrite length_app. cbn [List.length].
  destruct (Z.eqb_spec (Z.of_nat (List.length pre + S (List.length post))) 0);
    [lia|].
  destruct (search_exact spec name post pre 0 search_init Hno He) as [H1 H2].
  rewrite H1, H2. cbn [Nat.add].
  unfold endpoint_name_at. rewrite nth_middle. reflexivity.
Qed.

(** X26. Without an endpoint of that name, a text that is no number chooses
    by substring: the one available endpoint whose name contains it; none
    gives [no_match], two or more give [ambiguous]. *)
Theorem resolve_by_substring (spec : string) (endpoints : Endpoints) :
  is_unsigned_integer (Some spec) = false ->
  endpoints <> [] ->
  no_exact_match spec endpoints ->
  resolve spec endpoints
  = match partial_matches spec endpoints 0 with
    | [] => no_match
    | [(i, name)] => resolved i name
    | _ => ambiguous
    end.
Proof.
  intros Hnum Hne Hno. unfold resolve. rewrite Hnum.
  destruct (Z.eqb_spec (Z.of_nat (List.length endpoints)) 0) as [E|_].
  { destruct endpoints; [congruence|cbn [List.length] in E; lia]. }
  destruct (search_partial spec endpoints 0 search_init Hno)
    as (H1 & H2 & H3 & H4).
  rewrite H1, H2, H3, H4. cbn [search_init exact_found partial_count
    partial_found partial_index orb Z.add].
  pose proof (partial_matches_nth spec endpoints 0) as Hnth.
  destruct (partial_matches spec endpoints 0) as [|[j name] [|m ms]].
  - reflexivity.
  - cbn [List.length Nat.eqb negb andb map fst last Z.of_nat
         Pos.of_succ_nat Z.eqb Pos.eqb].
    destruct (Hnth j name (or_introl eq_refl)) as [_ Hn].
    rewrite Nat.sub_0_r in Hn.
    rewrite (endpoint_name_at_nth _ _ _ Hn). reflexivity.
  - cbn [List.length Nat.eqb negb andb].
    destruct (Z.eqb_spec (Z.of_nat (S (S (List.length ms)))) 1); [lia|].
    destruct (Z.ltb_spec 1 (Z.of_nat (S (S (List.length ms))))); [|lia].
    reflexivity.
Qed.

Lemma resolve_sound_witness :
  nth_error [Some "IAC Driver Bus 1"%string; None; Some "Synth"%string] 2
  = Some (Some "Synth"%string)
  /\ (if is_unsigned_integer (Some "synth"%string)
      then Z.of_nat 2 = decimal "synth"
      else contains_case_insensitive "Synth" "synth" = true).
Proof.
  apply (resolve_sound "synth"
           [Some "IAC Driver Bus 1"%string; None; Some "Synth"%string]
           2 "Synth").
  - cbn. lia.
  - vm_compute. reflexivity.
Defined.

(** Two buses whose names contain the text, and one that has the name. *)
Lemma resolve_prefers_exact_name_witness :
  resolve "bus"
    ([Some "IAC Driver Bus 1"%string; Some "IAC Driver Bus 2"%string]
     ++ Some "Bus"%string :: [Some "Bus"%string])
  = resolved 2 "Bus".
Proof.
  apply (resolve_prefers_exact_name "bus"
           [Some "IAC Driver Bus 1"%string; Some "IAC Driver Bus 2"%string]
           "Bus" [Some "Bus"%string]).
  - reflexivity.
  - intros name [H|[H|[]]]; inversion H; reflexivity.
  - reflexivity.
Defined.

Lemma resolve_by_substring_witness :
  resolve "bus 2"
    [Some "IAC Driver Bus 1"%string; None; Some "IAC Driver Bus 2"%string]
  = match partial_matches "bus 2"
            [Some "IAC Driver Bus 1"%string; None;
             Some "IAC Driver Bus 2"%string] 0 with
    | [] => no_match
    | [(i, name)] => resolved i name
    | _ => ambiguous
    end.
Proof.
  apply (resolve_by_substring "bus 2"
           [Some "IAC Driver Bus 1"%string; None;
            Some "IAC Driver Bus 2"%string]).
  - reflexivity.
  - discriminate.
  - intros name [H|[H|[H|[]]]]; inversion H; reflexivity.
Defined.

End DeviceProperties.

(** ** The command line of the receiver *)

Module ArgsProperties.
Import CString MidiStats StatsArgs.

Lemma parse_bounded_range value lo hi v :
  parse_bounded value lo hi = Some v -> lo <= v <= hi.
Proof.
  unfold parse_bounded.
  destruct (strto_signed 64 value) as [[p erange] sc].
  destruct (_ || _ || _)%bool; [discriminate|].
  destruct (Z.ltb_spec p lo); [discriminate|].
  destruct (Z.ltb_spec hi p); [discriminate|].
  cbn [orb]. intros E; inversion E; subst. lia.
Qed.

Lemma parse_loop_in_range n : forall args cfg cfg',
  (List.length args <= n)%nat ->
  in_range cfg ->
  parse_loop args cfg = parsed cfg' ->
  in_range cfg'.
Proof.
  unfold in_range, LLONG_MAX, INT_MAX.
  induction n as [|n IH]; intros args cfg cfg' Hlen Hin.
  - destruct args; [|cbn in Hlen; lia].
    cbn. intros E; inversion E; subst. exact Hin.
  - destruct args as [|arg after].
    { cbn. intros E; inversion E; subst. exact Hin. }
    cbn [parse_loop]. cbn [List.length] in Hlen.
    destruct (String.eqb arg "--list").
    { apply IH; [lia|exact Hin]. }
    destruct (String.eqb arg "-h" || String.eqb arg "--help");
      [discriminate|].
    destruct after as [|value others]; [discriminate|].
    cbn [List.length] in Hlen.
    destruct (String.eqb arg "-d" || String.eqb arg "--dest").
    { apply IH; [lia|exact Hin]. }
    destruct Hin as (H1 & H2 & H3).
    destruct (String.eqb arg "-c" || String.eqb arg "--channel").
    { destruct (parse_int value 1 16) as [v|] eqn:Hp; [|discriminate].
      apply parse_bounded_range in Hp. unfold LLONG_MAX, INT_MAX in Hp.
      apply IH; [lia|]. cbn. lia. }
    destruct (String.eqb arg "-k" || String.eqb arg "--count").
    { destruct (parse_long_long value 0 LLONG_MAX) as [v|] eqn:Hp;
        [|discriminate].
      apply parse_bounded_range in Hp. unfold LLONG_MAX, INT_MAX in Hp.
      apply IH; [lia|]. cbn. lia. }
    destruct (String.eqb arg "--report-every"); [|discriminate].
    destruct (parse_int value 1 INT_MAX) as [v|] eqn:Hp; [|discriminate].
    apply parse_bounded_range in Hp. unfold LLONG_MAX, INT_MAX in Hp.
    apply IH; [lia|]. cbn. lia.
Qed.

(** X27. A command line that [parse_args] accepts gives a configuration
    within the ranges the rest of the program relies on: channel 1 to 16,
    count from 0, report period from 1. *)
Theorem parse_args_validates (argv : list string) (cfg : Config.t) :
  parse_args argv = parsed cfg ->
  1 <= Config.channel cfg <= 16
  /\ 0 <= Config.count cfg <= LLONG_MAX
  /\ 1 <= Config.report_every cfg <= INT_MAX.
Proof.
  unfold parse_args. intros H.
  apply (parse_loop_in_range (List.length (tl argv)) (tl argv) defaults cfg);
    [lia| |exact H].
  unfold in_range, LLONG_MAX, INT_MAX. cbn. lia.
Qed.

(** *** The numerals [parse_int] and [parse_long_long] take *)

Lemma append_empty_r s : (s ++ EmptyString)%string = s.
Proof.
  induction s as [|c s IH]; [reflexivity|].
  cbn [String.append]. f_equal. exact IH.
Qed.

Lemma append_assoc a b c :
  ((a ++ b) ++ c)%string = (a ++ (b ++ c))%string.
Proof.
  induction a as [|x a IH]; [reflexivity|].
  cbn [String.append]. f_equal. exact IH.
Qed.

Lemma skip_spaces_split s :
  exists sp, s = (sp ++ skip_spaces s)%string /\ all_spaces sp = true.
Proof.
  induction s as [|c s (sp & Hs & Ha)]; cbn [skip_spaces].
  - exists EmptyString. split; reflexivity.
  - destruct (isspace c) eqn:Hc.
    + exists (String c sp). cbn [String.append all_spaces]. rewrite Hc.
      split; [f_equal; exact Hs|exact Ha].
    + exists EmptyString. split; reflexivity.
Qed.

Lemma skip_spaces_app sp t :
  all_spaces sp = true -> skip_spaces (sp ++ t) = skip_spaces t.
Proof.
  induction sp as [|c sp IH]; cbn [all_spaces String.append skip_spaces];
    [reflexivity|].
  destruct (isspace c); [exact IH|discriminate].
Qed.

Lemma scan_digits_split s : forall acc,
  exists ds,
    s = (ds ++ snd (scan_digits s acc))%string
    /\ all_digits ds = true
    /\ fst (scan_digits s acc) = fst (scan_digits ds acc)
    /\ (forall c s', s = String c s' -> isdigit c = true ->
        ds <> EmptyString).
Proof.
  induction s as [|c s IH]; intros acc; cbn [scan_digits].
  - exists EmptyString. repeat split; try reflexivity. discriminate.
  - destruct (isdigit c) eqn:Hc.
    + destruct (IH (10 * acc + (Z.of_nat (Ascii.nat_of_ascii c) - 48)))
        as (ds & Hs & Hd & Hv & _).
      exists (String c ds). cbn [String.append all_digits scan_digits].
      rewrite Hc. split; [f_equal; exact Hs|].
      split; [exact Hd|]. split; [exact Hv|]. discriminate.
    + exists EmptyString. cbn [String.append all_digits scan_digits snd fst].
      repeat split; try reflexivity.
      intros c' s' E Hd. inversion E; subst. congruence.
Qed.

(** What was converted, when something was. *)
Lemma scan_number_converted value :
  converted (scan_number value) = true ->
  exists spaces sign digits,
    value = (spaces ++ (sign ++ (digits ++ rest (scan_number value))))%string
    /\ all_spaces spaces = true
    /\ (sign = EmptyString \/ sign = plus_sign \/ sign = minus_sign)
    /\ digits <> EmptyString
    /\ all_digits digits = true
    /\ magnitude (scan_number value) = decimal digits
    /\ negative (scan_number value) = String.eqb sign minus_sign.
Proof.
  unfold scan_number.
  destruct (skip_spaces_split value) as (sp & Hv & Hsp).
  destruct (skip_spaces value) as [|c s1]; [discriminate|].
  assert (Hnum : forall s neg sign,
             (sign = EmptyString \/ sign = plus_sign \/ sign = minus_sign) ->
             neg = String.eqb sign minus_sign ->
             value = (sp ++ (sign ++ s))%string ->
             converted
               match s with
               | String c0 _ =>
                   if isdigit c0
                   then let (m, r) := scan_digits s 0 in
                        {| negative := neg; magnitude := m;
                           converted := true; rest := r |}
                   else {| negative := false; magnitude := 0;
                           converted := false; rest := value |}
               | EmptyString =>
                   {| negative := false; magnitude := 0;
                      converted := false; rest := value |}
               end = true ->
             exists spaces sign digits,
               value
               = (spaces
                  ++ (sign
                      ++ (digits
                          ++ rest
                               match s with
                               | String c0 _ =>
                                   if isdigit c0
                                   then let (m, r) := scan_digits s 0 in
                                        {| negative := neg; magnitude := m;
                                           converted := true; rest := r |}
                                   else {| negative := false; magnitude := 0;
                                           converted := false;
                                           rest := value |}
                               | EmptyString =>
                                   {| negative := false; magnitude := 0;
                                      converted := false; rest := value |}
                               end)))%string
               /\ all_spaces spaces = true
               /\ (sign = EmptyString \/ sign = plus_sign
                   \/ sign = minus_sign)
               /\ digits <> EmptyString
               /\ all_digits digits = true
               /\ magnitude
                    match s with
                    | String c0 _ =>
                        if isdigit c0
                        then let (m, r) := scan_digits s 0 in
                             {| negative := neg; magnitude := m;
                                converted := true; rest := r |}
                        else {| negative := false; magnitude := 0;
                                converted := false; rest := value |}
                    | EmptyString =>
                        {| negative := false; magnitude := 0;
                           converted := false; rest := value |}
                    end = decimal digits
               /\ negative
                    match s with
                    | String c0 _ =>
                        if isdigit c0
                        then let (m, r) := scan_digits s 0 in
                             {| negative := neg; magnitude := m;
                                converted := true; rest := r |}
                        else {| negative := false; magnitude := 0;
                                converted := false; rest := value |}
                    | EmptyString =>
                        {| negative := false; magnitude := 0;
                           converted := false; rest := value |}
                    end = String.eqb sign minus_sign).
  { intros s neg sign Hsign Hneg Hval.
    destruct s as [|d s']; [discriminate|].
    destruct (isdigit d) eqn:Hd; [|discriminate].
    destruct (scan_digits_split (String d s') 0) as (ds & Hs & Hds & Hm & Hne).
    specialize (Hne d s' eq_refl Hd).
    destruct (scan_digits (String d s') 0) as [m r]. cbn [fst snd] in *.
    intros _. exists sp, sign, ds.
    cbn [rest magnitude negative].
    split; [rewrite Hval, Hs at 1; reflexivity|].
    split; [exact Hsp|]. split; [exact Hsign|]. split; [exact Hne|].
    split; [exact Hds|]. split; [exact Hm|exact Hneg]. }
  destruct (Nat.eqb_spec (Ascii.nat_of_ascii c) 45) as [E45|N45].
  - apply (Hnum s1 true minus_sign); [auto|reflexivity|].
    rewrite Hv. unfold minus_sign. cbn [String.append].
    rewrite <- E45, Ascii.ascii_nat_embedding. reflexivity.
  - destruct (Nat.eqb_spec (Ascii.nat_of_ascii c) 43) as [E43|N43].
    + apply (Hnum s1 false plus_sign); [auto|reflexivity|].
      rewrite Hv. unfold plus_sign. cbn [String.append].
      rewrite <- E43, Ascii.ascii_nat_embedding. reflexivity.
    + apply (Hnum (String c s1) false EmptyString); [auto|reflexivity|].
      exact Hv.
Qed.

(** A numeral is converted whole. *)
Lemma scan_number_numeral spaces sign digits :
  all_spaces spaces = true ->
  sign = EmptyString \/ sign = plus_sign \/ sign = minus_sign ->
  digits <> EmptyString ->
  all_digits digits = true ->
  scan_number (spaces ++ (sign ++ digits))
  = {| negative := String.eqb sign minus_sign; magnitude := decimal digits;
       converted := true; rest := EmptyString |}.
Proof.
  intros Hsp Hsign Hne Hd.
  destruct digits as [|d ds]; [congruence|].
  pose proof Hd as Hd'. cbn [all_digits] in Hd'.
  destruct (isdigit d) eqn:Hdig; [|discriminate].
  destruct (DeviceProperties.isdigit_plain d Hdig) as (Hnsp & Hn45 & Hn43).
  pose proof (DeviceProperties.scan_digits_all (String d ds) 0 Hd) as Hr.
  assert (Hscan : scan_digits (String d ds) 0
                  = (decimal (String d ds), EmptyString)).
  { unfold decimal. destruct (scan_digits (String d ds) 0) as [m r].
    cbn [fst snd] in *. rewrite Hr. reflexivity. }
  unfold scan_number. rewrite skip_spaces_app by exact Hsp.
  destruct Hsign as [->|[->| ->]].
  - cbn [String.append skip_spaces]. rewrite Hnsp, Hn45, Hn43, Hdig, Hscan.
    reflexivity.
  - unfold plus_sign. cbn [String.append skip_spaces].
    change (isspace (Ascii.ascii_of_nat 43)) with false. cbv iota.
    change (Ascii.nat_of_ascii (Ascii.ascii_of_nat 43)) with 43%nat.
    cbn [Nat.eqb]. rewrite Hdig, Hscan. reflexivity.
  - unfold minus_sign. cbn [String.append skip_spaces].
    change (isspace (Ascii.ascii_of_nat 45)) with false. cbv iota.
    change (Ascii.nat_of_ascii (Ascii.ascii_of_nat 45)) with 45%nat.
    cbn [Nat.eqb]. rewrite Hdig, Hscan. reflexivity.
Qed.

(** X28. The texts [parse_int] and [parse_long_long] accept are the decimal
    numerals: white space or none, a sign or none, one digit or more and
    nothing behind them, with a value that fits 64 bits and lies within the
    bounds given; the answer is that value. *)
Theorem parse_int_accepts (value : string) (min_value max_value v : Z) :
  parse_int value min_value max_value = Some v
  <-> exists spaces sign digits,
        value = (spaces ++ (sign ++ digits))%string
        /\ all_spaces spaces = true
        /\ (sign = EmptyString \/ sign = plus_sign \/ sign = minus_sign)
        /\ digits <> EmptyString
        /\ all_digits digits = true
        /\ v = (if String.eqb sign minus_sign
                then - decimal digits else decimal digits)
        /\ - 2 ^ 63 <= v <= 2 ^ 63 - 1
        /\ min_value <= v <= max_value.
Proof.
  unfold parse_int, parse_bounded, strto_signed.
  change (2 ^ (64 - 1)) with (2 ^ 63).
  split.
  - pose proof (scan_number_converted value) as Hc.
    destruct (scan_number value) as [neg m conv r].
    cbn [negative magnitude converted rest] in *.
    set (v0 := if neg then - m else m) in *.
    destruct (Z.ltb_spec v0 (- 2 ^ 63)); [discriminate|].
    destruct (Z.ltb_spec (2 ^ 63 - 1) v0); [discriminate|].
    cbn [orb]. destruct conv; [|discriminate]. cbn [negb orb].
    destruct r; [|discriminate]. cbn [negb].
    destruct (Z.ltb_spec v0 min_value); [discriminate|].
    destruct (Z.ltb_spec max_value v0); [discriminate|].
    cbn [orb]. intros E; inversion E; subst v.
    destruct (Hc eq_refl) as (sp & sign & ds & Hv & Hsp & Hs & Hne & Hd
                              & Hm & Hn).
    exists sp, sign, ds. rewrite append_empty_r in Hv.
    split; [exact Hv|]. split; [exact Hsp|]. split; [exact Hs|].
    split; [exact Hne|]. split; [exact Hd|].
    split; [unfold v0; rewrite Hn, Hm; reflexivity|]. lia.
  - intros (sp & sign & ds & -> & Hsp & Hs & Hne & Hd & Hv & Hfit & Hin).
    rewrite (scan_number_numeral sp sign ds Hsp Hs Hne Hd).
    cbn [negative magnitude converted rest]. rewrite <- Hv.
    destruct (Z.ltb_spec v (- 2 ^ 63)); [lia|].
    destruct (Z.ltb_spec (2 ^ 63 - 1) v); [lia|].
    cbn [orb negb].
    destruct (Z.ltb_spec v min_value); [lia|].
    destruct (Z.ltb_spec max_value v); [lia|].
    reflexivity.
Qed.

Lemma parse_args_validates_witness :
  1 <= 10 <= 16 /\ 0 <= 50 <= LLONG_MAX /\ 1 <= 100 <= INT_MAX.
Proof.
  apply (parse_args_validates
           ["midi_stats"%string; "--dest"%string; "0"%string; "-c"%string;
            "10"%string; "-k"%string; " +50"%string]
           {| Config.destination_spec := Some "0"%string;
              Config.channel := 10; Config.count := 50;
              Config.report_every := 100; Config.list_only := false |}).
  vm_compute. reflexivity.
Defined.

End ArgsProperties.
